(** * fast-agent: configuration precedence, dependency ordering, workflow
      registration, lifecycle and prompt messages

    A shallow embedding of the parts of [mcp_agent] that the specification
    talks about:

    - [mcp_agent/config.py]: [Settings], [Settings.find_config],
      [deep_merge], [get_settings];
    - [mcp_agent/app.py]: [MCPApp.initialize], [cleanup], [run],
      [workflow_task], [is_workflow_task];
    - [mcp_agent/core/decorator_app.py]: the agent registry,
      [_get_model_factory], [_get_parallel_dependencies],
      [_create_parallel_agents], [_create_orchestrators],
      [_create_evaluator_optimizers], the scope of [run] and
      [AgentAppWrapper];
    - [mcp_agent/core/agent_utils.py]: [unwrap_proxy],
      [get_agent_instances];
    - [mcp_agent/mcp/prompt_message_multipart.py] and
      [mcp_agent/mcp/prompts/prompt_load.py].

    Python exceptions are values of [exn]; a computation that can raise
    returns a [result].  Dictionaries whose iteration order is observable
    ([self.agents], the built agents) are insertion-ordered association
    lists; Python [set]s are [gset]s whose iteration order is an explicit
    parameter. *)

From Stdlib Require Import ZArith Lia.
From stdpp Require Import base functions option list sets gmap strings.

Local Open Scope string_scope.
Local Open Scope list_scope.
Local Open Scope stdpp_scope.

(** ** Python values shared by the modules *)

(** The exceptions the modelled code raises or lets through. *)
Inductive exn :=
| ValueError (msg : string)
| KeyError (key : string)
| TypeError (msg : string)
| AttributeError (msg : string)
| RuntimeError (msg : string)
| RecursionError
| CancelledError
| ValidationError (msg : string).

Inductive result (A : Type) :=
| Ok (a : A)
| Raise (e : exn).
Arguments Ok {A} a.
Arguments Raise {A} e.

(** The value a computation returned, if it returned. *)
Definition returned_value {A} (r : result A) : option A :=
  match r with
  | Ok a => Some a
  | Raise _ => None
  end.

Definition bind {A B} (r : result A) (k : A -> result B) : result B :=
  match r with
  | Ok a => k a
  | Raise e => Raise e
  end.

Notation "'try!' x := r 'in' k" := (bind r (fun x => k))
  (at level 10, x name, r at level 100, k at level 200).

(** A computation that also prints: its result and the lines written to
    the console, in order. *)
Definition io (A : Type) : Type := result A * list string.

Definition io_ret {A} (a : A) : io A := (Ok a, []).

Definition io_raise {A} (e : exn) : io A := (Raise e, []).

Definition io_lift {A} (r : result A) : io A := (r, []).

Definition print (line : string) : io unit := (Ok tt, [line]).

Definition io_bind {A B} (m : io A) (k : A -> io B) : io B :=
  match m.1 with
  | Ok a => let r := k a in (r.1, m.2 ++ r.2)
  | Raise e => (Raise e, m.2)
  end.

Notation "'do!' x := m 'in' k" := (io_bind m (fun x => k))
  (at level 10, x name, m at level 100, k at level 200).
Notation "m ';;' k" := (io_bind m (fun _ => k))
  (at level 100, k at level 200, right associativity).

(** Truth value of an [Optional[str]]: [None] and the empty string are
    false. *)
Definition truthy (s : option string) : bool :=
  match s with
  | Some s => bool_decide (s <> "")
  | None => false
  end.

(** [f"{s}"] for an [Optional[str]]. *)
Definition fmt (s : option string) : string := default "None" s.

(** The line feed written as [\n] in the source. *)
Definition nl : string := String (Ascii.ascii_of_nat 10) "".

(** [sep.join(items)] *)
Definition join (sep : string) (items : list string) : string :=
  String.concat sep items.

(** [sub in msg] for strings. *)
Definition mentions (msg sub : string) : Prop :=
  exists pre post, msg = pre +:+ sub +:+ post.

(** An insertion-ordered [dict] with string keys: [d[k]], [d.get(k)],
    [k in d], [d[k] = v] (an existing key keeps its position). *)
Module Dict.

Definition t (V : Type) := list (string * V).

Fixpoint get {V} (d : t V) (k : string) : option V :=
  match d with
  | [] => None
  | (k', v) :: d' => if decide (k' = k) then Some v else get d' k
  end.

Definition subscript {V} (d : t V) (k : string) : result V :=
  match get d k with
  | Some v => Ok v
  | None => Raise (KeyError k)
  end.

Definition contains {V} (d : t V) (k : string) : bool :=
  bool_decide (is_Some (get d k)).

Fixpoint set {V} (d : t V) (k : string) (v : V) : t V :=
  match d with
  | [] => [(k, v)]
  | (k', v') :: d' =>
      if decide (k' = k) then (k, v) :: d' else (k', v') :: set d' k v
  end.

Definition keys {V} (d : t V) : list string := d.*1.

Definition items {V} (d : t V) : list (string * V) := d.

End Dict.

(** ** mcp_agent/config.py *)

Module Config.

(** A document as [yaml.safe_load] returns it. *)
Inductive yaml :=
| YNull
| YBool (b : bool)
| YInt (z : Z)
| YStr (s : string)
| YList (l : list yaml)
| YMap (m : list (string * yaml)).

(** [class Settings(BaseSettings)]: the two scalar fields with a default
    declared in this file, and the other settings (the nested settings
    models and, with [extra="allow"], any other key) as validation leaves
    them. *)
Record Settings := {
  execution_engine : string;
  default_model : option string;
  other_settings : Dict.t yaml;
}.

(** The defaults of the class body:
    [execution_engine = "asyncio"], [default_model = "haiku"]. *)
Definition baseline_execution_engine : string := "asyncio".
Definition baseline_default_model : option string := Some "haiku".

(** What [BaseSettings] reads beside its keyword arguments: the variables
    of the process environment and those of the file [.env] of the working
    directory ([env_file=".env"]; no variables when there is no such
    file).  Variable names are held in lower case, as [BaseSettings]
    compares them with the field names. *)
Record environment := {
  os_environ : Dict.t string;
  dotenv : Dict.t string;
}.

(** The value the environment sources give a field: the process
    environment comes before [.env]. *)
Definition env_value (env : environment) (field : string) : option string :=
  match Dict.get (os_environ env) field with
  | Some v => Some v
  | None => Dict.get (dotenv env) field
  end.

Fixpoint without_keys (ks : list string) (d : Dict.t yaml) : Dict.t yaml :=
  match d with
  | [] => []
  | (k, v) :: d' =>
      if decide (k ∈ ks) then without_keys ks d' else (k, v) :: without_keys ks d'
  end.

(** [execution_engine: Literal["asyncio", "temporal"]] *)
Definition validate_engine (s : string) : option string :=
  if decide (s = "asyncio" \/ s = "temporal") then Some s else None.

Section Validation.

(** From pydantic, outside this file: the validation of everything but
    the two scalar fields (the nested settings models with their own
    defaults and validators, and the extra keys), from the remaining
    keyword arguments and the environment: the other settings, or [None]
    when a value is rejected. *)
Variable validate_nested : environment -> Dict.t yaml -> option (Dict.t yaml).

(** [Settings] applied to the keyword arguments [kwargs].  For each field
    a keyword argument comes first, then the process environment, then
    [.env], then the default of the class body;
    [default_model: str | None] accepts a string or null,
    [execution_engine] one of the two literals.  Every rejected value ends
    in the one [ValidationError] of the class. *)
Definition Settings_init (env : environment) (kwargs : Dict.t yaml) : result Settings :=
  let engine :=
    match Dict.get kwargs "execution_engine" with
    | Some (YStr s) => validate_engine s
    | Some _ => None
    | None =>
        match env_value env "execution_engine" with
        | Some s => validate_engine s
        | None => Some baseline_execution_engine
        end
    end in
  let model :=
    match Dict.get kwargs "default_model" with
    | Some YNull => Some None
    | Some (YStr s) => Some (Some s)
    | Some _ => None
    | None =>
        match env_value env "default_model" with
        | Some s => Some (Some s)
        | None => Some baseline_default_model
        end
    end in
  match engine, model,
        validate_nested env (without_keys ["execution_engine"; "default_model"] kwargs) with
  | Some engine, Some model, Some others =>
      Ok {| execution_engine := engine; default_model := model; other_settings := others |}
  | _, _, _ => Raise (ValidationError "Settings")
  end.

End Validation.

(** [deep_merge(base, update)], by recursion on the update document. *)
Fixpoint deep_merge_into (update : yaml) (base : Dict.t yaml) : Dict.t yaml :=
  match update with
  | YMap items =>
      (fix loop (items : list (string * yaml)) (merged : Dict.t yaml) : Dict.t yaml :=
         match items with
         | [] => merged
         | (key, value) :: rest =>
             loop rest
               match Dict.get merged key, value with
               | Some (YMap old), YMap _ =>
                   Dict.set merged key (YMap (deep_merge_into value old))
               | _, _ => Dict.set merged key value
               end
         end) items base
  | _ => base
  end.

Definition deep_merge (base update : Dict.t yaml) : Dict.t yaml :=
  deep_merge_into (YMap update) base.

(** A directory or file of the file system, as its components from the
    innermost one up to the root ([[]]); [parent] drops the innermost
    component and the root is its own parent. *)
Definition fspath := list string.

Definition parent (p : fspath) : fspath := tail p.

(** A path as [pathlib] holds it: whether it is absolute, and its
    components from the innermost one outwards.  [Path("/")] and
    [Path(".")] have no components, and each is its own parent. *)
Record pypath := {
  is_absolute : bool;
  parts : fspath;
}.

(** What the loader reads: the working directory, each existing YAML file
    with the mapping [yaml.safe_load(f) or {}] yields, and the environment
    with the [.env] file of the working directory. *)
Record world := {
  cwd : fspath;
  files : fspath -> option (Dict.t yaml);
  env : environment;
}.

(** The file or directory a path names: a relative path starts from the
    working directory. *)
Definition locate (fs : world) (p : pypath) : fspath :=
  if is_absolute p then parts p else parts p ++ cwd fs.

Definition exists_file (fs : world) (p : fspath) : bool :=
  bool_decide (is_Some (files fs p)).

(** The first of [names] that exists in [dir]. *)
Fixpoint first_existing (fs : world) (dir : fspath) (names : list string) : option fspath :=
  match names with
  | [] => None
  | n :: rest =>
      if exists_file fs (n :: dir) then Some (n :: dir) else first_existing fs dir rest
  end.

(** The loop [while current_dir != current_dir.parent] over the three file
    names: the first hit walking up from [dir], the root excluded. *)
Fixpoint search_up (fs : world) (names : list string) (dir : fspath) : option fspath :=
  match dir with
  | [] => None
  | _ :: up =>
      match first_existing fs dir names with
      | Some f => Some f
      | None => search_up fs names up
      end
  end.

(** The same loop over the directories of a path as written: the
    directories [dir], [dir.parent], ... down to but without the last one
    (the root of an absolute path, [.] of a relative one), each looked up
    from [base]. *)
Fixpoint search_up_from (fs : world) (names : list string) (base dir : fspath)
    : option fspath :=
  match dir with
  | [] => None
  | _ :: up =>
      match first_existing fs (dir ++ base) names with
      | Some f => Some f
      | None => search_up_from fs names base up
      end
  end.

Definition config_names : list string :=
  ["mcp-agent.config.yaml"; "mcp_agent.config.yaml"; "fastagent.config.yaml"].

Definition secrets_names : list string :=
  ["mcp-agent.secrets.yaml"; "mcp_agent.secrets.yaml"; "fastagent.secrets.yaml"].

(** [Settings.find_config()] *)
Definition find_config (fs : world) : option fspath :=
  search_up fs config_names (cwd fs).

(** The module-level [_settings]. *)
Definition globals := option Settings.

(** The secrets file the loop of [get_settings] finds for a configuration
    file: the first hit walking up from [config_file.parent]. *)
Definition find_secrets (fs : world) (config_file : pypath) : option fspath :=
  search_up_from fs secrets_names (if is_absolute config_file then [] else cwd fs)
    (parent (parts config_file)).

(** [merged_settings] of [get_settings]: what the configuration file and
    the secrets file give, [None] when there is no configuration file. *)
Definition load_files (fs : world) (config_file : option pypath) : option (Dict.t yaml) :=
  match config_file with
  | Some f =>
      match files fs (locate fs f) with
      | Some yaml_settings =>
          match find_secrets fs f with
          | Some s =>
              match files fs s with
              | Some yaml_secrets => Some (deep_merge yaml_settings yaml_secrets)
              | None => Some yaml_settings
              end
          | None => Some yaml_settings
          end
      | None => None
      end
  | None => None
  end.

Section Loading.

Variable validate_nested : environment -> Dict.t yaml -> option (Dict.t yaml).

(** [get_settings(config_path)]: the result and the new value of the
    global.  [config_path] is [None] for a missing or empty argument;
    [find_config] gives an absolute path. *)
Definition get_settings (fs : world) (config_path : option pypath) (g : globals)
    : result Settings * globals :=
  match g with
  | Some cached => (Ok cached, g)
  | None =>
      let config_file :=
        match config_path with
        | Some p => Some p
        | None =>
            match find_config fs with
            | Some f => Some {| is_absolute := true; parts := f |}
            | None => None
            end
        end in
      match Settings_init validate_nested (env fs) (default [] (load_files fs config_file)) with
      | Ok s => (Ok s, Some s)
      | Raise e => (Raise e, None)
      end
  end.

(** One load after another on the same module: the results, in order, and
    the global afterwards. *)
Fixpoint get_settings_all (calls : list (world * option pypath)) (g : globals)
    : list (result Settings) * globals :=
  match calls with
  | [] => ([], g)
  | (fs, config_path) :: rest =>
      let '(r, g1) := get_settings fs config_path g in
      let '(rs, g2) := get_settings_all rest g1 in
      (r :: rs, g2)
  end.

End Loading.

(** The files a load with an empty global may look at: the configuration
    file named, or else the three configuration names in the working
    directory and its ancestors; and the three secrets names in the
    directories above whichever configuration file is used. *)
Definition candidates_above (names : list string) (base dir : fspath) : list fspath :=
  flat_map (fun k => map (fun n => n :: drop k dir ++ base) names) (seq 0 (length dir)).

Definition read_set (fs : world) (config_path : option pypath) : list fspath :=
  match config_path with
  | Some p =>
      locate fs p
      :: candidates_above secrets_names (if is_absolute p then [] else cwd fs)
           (parent (parts p))
  | None =>
      candidates_above config_names [] (cwd fs)
      ++ candidates_above secrets_names [] (cwd fs)
  end.

(** The value [deep_merge] stores under a key of [update]: the recursive
    merge when the key holds a mapping on both sides, else the new value. *)
Definition merged_value (old : option yaml) (new : yaml) : yaml :=
  match old, new with
  | Some (YMap o), YMap u => YMap (deep_merge o u)
  | _, _ => new
  end.

(** *** Environments and file systems used as scenarios *)

(** An environment without variables, and validation that accepts the
    remaining keyword arguments as they are. *)
Definition clean_env : environment := {| os_environ := []; dotenv := [] |}.

Definition accept_all (env : environment) (kwargs : Dict.t yaml) : option (Dict.t yaml) :=
  Some kwargs.

(** An environment whose [.env] file names a model, and one in which the
    process environment names another as well. *)
Definition dotenv_model : environment :=
  {| os_environ := []; dotenv := [("default_model", "opus")] |}.

Definition environ_model : environment :=
  {| os_environ := [("default_model", "gpt-4o")]; dotenv := [("default_model", "opus")] |}.

(** A configuration file in [/work/app] that names a model and a server
    table, and a secrets file beside it that names another model and adds
    to the table. *)
Definition secret_model_files : world :=
  {| cwd := ["app"; "work"];
     files := fun p =>
       if decide (p = ["mcp_agent.config.yaml"; "app"; "work"]) then
         Some [("default_model", YStr "sonnet");
               ("anthropic", YMap [("base_url", YStr "https://example.test")])]
       else if decide (p = ["mcp_agent.secrets.yaml"; "app"; "work"]) then
         Some [("anthropic", YMap [("api_key", YStr "k")]);
               ("default_model", YStr "opus")]
       else None;
     env := clean_env |}.

(** The same files, with the working directory one level up. *)
Definition secret_model_files_from_work : world :=
  {| cwd := ["work"]; files := files secret_model_files; env := clean_env |}.

(** The configuration file of [secret_model_files] as an absolute path, as
    a bare file name, and as a path relative to [/work]. *)
Definition config_absolute : pypath :=
  {| is_absolute := true; parts := ["mcp_agent.config.yaml"; "app"; "work"] |}.

Definition config_bare : pypath :=
  {| is_absolute := false; parts := ["mcp_agent.config.yaml"] |}.

Definition config_in_app : pypath :=
  {| is_absolute := false; parts := ["mcp_agent.config.yaml"; "app"] |}.

(** A project directory with a configuration file, and a secrets file one
    level up. *)
Definition project_files : world :=
  {| cwd := ["app"; "work"];
     files := fun p =>
       if decide (p = ["fastagent.config.yaml"; "app"; "work"]) then
         Some [("default_model", YStr "sonnet");
               ("openai", YMap [("base_url", YStr "https://example.test")])]
       else if decide (p = ["fastagent.secrets.yaml"; "work"]) then
         Some [("openai", YMap [("api_key", YStr "k")])]
       else None;
     env := clean_env |}.

(** Two configuration files in [/etc]. *)
Definition path_a : pypath := {| is_absolute := true; parts := ["a.yaml"; "etc"] |}.
Definition path_b : pypath := {| is_absolute := true; parts := ["b.yaml"; "etc"] |}.

Definition two_files : world :=
  {| cwd := ["home"];
     files := fun p =>
       if decide (p = parts path_a) then Some [("default_model", YStr "sonnet")]
       else if decide (p = parts path_b) then Some [("default_model", YStr "opus")]
       else None;
     env := clean_env |}.

(** The files of [two_files] with a [.env] file that names a model. *)
Definition two_files_dotenv : world :=
  {| cwd := ["home"]; files := files two_files; env := dotenv_model |}.

(** The files of [two_files] with another [b.yaml]. *)
Definition two_files_changed : world :=
  {| cwd := ["home"];
     files := fun p =>
       if decide (p = parts path_a) then Some [("default_model", YStr "sonnet")]
       else if decide (p = parts path_b) then Some [("default_model", YStr "gpt-4o")]
       else None;
     env := clean_env |}.

(** A configuration file that names an execution engine the class does
    not know. *)
Definition path_c : pypath := {| is_absolute := true; parts := ["c.yaml"; "etc"] |}.

Definition invalid_engine_files : world :=
  {| cwd := ["home"];
     files := fun p =>
       if decide (p = parts path_c) then Some [("execution_engine", YStr "bogus")] else None;
     env := clean_env |}.

Definition settings_with (model : string) : Settings :=
  {| execution_engine := "asyncio"; default_model := Some model; other_settings := [] |}.

End Config.
(** ** mcp_agent/core/decorator_app.py: registry and dependency order *)

Module DecoratorApp.

(** [class AgentType(Enum)] *)
Inductive AgentType := BASIC | ORCHESTRATOR | PARALLEL | EVALUATOR_OPTIMIZER.

#[global] Instance AgentType_eq_dec : EqDecision AgentType.
Proof. solve_decision. Defined.

(** [RequestParams]: the fields the decorators set. *)
Record RequestParams := {
  rp_model : option string;
  rp_use_history : bool;
  rp_maxTokens : Z;
}.

(** [AgentConfig(name, instruction, servers, model, use_history,
    default_request_params)] *)
Record AgentConfig := {
  cfg_name : string;
  cfg_instruction : string;
  cfg_servers : list string;
  cfg_model : option string;
  cfg_use_history : bool;
  cfg_default_request_params : option RequestParams;
}.

(** The dictionaries stored in [self.agents]: the keys present depend on
    the ["type"] entry, so each kind is a constructor. *)
Inductive agent_data :=
| BasicData (config : AgentConfig)
| OrchestratorData (config : AgentConfig) (child_agents : list string)
| ParallelData (config : AgentConfig) (fan_in : string) (fan_out : list string)
| EvaluatorOptimizerData (config : AgentConfig) (optimizer evaluator : string)
    (min_rating : string) (max_refinements : Z).

Definition data_type (d : agent_data) : AgentType :=
  match d with
  | BasicData _ => BASIC
  | OrchestratorData _ _ => ORCHESTRATOR
  | ParallelData _ _ _ => PARALLEL
  | EvaluatorOptimizerData _ _ _ _ _ => EVALUATOR_OPTIMIZER
  end.

Definition data_config (d : agent_data) : AgentConfig :=
  match d with
  | BasicData c | OrchestratorData c _ | ParallelData c _ _
  | EvaluatorOptimizerData c _ _ _ _ => c
  end.

(** [self.agents] *)
Abbreviation registry := (Dict.t agent_data).

(** The traversal state of [_get_parallel_dependencies]: the two [set]
    objects every recursive call mutates. *)
Record walk := Walk {
  visited : gset string;
  path : gset string;
}.

Section DependencyOrder.

(** The order in which iterating a [set] of names yields them.  Python
    fixes no such order (it follows the per-process string hashes). *)
Variable hash_order : gset string -> list string.

(** [f"Circular dependency detected: {path_str} -> {name}"] *)
Definition circular_message (p : gset string) (name : string) : string :=
  "Circular dependency detected: " +:+ join " -> " (hash_order p) +:+ " -> " +:+ name.

(** The loop [for fan_out in config["fan_out"]: deps.extend(...)], over the
    recursive call [rec]. *)
Fixpoint extend_deps (rec : string -> walk -> option (result (list string * walk)))
    (fan_outs : list string) (deps : list string) (w : walk)
    : option (result (list string * walk)) :=
  match fan_outs with
  | [] => Some (Ok (deps, w))
  | fan_out :: rest =>
      match rec fan_out w with
      | None => None
      | Some (Raise e) => Some (Raise e)
      | Some (Ok (more, w')) => extend_deps rec rest (deps ++ more) w'
      end
  end.

(** [_get_parallel_dependencies(name, visited, path)].  [fuel] bounds the
    depth of the recursion; [None] means the bound was too small.  (The
    interpreter's own recursion limit is not modelled.) *)
Fixpoint get_parallel_dependencies (fuel : nat) (agents : registry)
    (name : string) (w : walk) : option (result (list string * walk)) :=
  match fuel with
  | O => None
  | S fuel =>
      if decide (name ∈ path w) then
        Some (Raise (ValueError (circular_message (path w) name)))
      else if decide (name ∈ visited w) then Some (Ok ([], w))
      else
        match Dict.get agents name with
        | None => Some (Ok ([], w))
        | Some (ParallelData _ _ fan_out) =>
            let w1 := Walk (visited w) ({[name]} ∪ path w) in
            match extend_deps (get_parallel_dependencies fuel agents) fan_out [] w1 with
            | None => None
            | Some (Raise e) => Some (Raise e)
            | Some (Ok (deps, w2)) =>
                if decide (name ∈ path w2) then
                  Some (Ok (deps ++ [name],
                            Walk ({[name]} ∪ visited w2) (path w2 ∖ {[name]})))
                else Some (Raise (KeyError name))
            end
        | Some _ => Some (Ok ([], w))
        end
  end.

(** The recursion budget that always suffices: one frame per registered
    name, plus the frame that detects a cycle. *)
Definition enough_fuel (agents : registry) : nat := S (length agents).

(** [parallel_names] of [_create_parallel_agents]. *)
Definition parallel_names (agents : registry) : list string :=
  (filter (fun kv => data_type kv.2 = PARALLEL) (Dict.items agents)).*1.

End DependencyOrder.

(** *** Model resolution and the builders *)

(** [class QualityRating(Enum)], as the decorator's docstring lists it. *)
Inductive QualityRating := POOR | FAIR | GOOD | EXCELLENT.

(** [QualityRating[name]] *)
Definition QualityRating_getitem (name : string) : result QualityRating :=
  if decide (name = "POOR") then Ok POOR
  else if decide (name = "FAIR") then Ok FAIR
  else if decide (name = "GOOD") then Ok GOOD
  else if decide (name = "EXCELLENT") then Ok EXCELLENT
  else Raise (KeyError name).

(** The fields of the decorator object the builders read.  They run inside
    [run], where [self.context] exists. *)
Record MCPAgentDecorator := {
  args_model : option string;
  context_config : Config.Settings;
  agents : registry;
}.

(** The value of [model_spec] at the end of [_get_model_factory]. *)
Definition resolved_model_spec (self : MCPAgentDecorator) (model : option string)
    : option string :=
  let model_spec := Config.default_model (context_config self) in
  let model_spec := if truthy (args_model self) then args_model self else model_spec in
  let model_spec := if truthy model then model else model_spec in
  model_spec.

(** The precedence rule in the words of the specification: the first
    non-null value scanning call-site, command-line override, file config,
    baseline. *)
Fixpoint first_non_null (tiers : list (option string)) : option string :=
  match tiers with
  | [] => None
  | Some v :: _ => Some v
  | None :: rest => first_non_null rest
  end.

Definition spec_resolved_model (call_site cli file baseline : option string)
    : option string :=
  first_non_null [call_site; cli; file; baseline].

(** The model a file configuration supplies: the string under
    [default_model], if any. *)
Definition file_model (file_config : Dict.t Config.yaml) : option string :=
  match Dict.get file_config "default_model" with
  | Some (Config.YStr s) => Some s
  | _ => None
  end.

Section Builders.

(** [mcp_agent.workflows.llm]: the factory objects, [ModelFactory]'s two
    class methods, the field defaults of [RequestParams] and its [repr]
    are supplied from outside this file. *)
Variable Factory : Type.
Variable parse_model_string : option string -> result string.
Variable create_factory : option string -> RequestParams -> result Factory.
Variable RequestParams_defaults : RequestParams.
Variable repr_request_params : option RequestParams -> string.

(** [request_params.model_copy(update={"model": model_spec})] *)
Definition with_model (rp : RequestParams) (model : option string) : RequestParams :=
  {| rp_model := model; rp_use_history := rp_use_history rp; rp_maxTokens := rp_maxTokens rp |}.

(** [_get_model_factory(model, request_params)] *)
Definition get_model_factory (self : MCPAgentDecorator) (model : option string)
    (request_params : option RequestParams) : io Factory :=
  print (nl +:+ "_get_model_factory called with model=" +:+ fmt model
         +:+ ", request_params=" +:+ repr_request_params request_params) ;;
  let model_spec := Config.default_model (context_config self) in
  print ("Starting with config default: " +:+ fmt model_spec) ;;
  do! model_spec :=
    if truthy (args_model self) then
      print ("Applied command line override: " +:+ fmt (args_model self)) ;;
      io_ret (args_model self)
    else io_ret model_spec in
  do! model_spec :=
    if truthy model then
      print ("Applied decorator model: " +:+ fmt model) ;; io_ret model
    else io_ret model_spec in
  print ("Creating factory with final model_spec: " +:+ fmt model_spec) ;;
  let request_params :=
    match request_params with
    | Some rp => with_model rp model_spec
    | None => with_model RequestParams_defaults model_spec
    end in
  io_lift (create_factory model_spec request_params).

(** The objects [run] builds: an [Agent], or the [BaseAgentWrapper] around
    an [Orchestrator], a [ParallelLLM] or an [EvaluatorOptimizerLLM], each
    holding the objects it was wired to. *)
Inductive RuntimeNode :=
| AgentNode (config : AgentConfig)
| OrchestratorNode (name instruction : string) (available_agents : list RuntimeNode)
    (llm_factory : Factory) (request_params : RequestParams) (plan_type : string)
| ParallelNode (name instruction : string) (fan_out_agents : list RuntimeNode)
    (fan_in_agent : RuntimeNode) (llm_factory : Factory)
    (default_request_params : option RequestParams)
| EvaluatorOptimizerNode (optimizer evaluator : RuntimeNode) (min_rating : QualityRating)
    (max_refinements : Z) (llm_factory : Factory).

(** [isinstance(node, Agent)] *)
Definition is_Agent (node : RuntimeNode) : bool :=
  match node with AgentNode _ => true | _ => false end.

Abbreviation built := (Dict.t RuntimeNode).

(** [[active_agents[agent_name] for agent_name in names]] *)
Fixpoint lookup_all (active_agents : built) (names : list string) : result (list RuntimeNode) :=
  match names with
  | [] => Ok []
  | n :: rest =>
      try! a := Dict.subscript active_agents n in
      try! more := lookup_all active_agents rest in
      Ok (a :: more)
  end.

(** The body of the loop of [_create_orchestrators] for one orchestrator. *)
Definition create_orchestrator (self : MCPAgentDecorator) (active_agents : built)
    (config : AgentConfig) (child_agents : list string) : io RuntimeNode :=
  do! resolved_model := io_lift (parse_model_string (cfg_model config)) in
  let base_params :=
    match cfg_default_request_params config with
    | Some params =>
        {| rp_model := Some resolved_model;
           rp_use_history := cfg_use_history config;
           rp_maxTokens := rp_maxTokens params |}
    | None =>
        {| rp_model := Some resolved_model;
           rp_use_history := cfg_use_history config;
           rp_maxTokens := rp_maxTokens RequestParams_defaults |}
    end in
  do! llm_factory := get_model_factory self (cfg_model config) (Some base_params) in
  do! children := io_lift (lookup_all active_agents child_agents) in
  io_ret (OrchestratorNode (cfg_name config) (cfg_instruction config) children
            llm_factory base_params "full").

(** [_create_orchestrators(agent_app, active_agents)] *)
Fixpoint create_orchestrators_loop (self : MCPAgentDecorator) (active_agents : built)
    (items : list (string * agent_data)) (orchestrators : built) : io built :=
  match items with
  | [] => io_ret orchestrators
  | (name, OrchestratorData config child_agents) :: rest =>
      do! node := create_orchestrator self active_agents config child_agents in
      create_orchestrators_loop self active_agents rest (Dict.set orchestrators name node)
  | _ :: rest => create_orchestrators_loop self active_agents rest orchestrators
  end.

Definition create_orchestrators (self : MCPAgentDecorator) (active_agents : built) : io built :=
  create_orchestrators_loop self active_agents (Dict.items (agents self)) [].

(** The body of the loop of [_create_evaluator_optimizers] for one
    workflow.  A built object is never false, so [not optimizer] holds
    exactly when [active_agents.get] found nothing. *)
Definition create_evaluator_optimizer (self : MCPAgentDecorator) (active_agents : built)
    (name optimizer evaluator min_rating : string) (max_refinements : Z) : io RuntimeNode :=
  match Dict.get active_agents optimizer, Dict.get active_agents evaluator with
  | Some opt, Some ev =>
      let optimizer_model :=
        match opt with
        | AgentNode config => cfg_model config
        | _ => None
        end in
      do! rating := io_lift (QualityRating_getitem min_rating) in
      do! llm_factory := get_model_factory self optimizer_model None in
      io_ret (EvaluatorOptimizerNode opt ev rating max_refinements llm_factory)
  | _, _ =>
      io_raise (ValueError ("Missing agents for workflow " +:+ name +:+ ": "
                            +:+ "optimizer=" +:+ optimizer +:+ ", "
                            +:+ "evaluator=" +:+ evaluator))
  end.

(** [_create_evaluator_optimizers(agent_app, active_agents)] *)
Fixpoint create_evaluator_optimizers_loop (self : MCPAgentDecorator) (active_agents : built)
    (items : list (string * agent_data)) (workflows : built) : io built :=
  match items with
  | [] => io_ret workflows
  | (name, EvaluatorOptimizerData _ optimizer evaluator min_rating max_refinements) :: rest =>
      do! node := create_evaluator_optimizer self active_agents name optimizer evaluator
                    min_rating max_refinements in
      create_evaluator_optimizers_loop self active_agents rest (Dict.set workflows name node)
  | _ :: rest => create_evaluator_optimizers_loop self active_agents rest workflows
  end.

Definition create_evaluator_optimizers (self : MCPAgentDecorator) (active_agents : built)
    : io built :=
  create_evaluator_optimizers_loop self active_agents (Dict.items (agents self)) [].

(** The fan-out objects of one parallel agent: an already built parallel
    agent if there is one under the name, else the active agent. *)
Fixpoint lookup_fan_out (parallel_agents active_agents : built) (names : list string)
    : result (list RuntimeNode) :=
  match names with
  | [] => Ok []
  | n :: rest =>
      try! a :=
        if Dict.contains parallel_agents n then Dict.subscript parallel_agents n
        else Dict.subscript active_agents n in
      try! more := lookup_fan_out parallel_agents active_agents rest in
      Ok (a :: more)
  end.

(** The construction of one parallel agent in [_create_parallel_agents]. *)
Definition create_parallel_agent (self : MCPAgentDecorator)
    (active_agents parallel_agents : built) (agent_name : string) : io RuntimeNode :=
  do! agent_data := io_lift (Dict.subscript (agents self) agent_name) in
  match agent_data with
  | ParallelData config fan_in fan_out =>
      do! fan_out_agents := io_lift (lookup_fan_out parallel_agents active_agents fan_out) in
      do! fan_in_agent := io_lift (Dict.subscript active_agents fan_in) in
      do! llm_factory := get_model_factory self (cfg_model config) None in
      io_ret (ParallelNode (cfg_name config) (cfg_instruction config) fan_out_agents
                fan_in_agent llm_factory (cfg_default_request_params config))
  | _ => io_raise (KeyError "fan_out")
  end.

(** [for agent_name in ordered_agents: if agent_name not in parallel_agents: ...] *)
Fixpoint create_ordered (self : MCPAgentDecorator) (active_agents : built)
    (ordered_agents : list string) (parallel_agents : built) : io built :=
  match ordered_agents with
  | [] => io_ret parallel_agents
  | agent_name :: rest =>
      if Dict.contains parallel_agents agent_name then
        create_ordered self active_agents rest parallel_agents
      else
        do! node := create_parallel_agent self active_agents parallel_agents agent_name in
        create_ordered self active_agents rest (Dict.set parallel_agents agent_name node)
  end.

(** [str(e)] inside [f"Error creating parallel agent {name}: {str(e)}"] *)
Definition creating_message (name msg : string) : string :=
  "Error creating parallel agent " +:+ name +:+ ": " +:+ msg.

Variable hash_order : gset string -> list string.

(** [for name in parallel_names: if name not in visited: ...], with the one
    [visited] set shared by all roots and a new [path] set per root.  The
    recursion is given the budget [enough_fuel]. *)
Fixpoint create_parallel_loop (self : MCPAgentDecorator) (active_agents : built)
    (names : list string) (visited : gset string) (parallel_agents : built) : io built :=
  match names with
  | [] => io_ret parallel_agents
  | name :: rest =>
      if decide (name ∈ visited) then
        create_parallel_loop self active_agents rest visited parallel_agents
      else
        match get_parallel_dependencies hash_order (enough_fuel (agents self))
                (agents self) name (Walk visited ∅) with
        | None => io_raise RecursionError
        | Some (Raise (ValueError msg)) => io_raise (ValueError (creating_message name msg))
        | Some (Raise e) => io_raise e
        | Some (Ok (ordered_agents, w)) =>
            do! parallel_agents :=
              create_ordered self active_agents ordered_agents parallel_agents in
            create_parallel_loop self active_agents rest (DecoratorApp.visited w) parallel_agents
        end
  end.

(** [_create_parallel_agents(agent_app, active_agents)] *)
Definition create_parallel_agents (self : MCPAgentDecorator) (active_agents : built)
    : io built :=
  create_parallel_loop self active_agents (parallel_names (agents self)) ∅ [].

End Builders.

(** *** The order of construction *)

(** [for agent_name in ordered_agents: if agent_name not in parallel_agents]
    as far as the keys of [parallel_agents] go. *)
Fixpoint append_new (ordered_agents : list string) (order : list string) : list string :=
  match ordered_agents with
  | [] => order
  | agent_name :: rest =>
      if decide (agent_name ∈ order) then append_new rest order
      else append_new rest (order ++ [agent_name])
  end.

(** The names [_create_parallel_agents] sets out to construct, in order:
    its two loops with the construction itself left out.  This is the
    ordering alone, not the function: in [create_parallel_loop] the
    agents ordered from one root are constructed before the next root is
    ordered, so a construction that raises ends the function there.  The
    keys of the dictionary the function returns, when it returns, are
    this order ([create_parallel_agents_keys]). *)
Fixpoint build_order_loop (hash_order : gset string -> list string) (agents : registry)
    (names : list string) (visited : gset string) (order : list string)
    : result (list string) :=
  match names with
  | [] => Ok order
  | name :: rest =>
      if decide (name ∈ visited) then build_order_loop hash_order agents rest visited order
      else
        match get_parallel_dependencies hash_order (enough_fuel agents) agents name
                (Walk visited ∅) with
        | None => Raise RecursionError
        | Some (Raise (ValueError msg)) => Raise (ValueError (creating_message name msg))
        | Some (Raise e) => Raise e
        | Some (Ok (ordered_agents, w)) =>
            build_order_loop hash_order agents rest (DecoratorApp.visited w)
              (append_new ordered_agents order)
        end
  end.

Definition build_order (hash_order : gset string -> list string) (agents : registry)
    : result (list string) :=
  build_order_loop hash_order agents (parallel_names agents) ∅ [].

(** Iterating a [set] yields each of its elements once. *)
Definition enumerates (hash_order : gset string -> list string) : Prop :=
  forall s, hash_order s ≡ₚ elements s.

(** *** The dependency graph the registry declares *)

(** [fan_out_of agents n]: the ["fan_out"] list of [n] when [n] is a
    registered parallel agent; no other entry declares fan-out edges. *)
Definition fan_out_of (agents : registry) (n : string) : list string :=
  match Dict.get agents n with
  | Some (ParallelData _ _ fan_out) => fan_out
  | _ => []
  end.

Definition is_parallel (agents : registry) (n : string) : Prop :=
  exists c fan_in fan_out, Dict.get agents n = Some (ParallelData c fan_in fan_out).

(** The edge (from, to): [to] is listed in the fan-out of [from]. *)
Definition fan_out_edge (agents : registry) (from to : string) : Prop :=
  to ∈ fan_out_of agents from.

(** [chain R a l b]: a -> l_1 -> ... -> l_k -> b along [R]. *)
Fixpoint chain (R : relation string) (a : string) (l : list string) (b : string) : Prop :=
  match l with
  | [] => R a b
  | c :: l' => R a c /\ chain R c l' b
  end.

(** No registered node transitively depends on itself. *)
Definition acyclic (agents : registry) : Prop :=
  forall n, ~ tc (fan_out_edge agents) n n.

(** [before l a b]: [a] occurs in [l] at a strictly smaller position than
    some occurrence of [b]. *)
Definition before (l : list string) (a b : string) : Prop :=
  exists i j, l !! i = Some a /\ l !! j = Some b /\ i < j.

(** Every parallel fan-out target of an emitted name was emitted earlier
    or is in [V] (what was visited before the list was produced). *)
Fixpoint deps_first (agents : registry) (V : gset string) (l : list string) : Prop :=
  match l with
  | [] => True
  | a :: l' =>
      (forall b, fan_out_edge agents a b -> is_parallel agents b -> b ∈ V)
      /\ deps_first agents ({[a]} ∪ V) l'
  end.

(** *** What the traversal guarantees *)

(** The names on the recursion stack, oldest first, lead to [next]. *)
Definition stack_ok (agents : registry) (stk : list string) (next : string) : Prop :=
  match stk with
  | [] => True
  | s0 :: rest => chain (fan_out_edge agents) s0 rest next
  end.

(** What a normal return of the traversal guarantees. *)
Definition returned (agents : registry) (w : walk) (deps : list string) (w' : walk) : Prop :=
  path w' = path w /\
  visited w' = list_to_set deps ∪ visited w /\
  NoDup deps /\
  (forall d, d ∈ deps -> (d ∉ visited w) /\ (d ∉ path w) /\ is_parallel agents d) /\
  deps_first agents (visited w) deps.

(** What a raised exception carries: the message of a cycle all of whose
    nodes are in the reported path set. *)
Definition raised (hash_order : gset string -> list string) (agents : registry) (e : exn)
    : Prop :=
  exists p n cyc,
    e = ValueError (circular_message hash_order p n) /\
    chain (fan_out_edge agents) n cyc n /\
    forall x, x ∈ n :: cyc -> x ∈ p.

(** What [_create_parallel_agents] raises for a cycle: the message of
    the traversal behind the name of the root that was being ordered; the
    reported path set holds every node of a cycle, and the message
    mentions each of them. *)
Definition reports_cycle (hash_order : gset string -> list string) (agents : registry)
    (e : exn) : Prop :=
  exists root p n cyc,
    e = ValueError ("Error creating parallel agent " +:+ root +:+ ": "
                    +:+ circular_message hash_order p n) /\
    chain (fan_out_edge agents) n cyc n /\
    forall x, x ∈ n :: cyc ->
      x ∈ p /\ mentions (creating_message root (circular_message hash_order p n)) x.

(** The invariant of the loop over the roots: what is visited is what was
    emitted, without repetition and dependencies first. *)
Definition order_inv (agents : registry) (v : gset string) (order : list string) : Prop :=
  v = list_to_set order /\ NoDup order /\ deps_first agents ∅ order.

(** *** What the builders store *)

Section Wiring.
Variable Factory : Type.
Variable parse_model_string : option string -> result string.
Variable create_factory : option string -> RequestParams -> result Factory.
Variable RequestParams_defaults : RequestParams.
Variable repr_request_params : option RequestParams -> string.

(** The factory [_get_model_factory] creates: for the resolved model, with
    request parameters that carry it. *)
Definition factory_for (self : MCPAgentDecorator) (model : option string)
    (request_params : option RequestParams) : result Factory :=
  create_factory (resolved_model_spec self model)
    (with_model (default RequestParams_defaults request_params)
       (resolved_model_spec self model)).

(** The entry of [name] in [parallel_agents] is the [ParallelLLM] of its
    registry entry: the fan-in object is the active agent of that name, and
    each fan-out object is the entry of [parallel_agents] itself when the
    target is a registered parallel agent and the active agent of that
    name otherwise. *)
Definition parallel_wired (self : MCPAgentDecorator)
    (active_agents parallel_agents : Dict.t (RuntimeNode Factory)) (name : string) : Prop :=
  exists config fan_in fan_out fan_out_agents fan_in_agent llm_factory,
    Dict.get (agents self) name = Some (ParallelData config fan_in fan_out) /\
    Dict.get parallel_agents name
      = Some (ParallelNode Factory (cfg_name config) (cfg_instruction config) fan_out_agents
                fan_in_agent llm_factory (cfg_default_request_params config)) /\
    Dict.get active_agents fan_in = Some fan_in_agent /\
    factory_for self (cfg_model config) None = Ok llm_factory /\
    Forall2 (fun target node =>
               (is_parallel (agents self) target ->
                Dict.get parallel_agents target = Some node) /\
               (~ is_parallel (agents self) target ->
                Dict.get active_agents target = Some node))
      fan_out fan_out_agents.

(** The invariant of [parallel_agents] while it is filled: its keys are
    registered parallel agents, the parallel fan-out targets of a key are
    keys, and every entry is wired. *)
Definition parallel_inv (self : MCPAgentDecorator)
    (active_agents parallel_agents : Dict.t (RuntimeNode Factory)) : Prop :=
  (forall n, n ∈ Dict.keys parallel_agents -> is_parallel (agents self) n) /\
  (forall n target, n ∈ Dict.keys parallel_agents -> fan_out_edge (agents self) n target ->
     is_parallel (agents self) target -> target ∈ Dict.keys parallel_agents) /\
  (forall n, n ∈ Dict.keys parallel_agents ->
     parallel_wired self active_agents parallel_agents n).

(** What building the parallel agent of one registry entry needs: its
    fan-in agent and its fan-out targets that are not parallel agents are
    active, and the factory for its model can be created. *)
Definition parallel_buildable (self : MCPAgentDecorator)
    (active_agents : Dict.t (RuntimeNode Factory)) : Prop :=
  forall name config fan_in fan_out,
    Dict.get (agents self) name = Some (ParallelData config fan_in fan_out) ->
    is_Some (Dict.get active_agents fan_in) /\
    (forall target, target ∈ fan_out ->
       is_parallel (agents self) target \/ is_Some (Dict.get active_agents target)) /\
    is_Some (returned_value (factory_for self (cfg_model config) None)).

(** A registered parallel agent that cannot be built, and the exception
    that says so: a fan-out target that is neither a parallel agent nor
    active, or a fan-in agent that is not active, is reported by the
    [KeyError] of its name; a factory that cannot be created by what
    creating it raised. *)
Definition parallel_unbuildable (self : MCPAgentDecorator)
    (active_agents : Dict.t (RuntimeNode Factory)) (e : exn) : Prop :=
  exists name config fan_in fan_out,
    Dict.get (agents self) name = Some (ParallelData config fan_in fan_out) /\
    ((exists target, e = KeyError target /\ target ∈ fan_out /\
        ~ is_parallel (agents self) target /\ Dict.get active_agents target = None) \/
     (e = KeyError fan_in /\ Dict.get active_agents fan_in = None) \/
     factory_for self (cfg_model config) None = Raise e).

(** The request parameters an orchestrator is given: those of its
    configuration (or the defaults), with the history flag of the
    configuration and the model name parsed from the configuration's
    model. *)
Definition orchestrator_params (config : AgentConfig) (resolved_model : string)
    : RequestParams :=
  {| rp_model := Some resolved_model;
     rp_use_history := cfg_use_history config;
     rp_maxTokens :=
       rp_maxTokens (default RequestParams_defaults (cfg_default_request_params config)) |}.

(** The entry of [name] in [orchestrators] is the [Orchestrator] of its
    registry entry, over the active agents its children name, in the
    declared order. *)
Definition orchestrator_wired (self : MCPAgentDecorator)
    (active_agents orchestrators : Dict.t (RuntimeNode Factory)) (name : string) : Prop :=
  exists config child_agents resolved_model children llm_factory,
    Dict.get (agents self) name = Some (OrchestratorData config child_agents) /\
    parse_model_string (cfg_model config) = Ok resolved_model /\
    factory_for self (cfg_model config) (Some (orchestrator_params config resolved_model))
      = Ok llm_factory /\
    Forall2 (fun child node => Dict.get active_agents child = Some node)
      child_agents children /\
    Dict.get orchestrators name
      = Some (OrchestratorNode Factory (cfg_name config) (cfg_instruction config) children
                llm_factory (orchestrator_params config resolved_model) "full").

(** The model an evaluator-optimizer takes from its optimizer: the model
    of its configuration when it is an [Agent], none otherwise. *)
Definition optimizer_model (optimizer : RuntimeNode Factory) : option string :=
  match optimizer with
  | AgentNode _ config => cfg_model config
  | _ => None
  end.

(** The entry of [name] in [workflows] is the [EvaluatorOptimizerLLM] of
    its registry entry, over the two active agents it names. *)
Definition evaluator_optimizer_wired (self : MCPAgentDecorator)
    (active_agents workflows : Dict.t (RuntimeNode Factory)) (name : string) : Prop :=
  exists config optimizer evaluator min_rating max_refinements opt ev rating llm_factory,
    Dict.get (agents self) name
      = Some (EvaluatorOptimizerData config optimizer evaluator min_rating max_refinements) /\
    Dict.get active_agents optimizer = Some opt /\
    Dict.get active_agents evaluator = Some ev /\
    QualityRating_getitem min_rating = Ok rating /\
    factory_for self (optimizer_model opt) None = Ok llm_factory /\
    Dict.get workflows name
      = Some (EvaluatorOptimizerNode Factory opt ev rating max_refinements llm_factory).

End Wiring.

(** The names registered with a given type, in registration order. *)
Definition names_of_type (ty : AgentType) (agents : registry) : list string :=
  (filter (fun kv => data_type kv.2 = ty) (Dict.items agents)).*1.

(** *** The end of [run]'s setup and the wrapper it yields *)

(** [d.update(e)] *)
Definition update {V} (d e : Dict.t V) : Dict.t V :=
  fold_left (fun d kv => Dict.set d kv.1 kv.2) e d.

Section Run.
Variable Factory : Type.
Variable parse_model_string : option string -> result string.
Variable create_factory : option string -> RequestParams -> result Factory.
Variable RequestParams_defaults : RequestParams.
Variable repr_request_params : option RequestParams -> string.
Variable hash_order : gset string -> list string.

(** The setup of [run] from the point where the basic agents are active:
    the three builders in turn, and their results merged into
    [active_agents]. *)
Definition create_workflows (self : MCPAgentDecorator)
    (active_agents : Dict.t (RuntimeNode Factory)) : io (Dict.t (RuntimeNode Factory)) :=
  print (nl +:+ "Creating orchestrators:") ;;
  do! orchestrators :=
    create_orchestrators Factory parse_model_string create_factory RequestParams_defaults
      repr_request_params self active_agents in
  print (nl +:+ "Creating parallel workflows:") ;;
  do! parallel_agents :=
    create_parallel_agents Factory create_factory RequestParams_defaults
      repr_request_params hash_order self active_agents in
  print (nl +:+ "Creating evaluator-optimizer workflows:") ;;
  do! evaluator_optimizers :=
    create_evaluator_optimizers Factory create_factory RequestParams_defaults
      repr_request_params self active_agents in
  io_ret (update (update (update active_agents orchestrators) parallel_agents)
            evaluator_optimizers).

(** [class AgentAppWrapper]: the fields its methods read. *)
Record AgentAppWrapper := {
  wrapper_agents : Dict.t (RuntimeNode Factory);
  _default_agent : option string;
}.

(** [AgentAppWrapper(app, agents)] *)
Definition AgentAppWrapper_init (agents : Dict.t (RuntimeNode Factory)) : AgentAppWrapper :=
  {| wrapper_agents := agents; _default_agent := head (Dict.keys agents) |}.

(** From outside this file: the language model attached to a built
    object ([agent._llm], when the attribute exists and is not [None]),
    what [generate_str] answers and does to the world, what [str.upper]
    gives, and the world the models live in. *)
Variable LLM : Type.
Variable World : Type.
Variable attached_llm : RuntimeNode Factory -> option LLM.
Variable generate_str : LLM -> string -> World -> result string * World.
Variable upper : string -> string.

(** [await self.send(agent_name, message)] *)
Definition send (self : AgentAppWrapper) (agent_name message : string) (w : World)
    : result string * World :=
  if negb (Dict.contains (wrapper_agents self) agent_name) then
    (Raise (ValueError ("Agent " +:+ agent_name +:+ " not found")), w)
  else
    match Dict.subscript (wrapper_agents self) agent_name with
    | Raise e => (Raise e, w)
    | Ok agent =>
        match attached_llm agent with
        | None => (Raise (RuntimeError ("Agent " +:+ agent_name +:+ " has no LLM attached")), w)
        | Some llm => generate_str llm message w
        end
    end.

(** [agent_name or self._default_agent] *)
Definition target_agent (self : AgentAppWrapper) (agent_name : option string)
    : option string :=
  if truthy agent_name then agent_name else _default_agent self.

(** [await self(message, agent_name)] *)
Definition call (self : AgentAppWrapper) (message : string) (agent_name : option string)
    (w : World) : result string * World :=
  if negb (truthy (target_agent self agent_name)) then
    (Raise (ValueError "No agents available"), w)
  else send self (default "" (target_agent self agent_name)) message w.

(** What one round of [prompt] prints before it asks. *)
Definition banner (default : string) : list string :=
  if decide (default = "STOP") then ["Press <ENTER> to finish."]
  else if decide (default <> "") then
    ["Enter a prompt, or [red]STOP[/red] to finish.";
     "Press <ENTER> to use the default prompt:" +:+ nl +:+ "[cyan]" +:+ default +:+ "[/cyan]"]
  else ["Enter a prompt, or [red]STOP[/red] to finish"].

(** The loop of [prompt] over the answers [Prompt.ask] gives, in order.
    The result is [None] while the loop is still asking when the answers
    end. *)
Fixpoint prompt_loop (self : AgentAppWrapper) (target default : string)
    (answers : list string) (w : World) (console : list string)
    : option (result unit) * World * list string :=
  match answers with
  | [] => (None, w, console ++ banner default)
  | user_input :: rest =>
      let console := console ++ banner default in
      if decide (upper user_input = "STOP") then (Some (Ok tt), w, console)
      else
        match send self target user_input w with
        | (Raise e, w') => (Some (Raise e), w', console)
        | (Ok _, w') => prompt_loop self target default rest w' console
        end
  end.

(** [await self.prompt(agent_name, default)] *)
Definition prompt (self : AgentAppWrapper) (agent_name : option string) (default : string)
    (answers : list string) (w : World) : option (result unit) * World * list string :=
  if negb (truthy (target_agent self agent_name)) then
    (Some (Raise (ValueError "No agents available")), w, [])
  else prompt_loop self (stdpp.option.default "" (target_agent self agent_name)) default
         answers w [].

End Run.

(** The lines [_get_model_factory] prints. *)
Definition printed_lines (repr_request_params : option RequestParams -> string)
    (self : MCPAgentDecorator) (model : option string)
    (request_params : option RequestParams) : list string :=
  [nl +:+ "_get_model_factory called with model=" +:+ fmt model
     +:+ ", request_params=" +:+ repr_request_params request_params;
   "Starting with config default: " +:+ fmt (Config.default_model (context_config self))]
  ++ (if truthy (args_model self)
      then ["Applied command line override: " +:+ fmt (args_model self)] else [])
  ++ (if truthy model then ["Applied decorator model: " +:+ fmt model] else [])
  ++ ["Creating factory with final model_spec: " +:+ fmt (resolved_model_spec self model)].

(** *** Registries used as scenarios *)

(** The traversal state of a first call: two empty sets. *)
Definition fresh : walk := Walk ∅ ∅.

(** An agent configuration as the [parallel] decorator builds it when only
    the name is given. *)
Definition plain_config (name : string) : AgentConfig :=
  {| cfg_name := name; cfg_instruction := ""; cfg_servers := []; cfg_model := None;
     cfg_use_history := true; cfg_default_request_params := None |}.

(** The scenario registry: [X] fans out to [Y] and [Y] to [X]. *)
Definition xy_registry (cx cy : AgentConfig) (fx fy : string) : registry :=
  [("X", ParallelData cx fx ["Y"]); ("Y", ParallelData cy fy ["X"])].

(** A registry in which parallel agent [P] fans out to basic agent [a]. *)
Definition basic_fan_out_registry : registry :=
  [("a", BasicData (plain_config "a"));
   ("P", ParallelData (plain_config "P") "a" ["a"])].

(** Nested parallel agents over a basic agent [a]: [P] fans out to [Q],
    [a] and [R]; [Q] to [R] and the undeclared [zz]; [R] to [a].  [P] is
    declared first. *)
Definition nested_registry : registry :=
  [("a", BasicData (plain_config "a"));
   ("P", ParallelData (plain_config "P") "a" ["Q"; "a"; "R"]);
   ("Q", ParallelData (plain_config "Q") "a" ["R"; "zz"]);
   ("R", ParallelData (plain_config "R") "a" ["a"])].

(** The scenario registry behind a parallel agent [P] that is declared
    first and whose fan-in agent [missing] was never declared. *)
Definition blocked_cycle_registry : registry :=
  [("P", ParallelData (plain_config "P") "missing" []);
   ("X", ParallelData (plain_config "X") "a" ["Y"]);
   ("Y", ParallelData (plain_config "Y") "a" ["X"])].

(** [R] fans out to [A], [A] to [B] and [B] back to [A]. *)
Definition tail_cycle_registry : registry :=
  [("R", ParallelData (plain_config "R") "a" ["A"]);
   ("A", ParallelData (plain_config "A") "a" ["B"]);
   ("B", ParallelData (plain_config "B") "a" ["A"])].

(** A registry of one parallel agent [P] whose fan-out names [a], which was
    never declared. *)
Definition lone_parallel_registry : registry :=
  [("P", ParallelData (plain_config "P") "a" ["a"])].

(** An orchestrator with a model of its own, as the decorator stores it. *)
Definition orchestrator_config : AgentConfig :=
  {| cfg_name := "orch"; cfg_instruction := "plan the work"; cfg_servers := [];
     cfg_model := Some "sonnet"; cfg_use_history := true;
     cfg_default_request_params :=
       Some {| rp_model := None; rp_use_history := true; rp_maxTokens := 2048 |} |}.

(** A basic agent [worker], an orchestrator whose second child [missing]
    was never declared, and an evaluator-optimizer whose evaluator is the
    same undeclared name. *)
Definition missing_child_registry : registry :=
  [("worker", BasicData (plain_config "worker"));
   ("orch", OrchestratorData orchestrator_config ["worker"; "missing"]);
   ("refine", EvaluatorOptimizerData (plain_config "refine") "worker" "missing" "GOOD" 3)].

(** Two basic agents, a parallel agent [P] over the parallel agent [Q] and
    the basic agent [b], an orchestrator over both basic agents and an
    evaluator-optimizer pairing them. *)
Definition team_registry : registry :=
  [("a", BasicData (plain_config "a"));
   ("b", BasicData (plain_config "b"));
   ("P", ParallelData (plain_config "P") "a" ["Q"; "b"]);
   ("Q", ParallelData (plain_config "Q") "a" ["b"]);
   ("orch", OrchestratorData orchestrator_config ["b"; "a"]);
   ("refine", EvaluatorOptimizerData (plain_config "refine") "a" "b" "GOOD" 3)].

(** The decorator object of [team_registry], with no command-line model. *)
Definition team : MCPAgentDecorator :=
  {| args_model := None;
     context_config := {| Config.execution_engine := "asyncio";
                          Config.default_model := Some "haiku";
                          Config.other_settings := [] |};
     agents := team_registry |}.

(** The basic agents of [team_registry], built. *)
Definition team_active {F : Type} : Dict.t (RuntimeNode F) :=
  [("a", AgentNode F (plain_config "a")); ("b", AgentNode F (plain_config "b"))].

(** The decorator object of the scenario with [X] and [Y], both fanning
    in to the basic agent [a], and the one of [blocked_cycle_registry]. *)
Definition cyclic_team : MCPAgentDecorator :=
  {| args_model := None; context_config := context_config team;
     agents := xy_registry (plain_config "X") (plain_config "Y") "a" "a" |}.

Definition blocked_team : MCPAgentDecorator :=
  {| args_model := None; context_config := context_config team;
     agents := blocked_cycle_registry |}.

(** Another decorator object with the command-line model and the default
    model of [team], other settings, and a registry that holds the
    orchestrator [orch] of [team_registry] first, among other entries. *)
Definition regrouped_team : MCPAgentDecorator :=
  {| args_model := None;
     context_config := {| Config.execution_engine := "temporal";
                          Config.default_model := Some "haiku";
                          Config.other_settings := [("logger", Config.YNull)] |};
     agents := [("orch", OrchestratorData orchestrator_config ["b"; "a"]);
                ("b", BasicData (plain_config "b"));
                ("lead", OrchestratorData (plain_config "lead") ["a"]);
                ("a", BasicData (plain_config "a"))] |}.

(** Request parameters standing for the defaults of [RequestParams]. *)
Definition some_defaults : RequestParams :=
  {| rp_model := None; rp_use_history := true; rp_maxTokens := 2048 |}.

(** What [run] has built when the composite builders start: the basic
    agents. *)
Definition built_basic {F : Type} : Dict.t (RuntimeNode F) :=
  [("worker", AgentNode F (plain_config "worker"))].

End DecoratorApp.

(** ** mcp_agent/app.py *)

Module App.

(** Values stored in execution metadata: the keyword arguments of
    [workflow_task] are arbitrary; a [timedelta] is its length in
    microseconds. *)
Inductive pyval :=
| PNone
| PBool (b : bool)
| PInt (z : Z)
| PStr (s : string)
| PTimedelta (microseconds : Z)
| PDict (d : list (string * pyval)).

(** [timedelta(minutes=10)] *)
Definition ten_minutes : Z := 600000000.

(** A callable object, as far as [workflow_task] reads and writes it: its
    [__module__], [__qualname__] and [__name__] where it has them (a
    [functools.partial] object has no name of either kind), whether
    [asyncio.iscoroutinefunction] holds of it, whether attributes can be
    set on it (they cannot on a bound method), and the attributes set on
    it so far. *)
Record function := {
  fn_module : option string;
  fn_qualname : option string;
  fn_name : option string;
  fn_is_coroutine : bool;
  fn_settable : bool;
  fn_attrs : Dict.t pyval;
}.

(** [func.<attribute>] for one of the three names: [AttributeError] when
    the object has no such attribute. *)
Definition getattr_str (attribute : string) (value : option string) : result string :=
  match value with
  | Some s => Ok s
  | None => Raise (AttributeError attribute)
  end.

(** [setattr(func, key, value)] *)
Definition setattr (f : function) (key : string) (value : pyval) : result function :=
  if fn_settable f then
    Ok {| fn_module := fn_module f; fn_qualname := fn_qualname f; fn_name := fn_name f;
          fn_is_coroutine := fn_is_coroutine f; fn_settable := fn_settable f;
          fn_attrs := Dict.set (fn_attrs f) key value |}
  else Raise (AttributeError key).

(** Function objects are shared: the registry and the caller hold
    references ([funref]) into one store. *)
Abbreviation funref := nat.
Abbreviation store := (funref -> function).

(** The entries of [context.task_registry]: name to (function, metadata). *)
Abbreviation activities := (Dict.t (funref * Dict.t pyval)).

(** Modelled from the spec: [ActivityRegistry.register], whose class is in
    [mcp_agent/executor/task_registry.py], not among the files read here.
    The specification has re-registration under the same identity
    overwrite the earlier entry. *)
Definition register_overwrite (reg : activities) (name : string) (func : funref)
    (metadata : Dict.t pyval) : result activities :=
  Ok (Dict.set reg name (func, metadata)).

(** [Context]: the settings it was created from and the task registry. *)
Record Context := {
  ctx_config : Config.Settings;
  task_registry : activities;
}.

(** What the application did to the world outside it, in order: calls of
    [initialize_context] and [cleanup_context], and log records. *)
Inductive event :=
| InitializeContext
| CleanupContext
| LogInfo (msg : string)
| LogDebug (msg : string).

#[global] Instance event_eq_dec : EqDecision event.
Proof. solve_decision. Defined.

(** [MCPApp]: the fields the lifecycle reads and writes, with the function
    store and the trace of events. *)
Record MCPApp := {
  app_name : string;
  workflows : Dict.t string;
  context : option Context;
  initialized : bool;
  functions : store;
  trace : list event;
}.

Definition set_lifecycle (app : MCPApp) (c : option Context) (i : bool) (evs : list event)
    : MCPApp :=
  {| app_name := app_name app; workflows := workflows app; context := c;
     initialized := i; functions := functions app; trace := trace app ++ evs |}.

(** [MCPApp.context], the property. *)
Definition get_context (app : MCPApp) : result Context :=
  match context app with
  | Some c => Ok c
  | None =>
      Raise (RuntimeError
        "MCPApp not initialized, please call initialize() first, or use async with app.run().")
  end.

(** [await self.initialize()].  [created] is what the call of
    [initialize_context(self._config_or_path)] does this time. *)
Definition initialize (created : result Context) (app : MCPApp) : result unit * MCPApp :=
  if initialized app then (Ok tt, app)
  else
    match created with
    | Raise e => (Raise e, set_lifecycle app (context app) (initialized app) [InitializeContext])
    | Ok c =>
        (Ok tt, set_lifecycle app (Some c) true [InitializeContext; LogInfo "MCPAgent initialized"])
    end.

(** [await self.cleanup()].  [torn_down] is what the call of
    [cleanup_context()] does this time. *)
Definition cleanup (torn_down : result unit) (app : MCPApp) : result unit * MCPApp :=
  if negb (initialized app) then (Ok tt, app)
  else
    match torn_down with
    | Ok _ =>
        (Ok tt, set_lifecycle app None false [LogInfo "MCPAgent cleanup"; CleanupContext])
    | Raise CancelledError =>
        (Ok tt, set_lifecycle app None false
                  [LogInfo "MCPAgent cleanup"; CleanupContext;
                   LogDebug "Cleanup cancelled error during shutdown"])
    | Raise e =>
        (Raise e, set_lifecycle app (context app) (initialized app)
                    [LogInfo "MCPAgent cleanup"; CleanupContext])
    end.

(** How a block ends: normally, or by an exception (cancellation is the
    exception [CancelledError]). *)
Definition exit := result unit.

(** [async with app.run() as running_app: body]:
    [initialize]; then [try: yield self / finally: cleanup].  An exception
    raised by the [finally] block replaces the one in flight. *)
Definition run (created : result Context) (torn_down : result unit)
    (body : MCPApp -> exit * MCPApp) (app : MCPApp) : exit * MCPApp :=
  match initialize created app with
  | (Raise e, app1) => (Raise e, app1)
  | (Ok _, app1) =>
      let '(ended, app2) := body app1 in
      match cleanup torn_down app2 with
      | (Raise e, app3) => (Raise e, app3)
      | (Ok _, app3) => (ended, app3)
      end
  end.

(** The [finally] block of [MCPAgentDecorator.run]:
    [await agent.__aexit__(None, None, None)] for each basic agent in turn;
    [agent_exit] is what that call does for the agent of a given name.
    The first exception ends the loop. *)
Fixpoint exit_agents (agent_exit : string -> result unit) (basic_agents : list string)
    : result unit :=
  match basic_agents with
  | [] => Ok tt
  | name :: rest =>
      match agent_exit name with
      | Ok _ => exit_agents agent_exit rest
      | Raise e => Raise e
      end
  end.

(** [async with fast.run() as agent: body], the scope of
    [MCPAgentDecorator.run]: inside the application's scope the agents are
    built ([setup] gives the names of the basic ones, or the exception the
    builders raised), then [try: yield wrapper / finally: exit the agents]. *)
Definition decorator_run (created : result Context) (torn_down : result unit)
    (setup : MCPApp -> result (list string) * MCPApp)
    (agent_exit : string -> result unit)
    (body : MCPApp -> exit * MCPApp) (app : MCPApp) : exit * MCPApp :=
  run created torn_down
    (fun app1 =>
       match setup app1 with
       | (Raise e, app2) => (Raise e, app2)
       | (Ok basic_agents, app2) =>
           let '(ended, app3) := body app2 in
           match exit_agents agent_exit basic_agents with
           | Raise e => (Raise e, app3)
           | Ok _ => (ended, app3)
           end
       end)
    app.

(** The number of [cleanup_context] calls in a trace. *)
Definition teardowns (evs : list event) : nat :=
  length (filter (fun ev => ev = CleanupContext) evs).

(** Truth value of an optional [timedelta]. *)
Definition timedelta_truthy (t : option Z) : bool :=
  match t with
  | Some us => bool_decide (us <> 0%Z)
  | None => false
  end.

(** [{**base, **kwargs}]: later keys replace earlier ones in place. *)
Definition dict_update (base kwargs : Dict.t pyval) : Dict.t pyval :=
  fold_left (fun d kv => Dict.set d kv.1 kv.2) kwargs base.

(** The name a task is registered under:
    [name or f"{func.__module__}.{func.__qualname__}"]; the two attributes
    are read only when [name] is null or empty. *)
Definition task_name (name : option string) (f : function) : result string :=
  if truthy name then Ok (default "" name)
  else
    try! module := getattr_str "__module__" (fn_module f) in
    try! qualname := getattr_str "__qualname__" (fn_qualname f) in
    Ok (module +:+ "." +:+ qualname).

(** The application with another task registry and another object under
    one function reference. *)
Definition with_task (app : MCPApp) (ctx : Context) (registry : activities)
    (func : funref) (f : function) : MCPApp :=
  {| app_name := app_name app; workflows := workflows app;
     context := Some {| ctx_config := ctx_config ctx; task_registry := registry |};
     initialized := initialized app;
     functions := <[func := f]> (functions app);
     trace := trace app |}.

Section Tasks.

(** [activity_registry.register(name, func, metadata)] of the task
    registry, whose class is outside the files read here: the registry
    afterwards, or the exception it raises. *)
Variable register : activities -> string -> funref -> Dict.t pyval -> result activities.

(** [workflow_task(name, schedule_to_close_timeout, retry_policy,
    kwargs)(func)]: the value returned and the application afterwards.
    The keyword arguments cannot be named [name],
    [schedule_to_close_timeout] or [retry_policy]. *)
Definition workflow_task (name : option string) (schedule_to_close_timeout : option Z)
    (retry_policy : option (Dict.t pyval)) (kwargs : Dict.t pyval)
    (func : funref) (app : MCPApp) : result funref * MCPApp :=
  let f := functions app func in
  if negb (fn_is_coroutine f) then
    match getattr_str "__name__" (fn_name f) with
    | Ok func_name => (Raise (TypeError ("Function " +:+ func_name +:+ " must be async.")), app)
    | Raise e => (Raise e, app)
    end
  else
    match task_name name f with
    | Raise e => (Raise e, app)
    | Ok actual_name =>
        let timeout :=
          if timedelta_truthy schedule_to_close_timeout
          then default 0%Z schedule_to_close_timeout else ten_minutes in
        let metadata :=
          dict_update
            [("activity_name", PStr actual_name);
             ("schedule_to_close_timeout", PTimedelta timeout);
             ("retry_policy", PDict (default [] retry_policy))]
            kwargs in
        match get_context app with
        | Raise e => (Raise e, app)
        | Ok ctx =>
            match register (task_registry ctx) actual_name func metadata with
            | Raise e => (Raise e, app)
            | Ok registry =>
                match setattr f "is_workflow_task" (PBool true) with
                | Raise e => (Raise e, with_task app ctx registry func f)
                | Ok f1 =>
                    match setattr f1 "execution_metadata" (PDict metadata) with
                    | Raise e => (Raise e, with_task app ctx registry func f1)
                    | Ok f2 => (Ok func, with_task app ctx registry func f2)
                    end
                end
            end
        end
    end.

End Tasks.



(** The three entries [workflow_task] computes before the keyword
    arguments are merged in. *)
Definition computed_keys : list string :=
  ["activity_name"; "schedule_to_close_timeout"; "retry_policy"].

(** A call of one of the two lifecycle methods, with what the context
    module does when called. *)
Inductive lifecycle_call :=
| CallInitialize (created : result Context)
| CallCleanup (torn_down : result unit).

Definition lifecycle_step (app : MCPApp) (call : lifecycle_call) : MCPApp :=
  match call with
  | CallInitialize created => (initialize created app).2
  | CallCleanup torn_down => (cleanup torn_down app).2
  end.

(** A sequence of lifecycle calls on one application object. *)
Definition lifecycle (calls : list lifecycle_call) (app : MCPApp) : MCPApp :=
  fold_left lifecycle_step calls app.

(** The teardown of a call returns or is cancelled. *)
Definition tears_down_cleanly (call : lifecycle_call) : Prop :=
  match call with
  | CallInitialize _ => True
  | CallCleanup torn_down => torn_down = Ok tt \/ torn_down = Raise CancelledError
  end.

(** The number of contexts created, as the trace records it. *)
Definition initializations (evs : list event) : nat :=
  length (filter (fun ev => ev = LogInfo "MCPAgent initialized") evs).

(** [1] for an initialized application, [0] otherwise. *)
Definition live (app : MCPApp) : nat := if initialized app then 1 else 0.

(** A block of code that leaves the lifecycle of the application alone. *)
Definition keeps_lifecycle (block : MCPApp -> exit * MCPApp) : Prop :=
  forall a, initialized (block a).2 = initialized a /\ context (block a).2 = context a /\
            teardowns (trace (block a).2) = teardowns (trace a).

(** [first; second] inside a scope: an exception of the first block skips
    the second. *)
Definition then_block (first second : MCPApp -> exit * MCPApp) (app : MCPApp)
    : exit * MCPApp :=
  match first app with
  | (Raise e, app1) => (Raise e, app1)
  | (Ok _, app1) => second app1
  end.

(** *** Applications used as scenarios *)

(** An async function defined at the top of a module. *)
Definition async_function (module name : string) : function :=
  {| fn_module := Some module; fn_qualname := Some name; fn_name := Some name;
     fn_is_coroutine := true; fn_settable := true; fn_attrs := [] |}.

(** An application object before its first scope. *)
Definition new_app : MCPApp :=
  {| app_name := "mcp_application"; workflows := []; context := None; initialized := false;
     functions := fun _ => async_function "__main__" "main";
     trace := [] |}.

Definition context_of (model : string) : Context :=
  {| ctx_config := {| Config.execution_engine := "asyncio";
                      Config.default_model := Some model;
                      Config.other_settings := [] |};
     task_registry := [] |}.

(** A body that fails with [ValueError]. *)
Definition failing_body (app : MCPApp) : exit * MCPApp :=
  (Raise (ValueError "body failed"), app).

(** A body that registers a workflow and then fails. *)
Definition registering_body (app : MCPApp) : exit * MCPApp :=
  (Raise (ValueError "body failed"),
   {| app_name := app_name app; workflows := Dict.set (workflows app) "MyWorkflow" "MyWorkflow";
      context := context app; initialized := initialized app; functions := functions app;
      trace := trace app |}).

(** An application inside a scope, holding under reference 0 the async
    function [tasks.fetch]; under 1 a plain function of the same name;
    under 2 a [functools.partial] object around a plain function, which
    has neither [__name__] nor [__qualname__]; under 3 a bound async
    method, on which no attribute can be set; and under every other
    reference a [functools.partial] object around an async function. *)
Definition running_app : MCPApp :=
  {| app_name := "mcp_application"; workflows := [];
     context := Some {| ctx_config := {| Config.execution_engine := "asyncio";
                                         Config.default_model := Some "haiku";
                                         Config.other_settings := [] |};
                        task_registry := [] |};
     initialized := true;
     functions := fun ref =>
       match ref with
       | 0 => async_function "tasks" "fetch"
       | 1 => {| fn_module := Some "tasks"; fn_qualname := Some "fetch";
                 fn_name := Some "fetch"; fn_is_coroutine := false; fn_settable := true;
                 fn_attrs := [] |}
       | 2 => {| fn_module := Some "functools"; fn_qualname := None; fn_name := None;
                 fn_is_coroutine := false; fn_settable := true; fn_attrs := [] |}
       | 3 => {| fn_module := Some "tasks"; fn_qualname := Some "Client.fetch";
                 fn_name := Some "fetch"; fn_is_coroutine := true; fn_settable := false;
                 fn_attrs := [] |}
       | _ => {| fn_module := Some "functools"; fn_qualname := None; fn_name := None;
                 fn_is_coroutine := true; fn_settable := true; fn_attrs := [] |}
       end;
     trace := [InitializeContext; LogInfo "MCPAgent initialized"] |}.

(** A failed start, a start, a second start, two cleanups of which the
    first is cancelled, and a restart. *)
Definition restarts : list lifecycle_call :=
  [CallInitialize (Raise (ValueError "no config"));
   CallInitialize (Ok (context_of "haiku"));
   CallInitialize (Ok (context_of "sonnet"));
   CallCleanup (Raise CancelledError);
   CallCleanup (Ok tt);
   CallInitialize (Ok (context_of "opus"))].

(** A body that returns and leaves the application as it is. *)
Definition idle_body (app : MCPApp) : exit * MCPApp := (Ok tt, app).

End App.

(** ** mcp_agent/mcp/prompt_message_multipart.py *)

Module Multipart.

(** [mcp.types.Role] *)
Inductive Role := user | assistant.

#[global] Instance Role_eq_dec : EqDecision Role.
Proof. solve_decision. Defined.

(** [Union[TextContent, ImageContent, EmbeddedResource]] *)
Inductive Content :=
| TextContent (text : string)
| ImageContent (data mimeType : string)
| EmbeddedResource (uri text : string).

Record PromptMessage := {
  pm_role : Role;
  pm_content : Content;
}.

Record PromptMessageMultipart := {
  role : Role;
  content : list Content;
}.

(** The local variables of [to_multipart]. *)
Record grouping := {
  result_list : list PromptMessageMultipart;
  current_group : option PromptMessageMultipart;
  current_role : option Role;
}.

(** [result.append(current_group)] under [if current_group is not None]. *)
Definition append_group (result : list PromptMessageMultipart)
    (group : option PromptMessageMultipart) : list PromptMessageMultipart :=
  match group with
  | Some g => result ++ [g]
  | None => result
  end.

(** One iteration of [for msg in messages]. *)
Definition group_step (st : grouping) (msg : PromptMessage) : grouping :=
  if decide (Some (pm_role msg) <> current_role st) then
    {| result_list := append_group (result_list st) (current_group st);
       current_role := Some (pm_role msg);
       current_group := Some {| role := pm_role msg; content := [pm_content msg] |} |}
  else
    {| result_list := result_list st;
       current_role := current_role st;
       current_group :=
         match current_group st with
         | Some g => Some {| role := role g; content := content g ++ [pm_content msg] |}
         | None => None
         end |}.

(** [PromptMessageMultipart.to_multipart(messages)] *)
Definition to_multipart (messages : list PromptMessage) : list PromptMessageMultipart :=
  match messages with
  | [] => []
  | _ =>
      let st := fold_left group_step messages
                  {| result_list := []; current_group := None; current_role := None |} in
      append_group (result_list st) (current_group st)
  end.

(** [self.from_multipart()] *)
Definition from_multipart (self : PromptMessageMultipart) : list PromptMessage :=
  map (fun content_part => {| pm_role := role self; pm_content := content_part |})
    (content self).

(** Neighbouring groups have different roles. *)
Fixpoint alternating (groups : list PromptMessageMultipart) : Prop :=
  match groups with
  | g1 :: rest =>
      match rest with
      | g2 :: _ => role g1 <> role g2 /\ alternating rest
      | [] => True
      end
  | [] => True
  end.

(** The messages a list of groups stands for: [from_multipart] of each,
    concatenated in order. *)
Definition flatten (groups : list PromptMessageMultipart) : list PromptMessage :=
  concat (map from_multipart groups).

(** The groups held by the state of the loop: the finished ones, then the
    one being filled. *)
Definition groups_of (st : grouping) : list PromptMessageMultipart :=
  append_group (result_list st) (current_group st).

(** The loop invariant after the messages [seen]. *)
Definition grouped (st : grouping) (seen : list PromptMessage) : Prop :=
  flatten (groups_of st) = seen /\
  Forall (fun g => content g <> []) (groups_of st) /\
  alternating (groups_of st) /\
  current_role st = role <$> current_group st /\
  (current_group st = None -> result_list st = []).

End Multipart.

(** ** mcp_agent/mcp/prompts/prompt_load.py *)

Module PromptLoad.
Import Multipart.

(** The methods the body of [class PromptMessageMultipart] defines. *)
Definition defined_methods : list string :=
  ["to_multipart"; "from_multipart"; "parse_get_prompt_result"].

Section Load.

(** From outside the files read here: the attributes the class inherits
    from pydantic's [BaseModel], what calling an attribute of the class on
    a message list does, and [load_prompt] (whose template loader is
    elsewhere). *)
Variable inherited_attributes : list string.
Variable call_attribute : string -> list PromptMessage -> result (list PromptMessageMultipart).
Variable load_prompt : Config.fspath -> result (list PromptMessage).

(** [PromptMessageMultipart.<name>]: the attribute, or [AttributeError]. *)
Definition class_getattr (name : string) : result string :=
  if decide (name ∈ defined_methods ++ inherited_attributes) then Ok name
  else Raise (AttributeError name).

(** [load_prompt_multipart(file)]: the callee
    [PromptMessageMultipart.flatten] is evaluated before its argument
    [load_prompt(file)]. *)
Definition load_prompt_multipart (file : Config.fspath)
    : result (list PromptMessageMultipart) :=
  try! flatten := class_getattr "flatten" in
  try! messages := load_prompt file in
  call_attribute flatten messages.

End Load.

(** A few of the public attributes of pydantic's [BaseModel]. *)
Definition some_base_attributes : list string :=
  ["model_copy"; "model_dump"; "model_dump_json"; "model_validate";
   "model_validate_json"; "model_construct"; "model_json_schema"; "model_fields"].


(** [PromptContent]: one section of a prompt template: its text, the role
    as written in the file, and the paths of the resources it embeds. *)
Record PromptContent := {
  section_text : string;
  section_role : string;
  section_resources : list string;
}.

(** Records written through [logger]. *)
Inductive log_record :=
| Warning (msg : string)
| Error (msg : string).

(** A computation that also logs: its result and the records written, in
    order. *)
Definition logged (A : Type) : Type := result A * list log_record.

(** [except Exception] catches every exception of the model but the
    cancellation, which derives from [BaseException]. *)
Definition is_Exception (e : exn) : bool :=
  match e with
  | CancelledError => false
  | _ => true
  end.

(** The role [cast_message_role] returns when it returns. *)
Definition role_of (role : string) : Role :=
  if decide (role = "assistant") then assistant else user.

(** [create_content_message(text, role)]: a [UserMessage] or an
    [AssistantMessage] around the text. *)
Definition create_content_message (text : string) (role : Role) : PromptMessage :=
  {| pm_role := role; pm_content := TextContent text |}.

Section Messages.

(** The name [logger] of this module is bound by
    [from mcp_agent.logging import logger], to an object defined outside
    the files read here: [logger_attributes] are the attributes it has,
    and [logger_call] is what calling one of them with a message does. *)
Variable logger_attributes : list string.
Variable logger_call : string -> string -> result unit.

(** [logger.<method>(msg)]: the attribute is looked up, which raises
    [AttributeError] when [logger] has none of that name, and then
    called; [record] is what a call that returns has written. *)
Definition logger_method (method msg : string) (record : log_record) : logged unit :=
  if decide (method ∈ logger_attributes) then
    match logger_call method msg with
    | Ok _ => (Ok tt, [record])
    | Raise e => (Raise e, [])
    end
  else (Raise (AttributeError method), []).

Definition logger_warning (msg : string) : logged unit :=
  logger_method "warning" msg (Warning msg).

Definition logger_error (msg : string) : logged unit :=
  logger_method "error" msg (Error msg).

(** [cast_message_role(role)] *)
Definition cast_message_role (role : string) : logged Role :=
  if decide (role = "user" \/ role = "assistant") then (Ok (role_of role), [])
  else
    match logger_warning ("Invalid message role: " +:+ role +:+ ", defaulting to 'user'") with
    | (Ok _, written) => (Ok user, written)
    | (Raise e, written) => (Raise e, written)
    end.

(** From [resource_utils] and [mime_utils], outside the files read here:
    loading a resource gives its content, MIME type and whether it is
    binary; the two constructors build the content object.  [str_exn] is
    [str(e)]. *)
Variable load_resource_content : string -> list Config.fspath -> result (string * string * bool).
Variable is_image_mime_type : string -> bool.
Variable create_image_content : string -> string -> result Content.
Variable create_embedded_resource : string -> string -> string -> bool -> result Content.
Variable str_exn : exn -> string.

(** [create_resource_message(resource_path, content, mime_type, is_binary,
    role)] *)
Definition create_resource_message (resource_path content mime_type : string)
    (is_binary : bool) (role : Role) : result PromptMessage :=
  if is_image_mime_type mime_type then
    try! image_content := create_image_content content mime_type in
    Ok {| pm_role := role; pm_content := image_content |}
  else
    try! embedded_resource :=
      create_embedded_resource resource_path content mime_type is_binary in
    Ok {| pm_role := role; pm_content := embedded_resource |}.

(** The body of [try:] for one resource. *)
Definition load_resource_message (prompt_files : list Config.fspath) (role : Role)
    (resource_path : string) : result PromptMessage :=
  try! loaded := load_resource_content resource_path prompt_files in
  create_resource_message resource_path loaded.1.1 loaded.1.2 loaded.2 role.

(** [for resource_path in section.resources: try: ... except Exception as e:
    logger.error(...)], appending to the messages and to the log.  What
    the handler itself raises leaves the loop and the function. *)
Fixpoint add_resources (prompt_files : list Config.fspath) (role : Role)
    (resources : list string) (messages : list PromptMessage) (log : list log_record)
    : logged (list PromptMessage) :=
  match resources with
  | [] => (Ok messages, log)
  | resource_path :: rest =>
      match load_resource_message prompt_files role resource_path with
      | Ok resource_message =>
          add_resources prompt_files role rest (messages ++ [resource_message]) log
      | Raise e =>
          if is_Exception e then
            match logger_error ("Error loading resource " +:+ resource_path +:+ ": "
                                +:+ str_exn e) with
            | (Ok _, written) =>
                add_resources prompt_files role rest messages (log ++ written)
            | (Raise e', written) => (Raise e', log ++ written)
            end
          else (Raise e, log)
      end
  end.

(** [for section in content_sections: ...] *)
Fixpoint add_sections (prompt_files : list Config.fspath) (sections : list PromptContent)
    (messages : list PromptMessage) (log : list log_record) : logged (list PromptMessage) :=
  match sections with
  | [] => (Ok messages, log)
  | section :: rest =>
      match cast_message_role (section_role section) with
      | (Raise e, written) => (Raise e, log ++ written)
      | (Ok role, written) =>
          let messages := messages ++ [create_content_message (section_text section) role] in
          match add_resources prompt_files role (section_resources section) messages
                  (log ++ written) with
          | (Raise e, log) => (Raise e, log)
          | (Ok messages, log) => add_sections prompt_files rest messages log
          end
      end
  end.

(** [create_messages_with_resources(content_sections, prompt_files)]: the
    messages, and what was logged. *)
Definition create_messages_with_resources (content_sections : list PromptContent)
    (prompt_files : list Config.fspath) : logged (list PromptMessage) :=
  add_sections prompt_files content_sections [] [].

(** [PromptTemplateLoader().load_from_file(file).content_sections], from
    the template module outside the files read here. *)
Variable load_from_file : Config.fspath -> result (list PromptContent).

(** [load_prompt(file)] *)
Definition load_prompt (file : Config.fspath) : logged (list PromptMessage) :=
  match load_from_file file with
  | Ok content_sections => create_messages_with_resources content_sections [file]
  | Raise e => (Raise e, [])
  end.

(** The contents of the resources of a section that load, in order. *)
Definition loaded_contents (prompt_files : list Config.fspath) (role : Role)
    (resources : list string) : list Content :=
  omap (fun resource_path =>
          match load_resource_message prompt_files role resource_path with
          | Ok m => Some (pm_content m)
          | Raise _ => None
          end) resources.

(** The group of messages one section gives rise to. *)
Definition section_group (prompt_files : list Config.fspath) (section : PromptContent)
    : PromptMessageMultipart :=
  {| role := role_of (section_role section);
     content := TextContent (section_text section)
                :: loaded_contents prompt_files (role_of (section_role section))
                     (section_resources section) |}.

(** Whether a log record is at the error level. *)
Definition is_error (r : log_record) : bool :=
  match r with Error _ => true | Warning _ => false end.

(** The error records the resources of a section leave, in order. *)
Definition resource_errors (prompt_files : list Config.fspath) (role : Role)
    (resources : list string) : list log_record :=
  omap (fun resource_path =>
          match load_resource_message prompt_files role resource_path with
          | Ok _ => None
          | Raise e =>
              Some (Error ("Error loading resource " +:+ resource_path +:+ ": "
                           +:+ str_exn e))
          end) resources.

(** What one section writes to the log. *)
Definition section_log (prompt_files : list Config.fspath) (section : PromptContent)
    : list log_record :=
  (if decide (section_role section = "user" \/ section_role section = "assistant") then []
   else [Warning ("Invalid message role: " +:+ section_role section
                  +:+ ", defaulting to 'user'")])
  ++ resource_errors prompt_files (role_of (section_role section)) (section_resources section).

(** A section that needs no logging: its role is one of the two, and each
    of its resources loads. *)
Definition section_clean (prompt_files : list Config.fspath) (section : PromptContent)
    : Prop :=
  (section_role section = "user" \/ section_role section = "assistant") /\
  Forall (fun resource_path =>
            is_Some (returned_value
                       (load_resource_message prompt_files (role_of (section_role section))
                          resource_path)))
    (section_resources section).

End Messages.

(** *** Templates used as scenarios *)

(** A user section with two resources and an assistant section with none. *)
Definition two_sections : list PromptContent :=
  [{| section_text := "Look at these"; section_role := "user";
      section_resources := ["shot.png"; "gone.txt"] |};
   {| section_text := "I see"; section_role := "assistant"; section_resources := [] |}].

(** The same template without the second resource. *)
Definition shot_sections : list PromptContent :=
  [{| section_text := "Look at this"; section_role := "user";
      section_resources := ["shot.png"] |};
   {| section_text := "I see"; section_role := "assistant"; section_resources := [] |}].

(** A template whose one section has a role that is neither of the two. *)
Definition system_section : list PromptContent :=
  [{| section_text := "Be brief"; section_role := "system"; section_resources := [] |}].

(** A loader that finds [shot.png] only. *)
Definition load_shot (resource_path : string) (prompt_files : list Config.fspath)
    : result (string * string * bool) :=
  if decide (resource_path = "shot.png") then Ok ("QUJD", "image/png", true)
  else Raise (ValueError "no such file").

(** The one attribute of [mcp_agent.logging.logger] the files read here
    use ([get_logger], in [app.py]); a logger object with the two
    methods. *)
Definition module_attributes : list string := ["get_logger"].

Definition logger_object_attributes : list string :=
  ["debug"; "info"; "warning"; "error"].

(** Content constructors and a MIME test standing for those of
    [resource_utils] and [mime_utils], and a logger method that returns. *)
Definition is_png (mime_type : string) : bool := bool_decide (mime_type = "image/png").

Definition image_of (data mime_type : string) : result Content :=
  Ok (ImageContent data mime_type).

Definition embedded_of (resource_path content mime_type : string) (is_binary : bool)
    : result Content :=
  Ok (EmbeddedResource resource_path content).

Definition method_returns (method msg : string) : result unit := Ok tt.

End PromptLoad.

(** ** mcp_agent/core/agent_utils.py *)

Module AgentUtils.

Section Instances.

(** [AgentOrWorkflow]: the wrapped objects, from [mcp_agent.core.types]. *)
Variable Instance : Type.

(** A proxy object, as far as [unwrap_proxy] reads it: whether it is an
    [LLMAgentProxy], and its two attributes where it has them. *)
Record proxy := {
  is_LLMAgentProxy : bool;
  _agent : option Instance;
  _workflow : option Instance;
}.

(** [unwrap_proxy(proxy)] *)
Definition unwrap_proxy (p : proxy) : result Instance :=
  if is_LLMAgentProxy p then
    match _agent p with
    | Some agent => Ok agent
    | None => Raise (AttributeError "_agent")
    end
  else
    match _workflow p with
    | Some workflow => Ok workflow
    | None => Raise (AttributeError "_workflow")
    end.

(** [get_agent_instances(agent_names, active_agents)]:
    [[unwrap_proxy(active_agents[name]) for name in agent_names]] *)
Fixpoint get_agent_instances (agent_names : list string) (active_agents : Dict.t proxy)
    : result (list Instance) :=
  match agent_names with
  | [] => Ok []
  | name :: rest =>
      try! p := Dict.subscript active_agents name in
      try! instance := unwrap_proxy p in
      try! more := get_agent_instances rest active_agents in
      Ok (instance :: more)
  end.

(** What the comprehension does for one name. *)
Definition instance_of (active_agents : Dict.t proxy) (name : string) : result Instance :=
  try! p := Dict.subscript active_agents name in
  unwrap_proxy p.

End Instances.

(** *** Proxies used as scenarios *)

(** An agent proxy, a workflow proxy, and a workflow proxy that lacks its
    attribute. *)
Definition some_proxies : Dict.t (proxy string) :=
  [("writer", {| is_LLMAgentProxy := true; _agent := Some "writer agent"; _workflow := None |});
   ("chain", {| is_LLMAgentProxy := false; _agent := None;
                _workflow := Some "chain workflow" |});
   ("broken", {| is_LLMAgentProxy := false; _agent := None; _workflow := None |})].

End AgentUtils.

(** * Properties *)

(** ** Strings and dictionaries *)

Lemma append_nil_l (t : string) : "" +:+ t = t.
Proof. reflexivity. Qed.

Lemma append_cons c (s t : string) : String c s +:+ t = String c (s +:+ t).
Proof. reflexivity. Qed.

Lemma append_assoc (a b c : string) : (a +:+ b) +:+ c = a +:+ (b +:+ c).
Proof.
  induction a as [|x a IH]; [done|]. by rewrite !append_cons, IH.
Qed.

Lemma append_empty_r (a : string) : a +:+ "" = a.
Proof.
  induction a as [|x a IH]; [done|]. by rewrite append_cons, IH.
Qed.

Lemma mentions_refl s : mentions s s.
Proof. exists "", "". by rewrite append_nil_l, append_empty_r. Qed.

Lemma mentions_prefix pre msg sub : mentions msg sub -> mentions (pre +:+ msg) sub.
Proof.
  intros (a & b & ->). exists (pre +:+ a), b. by rewrite append_assoc.
Qed.

Lemma mentions_suffix post msg sub : mentions msg sub -> mentions (msg +:+ post) sub.
Proof.
  intros (a & b & ->). exists a, (b +:+ post). by rewrite !append_assoc.
Qed.

Lemma mentions_join sep (l : list string) x : x ∈ l -> mentions (join sep l) x.
Proof.
  unfold join. induction l as [|y l IH]; intros Hx; [by apply elem_of_nil in Hx|].
  apply elem_of_cons in Hx as [->|Hx].
  - destruct l as [|z l]; simpl.
    + apply mentions_refl.
    + apply mentions_suffix, mentions_refl.
  - destruct l as [|z l]; [by apply elem_of_nil in Hx|].
    change (String.concat sep (y :: z :: l)) with (y +:+ sep +:+ String.concat sep (z :: l)).
    by apply mentions_prefix, mentions_prefix, IH.
Qed.

(** ** The dependency graph *)

Section Graph.
Import DecoratorApp.
Variable agents : registry.
Implicit Types (a b n : string) (l : list string) (V : gset string).

Local Abbreviation E := (fan_out_edge agents).
Local Abbreviation par := (is_parallel agents).
Local Abbreviation stack_ok := (DecoratorApp.stack_ok agents).

Lemma fan_out_edge_parallel a b : E a b -> par a.
Proof.
  unfold fan_out_edge, fan_out_of, is_parallel.
  destruct (Dict.get agents a) as [[]|]; try (intros H; by apply elem_of_nil in H).
  eauto.
Qed.

Lemma fan_out_of_get n c fi fo :
  Dict.get agents n = Some (ParallelData c fi fo) -> fan_out_of agents n = fo.
Proof. unfold fan_out_of. by intros ->. Qed.

Lemma chain_app a l1 c l2 b :
  chain E a l1 c -> chain E c l2 b -> chain E a (l1 ++ c :: l2) b.
Proof.
  revert a. induction l1 as [|x l1 IH]; simpl; intros a.
  - auto.
  - intros [? ?] ?. split; auto.
Qed.

Lemma chain_snoc a l c b : chain E a l c -> E c b -> chain E a (l ++ [c]) b.
Proof. intros H1 H2. by apply chain_app. Qed.

Lemma chain_split a l1 c l2 b :
  chain E a (l1 ++ c :: l2) b -> chain E a l1 c /\ chain E c l2 b.
Proof.
  revert a. induction l1 as [|x l1 IH]; simpl; intros a.
  - tauto.
  - intros [? H]. apply IH in H. tauto.
Qed.

Lemma chain_tc a l b : chain E a l b -> tc E a b.
Proof.
  revert a. induction l as [|x l IH]; simpl; intros a.
  - apply tc_once.
  - intros [? ?]. eapply tc_l; eauto.
Qed.

Lemma tc_chain a b : tc E a b -> exists l, chain E a l b.
Proof.
  induction 1 as [a b H|a c b H _ [l IH]].
  - by exists [].
  - by exists (c :: l).
Qed.

Lemma stack_ok_push stk n f : stack_ok stk n -> E n f -> stack_ok (stk ++ [n]) f.
Proof.
  destruct stk as [|s0 rest]; simpl; [auto|]. apply chain_snoc.
Qed.

Lemma stack_ok_cycle stk n :
  stack_ok stk n -> n ∈ stk ->
  exists cyc, chain E n cyc n /\ forall x, x ∈ n :: cyc -> x ∈ stk.
Proof.
  intros Hs Hin. apply list_elem_of_split in Hin as (l1 & l2 & ->).
  exists l2. split.
  - destruct l1 as [|s0 l1]; simpl in Hs; [done|].
    by apply chain_split in Hs as [_ ?].
  - intros x Hx. apply elem_of_app. by right.
Qed.

Lemma deps_first_app V l1 l2 :
  deps_first agents V (l1 ++ l2) <->
  deps_first agents V l1 /\ deps_first agents (list_to_set l1 ∪ V) l2.
Proof.
  revert V. induction l1 as [|a l1 IH]; intros V; simpl.
  - replace (∅ ∪ V) with V by set_solver. tauto.
  - rewrite IH. replace (list_to_set l1 ∪ ({[a]} ∪ V)) with ({[a]} ∪ list_to_set l1 ∪ V)
      by set_solver. tauto.
Qed.

(** Position form of [deps_first]. *)
Lemma deps_first_before V l a b :
  deps_first agents V l -> a ∈ l -> E a b -> par b -> b ∈ V \/ before l b a.
Proof.
  intros Hl Ha Hab Hb. apply list_elem_of_split in Ha as (l1 & l2 & ->).
  apply deps_first_app in Hl as [_ [Hl _]].
  specialize (Hl b Hab Hb). apply elem_of_union in Hl as [Hl|Hl]; [|by left].
  right. apply elem_of_list_to_set, list_elem_of_lookup in Hl as [i Hi].
  exists i, (length l1). split_and!.
  - by apply lookup_app_l_Some.
  - by rewrite list_lookup_middle.
  - by apply lookup_lt_Some in Hi.
Qed.

Lemma deps_first_closed V l :
  deps_first agents V l ->
  (forall a b, a ∈ V -> E a b -> par b -> b ∈ V) ->
  forall a b, a ∈ list_to_set l ∪ V -> E a b -> par b -> b ∈ list_to_set l ∪ V.
Proof.
  intros Hl HV a b Ha Hab Hb. apply elem_of_union in Ha as [Ha|Ha].
  - apply elem_of_list_to_set in Ha.
    destruct (deps_first_before V l a b) as [?|(i & _ & Hi & _)]; auto; [set_solver|].
    apply elem_of_union_l, elem_of_list_to_set. by eapply list_elem_of_lookup_2.
  - apply elem_of_union_r. eauto.
Qed.

End Graph.

(** ** [_get_parallel_dependencies] *)

Section Traversal.
Import DecoratorApp.
Variable hash_order : gset string -> list string.
Variable agents : registry.
Implicit Types (a b n name : string) (l deps : list string) (w : walk).

Local Abbreviation E := (fan_out_edge agents).
Local Abbreviation par := (is_parallel agents).
Local Abbreviation gpd := (get_parallel_dependencies hash_order).
Local Abbreviation returned := (DecoratorApp.returned agents).
Local Abbreviation raised := (DecoratorApp.raised hash_order agents).

Section Loop.
Variable rec : string -> walk -> option (result (list string * walk)).

Hypothesis rec_returned : forall name w deps w',
  rec name w = Some (Ok (deps, w')) ->
  returned w deps w' /\ (par name -> name ∈ visited w').

Lemma extend_deps_returned fan_outs deps0 w0 deps w' :
  extend_deps rec fan_outs deps0 w0 = Some (Ok (deps, w')) ->
  exists more, deps = deps0 ++ more /\ returned w0 more w' /\
    forall f, f ∈ fan_outs -> par f -> f ∈ visited w'.
Proof.
  revert deps0 w0. induction fan_outs as [|f rest IH]; intros deps0 w0; simpl.
  - intros [= <- <-]. exists []. rewrite app_nil_r. split; [done|]. split.
    + split_and!; [done|set_solver|apply NoDup_nil_2| |done].
      intros d Hd. by apply elem_of_nil in Hd.
    + intros f Hf. by apply elem_of_nil in Hf.
  - destruct (rec f w0) as [[[more1 w1]|e]|] eqn:Hf; try done.
    intros Hrest. apply rec_returned in Hf as [(Hp1 & Hv1 & Hnd1 & Hfresh1 & Hord1) Hin1].
    apply IH in Hrest as (more2 & -> & (Hp2 & Hv2 & Hnd2 & Hfresh2 & Hord2) & Hin2).
    exists (more1 ++ more2). split; [by rewrite app_assoc|]. split.
    + split_and!.
      * congruence.
      * rewrite Hv2, Hv1, list_to_set_app_L. set_solver.
      * apply NoDup_app. split_and!; [done| |done].
        intros d Hd1 Hd2. apply Hfresh2 in Hd2 as [Hd2 _]. rewrite Hv1 in Hd2. set_solver.
      * intros d Hd. apply elem_of_app in Hd as [Hd|Hd]; [by apply Hfresh1|].
        apply Hfresh2 in Hd as (Hd1 & Hd2 & Hd3). rewrite Hv1 in Hd1. rewrite Hp1 in Hd2.
        split_and!; [set_solver|done..].
      * apply deps_first_app. split; [done|]. by rewrite <- Hv1.
    + intros f' Hf' Hpar. apply elem_of_cons in Hf' as [->|Hf']; [|by apply Hin2].
      rewrite Hv2. apply elem_of_union_r. by apply Hin1.
Qed.

Hypothesis rec_raised : forall name w e stk,
  rec name w = Some (Raise e) ->
  path w = list_to_set stk -> stack_ok agents stk name -> raised e.

Lemma extend_deps_raised fan_outs deps0 w0 e stk :
  extend_deps rec fan_outs deps0 w0 = Some (Raise e) ->
  path w0 = list_to_set stk ->
  (forall f, f ∈ fan_outs -> stack_ok agents stk f) ->
  raised e.
Proof.
  revert deps0 w0. induction fan_outs as [|f rest IH]; intros deps0 w0; simpl; [done|].
  destruct (rec f w0) as [[[more1 w1]|e1]|] eqn:Hf; try done.
  - intros Hrest Hp Hstk. apply rec_returned in Hf as [(Hp1 & _) _].
    eapply IH; eauto; [congruence|]. intros f' Hf'. apply Hstk. by right.
  - intros [= <-] Hp Hstk. eapply rec_raised; eauto. apply Hstk. by left.
Qed.

Variable p : gset string.
Hypothesis rec_fuel : forall name w, path w = p -> rec name w <> None.

Lemma extend_deps_fuel fan_outs deps0 w0 :
  path w0 = p -> extend_deps rec fan_outs deps0 w0 <> None.
Proof.
  revert deps0 w0. induction fan_outs as [|f rest IH]; intros deps0 w0 Hp; simpl; [done|].
  destruct (rec f w0) as [[[more1 w1]|e1]|] eqn:Hf; [|done|by apply rec_fuel in Hf].
  apply rec_returned in Hf as [(Hp1 & _) _]. apply IH. congruence.
Qed.

End Loop.

Lemma gpd_returned fuel name w deps w' :
  gpd fuel agents name w = Some (Ok (deps, w')) ->
  returned w deps w' /\ (par name -> name ∈ visited w').
Proof.
  revert name w deps w'. induction fuel as [|fuel IH]; intros name w deps w'; simpl; [done|].
  assert (Hnil : returned w [] w).
  { split_and!; [done|set_solver|apply NoDup_nil_2| |done].
    intros d Hd. by apply elem_of_nil in Hd. }
  destruct (decide (name ∈ path w)) as [|Hpath]; [done|].
  destruct (decide (name ∈ visited w)) as [Hvis|Hvis].
  { intros [= <- <-]. auto. }
  destruct (Dict.get agents name) as [d|] eqn:Hget.
  2:{ intros [= <- <-]. split; [done|]. intros (? & ? & ? & ?). congruence. }
  destruct d as [c|c ch|c fan_in fan_out|c o ev mr mx];
    try (intros [= <- <-]; split; [done|]; intros (? & ? & ? & ?); congruence).
  destruct (extend_deps _ _ _ _) as [[[more w2]|e]|] eqn:Hloop; try done.
  apply (extend_deps_returned _ IH) in Hloop
    as (? & -> & (Hp & Hv & Hnd & Hfresh & Hord) & Hkids). simpl in *.
  destruct (decide (name ∈ path w2)) as [_|Hno]; [|done].
  intros [= <- <-]. simpl. split; [|set_solver].
  split_and!.
  - rewrite Hp. set_solver.
  - rewrite Hv, list_to_set_app_L. set_solver.
  - apply NoDup_app. split_and!; [done| |apply NoDup_singleton].
    intros d Hd ->%list_elem_of_singleton. apply Hfresh in Hd. set_solver.
  - intros d [Hd| ->%list_elem_of_singleton]%elem_of_app.
    + apply Hfresh in Hd as (? & ? & ?). split_and!; [done|set_solver|done].
    + split_and!; [done..|]. by exists c, fan_in, fan_out.
  - apply deps_first_app. split; [done|]. simpl. split; [|done].
    intros b Hb Hpar. rewrite <- Hv. apply Hkids; [|done].
    unfold fan_out_edge in Hb. by rewrite (fan_out_of_get _ _ _ _ _ Hget) in Hb.
Qed.

Lemma gpd_raised fuel name w e stk :
  gpd fuel agents name w = Some (Raise e) ->
  path w = list_to_set stk -> stack_ok agents stk name -> raised e.
Proof.
  revert name w e stk. induction fuel as [|fuel IH]; intros name w e stk; simpl; [done|].
  destruct (decide (name ∈ path w)) as [Hpath|Hpath].
  { intros [= <-] Hp Hstk. rewrite Hp in Hpath. apply elem_of_list_to_set in Hpath.
    destruct (stack_ok_cycle agents stk name Hstk Hpath) as (cyc & Hcyc & Hin).
    exists (path w), name, cyc. split_and!; [done..|].
    intros x Hx. rewrite Hp. apply elem_of_list_to_set. auto. }
  destruct (decide (name ∈ visited w)); [done|].
  destruct (Dict.get agents name) as [d|] eqn:Hget; [|done].
  destruct d as [c|c ch|c fan_in fan_out|c o ev mr mx]; try done.
  destruct (extend_deps _ _ _ _) as [[[more w2]|e']|] eqn:Hloop; try done.
  - apply (extend_deps_returned _ (gpd_returned fuel)) in Hloop as (? & _ & (Hp & _) & _).
    simpl in Hp. destruct (decide (name ∈ path w2)) as [|Hno]; [done|]. set_solver.
  - intros [= <-] Hp Hstk.
    eapply (extend_deps_raised _ (gpd_returned fuel) IH _ _ _ _ (stk ++ [name])); eauto.
    + simpl. rewrite Hp, list_to_set_app_L. set_solver.
    + intros f Hf. apply stack_ok_push; [done|].
      unfold fan_out_edge. by rewrite (fan_out_of_get _ _ _ _ _ Hget).
Qed.

Lemma get_Some_key {V} (d : Dict.t V) k v : Dict.get d k = Some v -> k ∈ Dict.keys d.
Proof.
  induction d as [|[k' v'] d IH]; simpl; [done|].
  destruct (decide (k' = k)) as [->|]; [left|right; auto].
Qed.

Lemma size_list_to_set_le (l : list string) : size (list_to_set l : gset string) <= length l.
Proof.
  induction l as [|x l IH].
  - by rewrite list_to_set_nil, size_empty.
  - rewrite list_to_set_cons, size_union_alt, size_singleton.
    assert (list_to_set l ∖ {[x]} ⊆ (list_to_set l : gset string)) as Hs by set_solver.
    apply subseteq_size in Hs. simpl. lia.
Qed.

Lemma gpd_fuel fuel name w :
  size ((list_to_set (Dict.keys agents) : gset string) ∖ path w) < fuel ->
  gpd fuel agents name w <> None.
Proof.
  revert name w. induction fuel as [|fuel IH]; intros name w Hsz; simpl; [lia|].
  destruct (decide (name ∈ path w)) as [Hpath|Hpath]; [done|].
  destruct (decide (name ∈ visited w)); [done|].
  destruct (Dict.get agents name) as [d|] eqn:Hget; [|done].
  destruct d as [c|c ch|c fan_in fan_out|c o ev mr mx]; try done.
  destruct (extend_deps _ _ _ _) as [[[more w2]|e']|] eqn:Hloop; try done.
  - by destruct (decide (name ∈ path w2)).
  - exfalso. revert Hloop.
    eapply (extend_deps_fuel _ (gpd_returned fuel) ({[name]} ∪ path w)); [|done].
    intros f w0 Hp0. apply IH. rewrite Hp0.
    apply get_Some_key in Hget.
    assert (list_to_set (Dict.keys agents) ∖ ({[name]} ∪ path w)
              ⊂ (list_to_set (Dict.keys agents) : gset string) ∖ path w) as Hlt%subset_size; [|lia].
    split; [set_solver|]. intros Hsub.
    assert (name ∈ (list_to_set (Dict.keys agents) : gset string) ∖ path w) as Hin by set_solver.
    apply Hsub in Hin. set_solver.
Qed.

Lemma gpd_enough_fuel fuel name v :
  enough_fuel agents <= fuel -> gpd fuel agents name (Walk v ∅) <> None.
Proof.
  intros Hfuel. apply gpd_fuel. simpl. unfold enough_fuel in Hfuel.
  pose proof (size_list_to_set_le (Dict.keys agents)) as Hle.
  assert ((list_to_set (Dict.keys agents) : gset string) ∖ ∅ ⊆ list_to_set (Dict.keys agents))
    as Hs by set_solver.
  apply subseteq_size in Hs.
  unfold Dict.keys in *. rewrite length_fmap in Hle. lia.
Qed.

End Traversal.

(** ** Ordering from one root with fresh traversal state *)

Section OrderFromRoot.
Import DecoratorApp.
Variable hash_order : gset string -> list string.
Variable agents : registry.

Local Abbreviation E := (fan_out_edge agents).
Local Abbreviation par := (is_parallel agents).
Local Abbreviation gpd := (get_parallel_dependencies hash_order).

Lemma tc_edge_parallel a b : tc E a b -> par a.
Proof. induction 1; eauto using fan_out_edge_parallel. Qed.

(** A normal return from a fresh state emits an order in which every
    parallel dependency comes strictly first. *)
Lemma fresh_order_before fuel root order w' :
  gpd fuel agents root fresh = Some (Ok (order, w')) ->
  forall a b, a ∈ order -> tc E a b -> par b -> before order b a.
Proof.
  intros Hrun. apply gpd_returned in Hrun as [(_ & _ & Hnd & _ & Hord) _]. simpl in Hord.
  assert (Hstep : forall a b, a ∈ order -> E a b -> par b -> before order b a).
  { intros a b Ha Hab Hb.
    destruct (deps_first_before agents ∅ order a b) as [?|?]; auto. set_solver. }
  intros a b Ha Hab. revert Ha. induction Hab as [a b Hab|a c b Hac Hcb IH]; intros Ha Hb.
  - by apply Hstep.
  - assert (par c) as Hc by (by eapply tc_edge_parallel).
    destruct (Hstep a c Ha Hac Hc) as (i & j & Hi & Hj & Hij).
    destruct IH as (i' & j' & Hi' & Hj' & Hij'); [by eapply list_elem_of_lookup_2|done|].
    assert (j' = i) as -> by (eapply NoDup_lookup; eauto).
    exists i', j. split_and!; [done..|lia].
Qed.

Lemma fresh_order_no_cycle fuel root order w' c :
  gpd fuel agents root fresh = Some (Ok (order, w')) ->
  rtc E root c -> tc E c c -> False.
Proof.
  intros Hrun Hreach Hcyc.
  pose proof (tc_edge_parallel _ _ Hcyc) as Hc.
  assert (c ∈ order) as Hin.
  { pose proof Hrun as [(_ & Hv & _ & _ & Hord) Hroot]%gpd_returned. simpl in *.
    assert (Hclosed : forall a b, a ∈ (list_to_set order ∪ ∅ : gset string) -> E a b -> par b ->
                        b ∈ (list_to_set order ∪ ∅ : gset string)).
    { apply deps_first_closed; [done|set_solver]. }
    assert (forall a b, rtc E a b -> par b -> a ∈ (list_to_set order ∪ ∅ : gset string) ->
              b ∈ (list_to_set order ∪ ∅ : gset string)) as Hrtc.
    { intros a b Hab. induction Hab as [a|a a' b Haa' Hab IH]; intros Hb Ha; [done|].
      apply IH; [done|]. eapply Hclosed; [done..|].
      destruct (rtc_inv _ _ Hab) as [->|(? & ? & _)]; [done|by eapply fan_out_edge_parallel]. }
    assert (root ∈ (list_to_set order ∪ ∅ : gset string)) as Hr.
    { rewrite <- Hv. apply Hroot. destruct (rtc_inv _ _ Hreach) as [->|(? & ? & _)];
        [done|by eapply fan_out_edge_parallel]. }
    specialize (Hrtc _ _ Hreach Hc Hr). set_solver. }
  destruct (fresh_order_before _ _ _ _ Hrun c c Hin Hcyc Hc) as (i & j & Hi & Hj & Hij).
  apply gpd_returned in Hrun as [(_ & _ & Hnd & _) _].
  assert (i = j) by (eapply NoDup_lookup; eauto). lia.
Qed.

Lemma fresh_raised fuel root e :
  gpd fuel agents root fresh = Some (Raise e) -> raised hash_order agents e.
Proof.
  intros Hrun. eapply (gpd_raised _ _ _ _ _ _ []); eauto. done.
Qed.

End OrderFromRoot.

(** ** The order does not depend on how sets are iterated *)

Section HashOrder.
Import DecoratorApp.
Variables h1 h2 : gset string -> list string.
Variable agents : registry.

Lemma extend_deps_hash_order rec1 rec2 :
  (forall n w, returned_value <$> rec1 n w = returned_value <$> rec2 n w) ->
  forall fan_outs deps w,
    returned_value <$> extend_deps rec1 fan_outs deps w
    = returned_value <$> extend_deps rec2 fan_outs deps w.
Proof.
  intros Hrec fan_outs. induction fan_outs as [|f rest IH]; intros deps w; simpl; [done|].
  specialize (Hrec f w).
  destruct (rec1 f w) as [[[d1 w1]|e1]|], (rec2 f w) as [[[d2 w2]|e2]|];
    simplify_eq/=; auto.
Qed.

Lemma gpd_hash_order fuel name w :
  returned_value <$> get_parallel_dependencies h1 fuel agents name w
  = returned_value <$> get_parallel_dependencies h2 fuel agents name w.
Proof.
  revert name w. induction fuel as [|fuel IH]; intros name w; simpl; [done|].
  repeat case_decide; try done.
  destruct (Dict.get agents name) as [[c|c ch|c fan_in fan_out|c o ev mr mx]|]; try done.
  pose proof (extend_deps_hash_order _ _ IH fan_out []
                (Walk (visited w) ({[name]} ∪ path w))) as Hloop.
  destruct (extend_deps (get_parallel_dependencies h1 fuel agents) _ _ _) as [[[d1 w1]|e1]|],
    (extend_deps (get_parallel_dependencies h2 fuel agents) _ _ _) as [[[d2 w2]|e2]|];
    simplify_eq/=; auto.
Qed.

Lemma build_order_loop_hash_order names v order :
  returned_value (build_order_loop h1 agents names v order)
  = returned_value (build_order_loop h2 agents names v order).
Proof.
  revert v order. induction names as [|name rest IH]; intros v order;
    cbn [build_order_loop]; [done|].
  case_decide; [done|].
  pose proof (gpd_hash_order (enough_fuel agents) name (Walk v ∅)) as Hrun.
  destruct (get_parallel_dependencies h1 _ _ _ _) as [[[d1 w1]|e1]|],
    (get_parallel_dependencies h2 _ _ _ _) as [[[d2 w2]|e2]|];
    simplify_eq/=; auto; by repeat case_match.
Qed.

End HashOrder.

(** ** The order of construction over all parallel agents *)

Section BuildOrder.
Import DecoratorApp.
Variable hash_order : gset string -> list string.
Variable agents : registry.

Local Abbreviation E := (fan_out_edge agents).
Local Abbreviation par := (is_parallel agents).
Local Abbreviation gpd := (get_parallel_dependencies hash_order).
Local Abbreviation order_inv := (DecoratorApp.order_inv agents).

Lemma append_new_fresh ordered order :
  NoDup ordered -> (forall d, d ∈ ordered -> d ∉ order) ->
  append_new ordered order = order ++ ordered.
Proof.
  revert order. induction ordered as [|a rest IH]; intros order Hnd Hfresh; simpl.
  - by rewrite app_nil_r.
  - apply NoDup_cons in Hnd as [Ha Hnd].
    rewrite decide_False by (apply Hfresh; left).
    rewrite IH, <- app_assoc; [done..|].
    intros d Hd [Hin| ->%list_elem_of_singleton]%elem_of_app; [|done].
    eapply Hfresh; [|done]. by right.
Qed.

Lemma build_order_loop_ok names v order r :
  order_inv v order ->
  build_order_loop hash_order agents names v order = Ok r ->
  order_inv (list_to_set r) r /\ (forall n, n ∈ order -> n ∈ r) /\
  (forall n, n ∈ names -> par n -> n ∈ r).
Proof.
  revert v order. induction names as [|name rest IH]; intros v order Hinv;
    cbn [build_order_loop].
  - intros [= <-]. destruct Hinv as (-> & ? & ?). split_and!; [done..|].
    intros n Hn. by apply elem_of_nil in Hn.
  - destruct (decide (name ∈ v)) as [Hv|Hv].
    { intros Hrun. destruct (IH _ _ Hinv Hrun) as (? & Hsub & Hin). split_and!; [done..|].
      intros n [->|Hn]%elem_of_cons Hpar; [|by apply Hin].
      apply Hsub. destruct Hinv as (-> & _). by apply elem_of_list_to_set in Hv. }
    destruct (gpd _ _ _ _) as [[[ordered w]|e]|] eqn:Hrun; [|by destruct e|done].
    apply gpd_returned in Hrun as [(_ & Hvis & Hnd & Hfresh & Hord) Hroot]. simpl in *.
    destruct Hinv as (-> & Hnd0 & Hord0).
    rewrite append_new_fresh; [|done|].
    2:{ intros d Hd Hin. apply Hfresh in Hd as [Hd _]. by apply Hd, elem_of_list_to_set. }
    intros Hrest. apply IH in Hrest as (? & Hsub & Hin).
    + split_and!; [done| |].
      * intros n Hn. apply Hsub, elem_of_app. by left.
      * intros n [->|Hn]%elem_of_cons Hpar; [|by apply Hin].
        apply Hsub. apply Hroot in Hpar. rewrite Hvis in Hpar.
        apply elem_of_app. set_solver.
    + split_and!.
      * rewrite Hvis, list_to_set_app_L. set_solver.
      * apply NoDup_app. split_and!; [done| |done].
        intros d Hd Hd'. apply Hfresh in Hd' as [Hd' _]. by apply Hd', elem_of_list_to_set.
      * apply deps_first_app. split; [done|].
        by replace (list_to_set order ∪ ∅ : gset string) with (list_to_set order : gset string)
          by set_solver.
Qed.

Lemma build_order_loop_raise names v order e :
  build_order_loop hash_order agents names v order = Raise e ->
  exists name p n cyc,
    e = ValueError (creating_message name (circular_message hash_order p n)) /\
    chain E n cyc n /\ forall x, x ∈ n :: cyc -> x ∈ p.
Proof.
  revert v order. induction names as [|name rest IH]; intros v order;
    cbn [build_order_loop]; [done|].
  case_decide; [by apply IH|].
  destruct (gpd _ _ _ _) as [[[ordered w]|e']|] eqn:Hrun.
  - by apply IH.
  - apply (gpd_raised _ _ _ _ _ _ []) in Hrun as (p & n & cyc & -> & ? & ?); [|done..].
    intros [= <-]. by exists name, p, n, cyc.
  - by apply gpd_enough_fuel in Hrun.
Qed.

Lemma order_inv_empty : order_inv ∅ [].
Proof. split_and!; [done|constructor|done]. Qed.

Lemma parallel_names_spec n : par n -> n ∈ parallel_names agents.
Proof.
  intros (c & fi & fo & Hget). unfold parallel_names, Dict.items.
  apply list_elem_of_fmap. exists (n, ParallelData c fi fo). split; [done|].
  apply list_elem_of_filter. split; [done|].
  clear -Hget. induction agents as [|[k v] d IH]; simpl in *; [done|].
  case_decide; simplify_eq; [left|right; auto].
Qed.

Lemma build_order_topological order :
  build_order hash_order agents = Ok order ->
  NoDup order /\ (forall n, par n -> n ∈ order) /\
  forall a b, a ∈ order -> E a b -> par b -> before order b a.
Proof.
  intros Hrun. apply (build_order_loop_ok _ _ _ _ order_inv_empty) in Hrun
    as ((_ & Hnd & Hord) & _ & Hall).
  split_and!; [done| |].
  - intros n Hn. apply Hall; [|done]. by apply parallel_names_spec.
  - intros a b Ha Hab Hb.
    destruct (deps_first_before agents ∅ order a b) as [?|?]; auto. set_solver.
Qed.

Lemma build_order_no_cycle order c :
  build_order hash_order agents = Ok order -> tc E c c -> False.
Proof.
  intros (Hnd & Hall & Hbefore)%build_order_topological Hcyc.
  assert (Hpar : forall a b, tc E a b -> par a) by (induction 1; eauto using fan_out_edge_parallel).
  assert (forall a b, tc E a b -> a ∈ order -> par b -> before order b a) as Htc.
  { intros a b Hab. induction Hab as [a b Hab|a m b Ham Hmb IH]; intros Ha Hb; [by apply Hbefore|].
    destruct (Hbefore a m Ha Ham (Hpar _ _ Hmb)) as (i & j & Hi & Hj & Hij).
    destruct IH as (i' & j' & Hi' & Hj' & Hij'); [by eapply list_elem_of_lookup_2|done|].
    assert (j' = i) as -> by (eapply NoDup_lookup; eauto).
    exists i', j. split_and!; [done..|lia]. }
  destruct (Htc c c Hcyc) as (i & j & Hi & Hj & Hij); eauto.
  assert (i = j) by (eapply NoDup_lookup; eauto). lia.
Qed.

(** A successful ordering certifies that the registry is acyclic. *)
Lemma build_order_acyclic order :
  build_order hash_order agents = Ok order -> acyclic agents.
Proof. intros Hrun n Hn. by eapply build_order_no_cycle. Qed.

End BuildOrder.

(** ** Cycle detection, topological order, determinism *)

Section OrderTheorems.
Import DecoratorApp.

Lemma mentions_circular_message hash_order p n x :
  enumerates hash_order -> x ∈ p -> mentions (circular_message hash_order p n) x.
Proof.
  intros Henum Hx. unfold circular_message.
  apply mentions_prefix, mentions_suffix, mentions_join.
  rewrite (Henum p). by apply elem_of_elements.
Qed.

Lemma mentions_creating_message name msg x :
  mentions msg x -> mentions (creating_message name msg) x.
Proof. intros H. unfold creating_message. by do 3 apply mentions_prefix. Qed.

Example nested_registry_order :
  parallel_names nested_registry = ["P"; "Q"; "R"] /\
  build_order elements nested_registry = Ok ["R"; "Q"; "P"] /\
  exists w, get_parallel_dependencies elements (enough_fuel nested_registry)
              nested_registry "Q" fresh = Some (Ok (["R"; "Q"], w)).
Proof. split_and!; [reflexivity..|]. eexists. vm_compute. reflexivity. Qed.

Lemma enumerates_elements : enumerates elements.
Proof. by intros s. Qed.

Lemma xy_edge_X_Y cx cy fx fy : fan_out_edge (xy_registry cx cy fx fy) "X" "Y".
Proof. unfold fan_out_edge. simpl. by left. Qed.

Lemma xy_edge_Y_X cx cy fx fy : fan_out_edge (xy_registry cx cy fx fy) "Y" "X".
Proof. unfold fan_out_edge. simpl. by left. Qed.

(** *** Topological order *)

Lemma basic_fan_out_registry_acyclic : acyclic basic_fan_out_registry.
Proof. apply (build_order_acyclic elements _ ["P"]). vm_compute. reflexivity. Qed.

Lemma lone_parallel_registry_acyclic : acyclic lone_parallel_registry.
Proof. apply (build_order_acyclic elements _ ["P"]). vm_compute. reflexivity. Qed.

(** Ordering [P] emits [P] alone, whether its fan-out target [a] is a
    registered basic agent or an undeclared name: the fan-out edge (P, a)
    has a target that never appears in the order, so it does not appear
    before [P]. *)
Lemma fan_out_target_not_emitted :
  (acyclic basic_fan_out_registry /\
   fan_out_edge basic_fan_out_registry "P" "a" /\
   (exists w, get_parallel_dependencies elements (enough_fuel basic_fan_out_registry)
                basic_fan_out_registry "P" fresh = Some (Ok (["P"], w))) /\
   build_order elements basic_fan_out_registry = Ok ["P"]) /\
  (acyclic lone_parallel_registry /\
   fan_out_edge lone_parallel_registry "P" "a" /\
   (exists w, get_parallel_dependencies elements (enough_fuel lone_parallel_registry)
                lone_parallel_registry "P" fresh = Some (Ok (["P"], w))) /\
   build_order elements lone_parallel_registry = Ok ["P"]) /\
  ~ before ["P"] "a" "P".
Proof.
  split_and!.
  - apply basic_fan_out_registry_acyclic.
  - unfold fan_out_edge. simpl. by left.
  - eexists. vm_compute. reflexivity.
  - vm_compute. reflexivity.
  - apply lone_parallel_registry_acyclic.
  - unfold fan_out_edge. simpl. by left.
  - eexists. vm_compute. reflexivity.
  - vm_compute. reflexivity.
  - intros (i & j & Hi & Hj & Hij). destruct i as [|i]; simplify_eq/=.
Qed.

(** C3 (amended). For an acyclic registry, ordering from any root with
    fresh traversal state returns, and so does the order of construction
    over the whole registry; no name occurs twice in the returned order,
    and for every fan-out edge (from, to) with [from] in the order and [to]
    a registered parallel agent, [to] occurs strictly before [from].
    Fan-out targets that are not registered parallel agents are not
    emitted. *)
Theorem order_is_topological_on_parallel_agents hash_order agents :
  acyclic agents ->
  (forall root fuel,
     enough_fuel agents <= fuel ->
     exists order w,
       get_parallel_dependencies hash_order fuel agents root fresh = Some (Ok (order, w)) /\
       NoDup order /\
       (forall n, n ∈ order -> is_parallel agents n) /\
       forall from to, from ∈ order -> fan_out_edge agents from to ->
         is_parallel agents to -> before order to from) /\
  (exists order,
     build_order hash_order agents = Ok order /\
     NoDup order /\
     (forall n, is_parallel agents n -> n ∈ order) /\
     forall from to, from ∈ order -> fan_out_edge agents from to ->
       is_parallel agents to -> before order to from).
Proof.
  intros Hacyc. split.
  - intros root fuel Hfuel.
    destruct (get_parallel_dependencies hash_order fuel agents root fresh)
      as [[[order w]|e]|] eqn:Hrun.
    + exists order, w. split; [done|].
      pose proof Hrun as [(_ & _ & Hnd & Hfresh & _) _]%gpd_returned.
      split_and!; [done| |].
      * intros n Hn. by apply Hfresh in Hn as (_ & _ & ?).
      * intros from to Hfrom Hedge Hto.
        eapply fresh_order_before; eauto. by apply tc_once.
    + apply fresh_raised in Hrun as (p & n & cyc & _ & Hchain & _).
      destruct (Hacyc n). by eapply chain_tc.
    + by apply gpd_enough_fuel in Hrun.
  - destruct (build_order hash_order agents) as [order|e] eqn:Hrun.
    + exists order. split; [done|]. by apply build_order_topological in Hrun.
    + apply build_order_loop_raise in Hrun as (name & p & n & cyc & _ & Hchain & _).
      destruct (Hacyc n). by eapply chain_tc.
Qed.

Lemma nested_registry_acyclic : acyclic nested_registry.
Proof. apply (build_order_acyclic elements _ ["R"; "Q"; "P"]). vm_compute. reflexivity. Qed.

Lemma order_is_topological_on_parallel_agents_witness :
  acyclic nested_registry /\
  (fan_out_edge nested_registry "P" "Q" /\ is_parallel nested_registry "Q" /\
   fan_out_edge nested_registry "Q" "R" /\ is_parallel nested_registry "R") /\
  (exists order w,
     get_parallel_dependencies elements (enough_fuel nested_registry) nested_registry "P" fresh
       = Some (Ok (order, w)) /\
     NoDup order /\
     (forall n, n ∈ order -> is_parallel nested_registry n) /\
     forall from to, from ∈ order -> fan_out_edge nested_registry from to ->
       is_parallel nested_registry to -> before order to from) /\
  (exists order,
     build_order elements nested_registry = Ok order /\
     NoDup order /\
     (forall n, is_parallel nested_registry n -> n ∈ order) /\
     forall from to, from ∈ order -> fan_out_edge nested_registry from to ->
       is_parallel nested_registry to -> before order to from).
Proof.
  split; [apply nested_registry_acyclic|]. split.
  { unfold fan_out_edge, is_parallel. simpl. split_and!.
    - by left.
    - by eexists _, _, _.
    - by left.
    - by eexists _, _, _. }
  destruct (order_is_topological_on_parallel_agents elements nested_registry
              nested_registry_acyclic) as [Hroot Hall].
  split; [|exact Hall]. apply Hroot. reflexivity.
Defined.

(** *** Determinism *)

(** C8. The sequence the ordering returns (and whether it returns at all)
    is the same for any two ways of iterating sets, both from one root
    with any traversal state and for the order of construction over the
    whole registry; traversal state is an argument, so two invocations
    that start from fresh state on the same registry are the same
    computation. *)
Theorem order_is_deterministic h1 h2 agents :
  (forall fuel root w,
     returned_value <$> get_parallel_dependencies h1 fuel agents root w
     = returned_value <$> get_parallel_dependencies h2 fuel agents root w) /\
  returned_value (build_order h1 agents) = returned_value (build_order h2 agents).
Proof.
  split.
  - intros fuel root w. apply gpd_hash_order.
  - apply build_order_loop_hash_order.
Qed.

End OrderTheorems.

(** ** Prompt messages *)

Section MultipartFacts.
Import Multipart.
Implicit Types (g : PromptMessageMultipart) (msg : PromptMessage) (st : grouping).

Lemma flatten_app l1 l2 : flatten (l1 ++ l2) = flatten l1 ++ flatten l2.
Proof. unfold flatten. by rewrite map_app, concat_app. Qed.

Lemma flatten_singleton g : flatten [g] = from_multipart g.
Proof. unfold flatten. simpl. by rewrite app_nil_r. Qed.

Lemma alternating_snoc l g :
  alternating (l ++ [g]) <->
  alternating l /\ (forall g', last l = Some g' -> role g' <> role g).
Proof.
  induction l as [|g1 l IH]; simpl.
  - split; [|done]. intros _. split; [done|]. by intros g' [=].
  - destruct l as [|g2 l]; simpl in *.
    + split.
      * intros [? _]. split; [done|]. by intros g' [= <-].
      * intros [_ H]. split; [|done]. by apply H.
    + rewrite IH. tauto.
Qed.

Lemma group_step_grouped st seen msg :
  grouped st seen -> grouped (group_step st msg) (seen ++ [msg]).
Proof.
  intros (Hflat & Hne & Halt & Hrole & Hnone). unfold group_step.
  destruct (decide (Some (pm_role msg) <> current_role st)) as [Hchange|Hsame].
  - unfold grouped, groups_of in *. simpl. split_and!; [| | |done..].
    + rewrite flatten_app, Hflat, flatten_singleton. by destruct msg.
    + apply Forall_app. split; [done|]. by apply Forall_singleton.
    + apply alternating_snoc. split; [done|]. intros g' Hg'. simpl.
      destruct (current_group st) as [g|]; simpl in *.
      * rewrite last_snoc in Hg'. injection Hg' as <-. congruence.
      * by rewrite Hnone in Hg'.
  - apply dec_stable in Hsame. unfold grouped, groups_of in *.
    rewrite Hrole in Hsame.
    destruct (current_group st) as [g|] eqn:Hg; simplify_eq/=.
    apply Forall_app in Hne as [Hne1 Hne2].
    apply alternating_snoc in Halt as [Halt1 Halt2].
    rewrite flatten_app, flatten_singleton in *.
    split_and!; [| | |done..].
    + unfold from_multipart. simpl. rewrite map_app, app_assoc. simpl.
      destruct msg as [r c]; simplify_eq/=. by rewrite flatten_app, flatten_singleton.
    + apply Forall_app. split; [done|]. apply Forall_singleton. simpl.
      by destruct (content g).
    + apply alternating_snoc. split; [done|]. simpl. done.
Qed.

Lemma fold_group_step_grouped messages st seen :
  grouped st seen -> grouped (fold_left group_step messages st) (seen ++ messages).
Proof.
  revert st seen. induction messages as [|msg rest IH]; intros st seen Hst; simpl.
  - by rewrite app_nil_r.
  - replace (seen ++ msg :: rest) with ((seen ++ [msg]) ++ rest) by by rewrite <- app_assoc.
    by apply IH, group_step_grouped.
Qed.

Lemma to_multipart_grouped messages :
  flatten (to_multipart messages) = messages /\
  Forall (fun g => content g <> []) (to_multipart messages) /\
  alternating (to_multipart messages).
Proof.
  destruct messages as [|msg rest]; [by repeat split|].
  pose proof (fold_group_step_grouped (msg :: rest)
    {| result_list := []; current_group := None; current_role := None |} []) as H.
  destruct H as (? & ? & ? & _); [by repeat split|]. done.
Qed.

Example to_multipart_three_runs :
  to_multipart
    [{| pm_role := user; pm_content := TextContent "a" |};
     {| pm_role := user; pm_content := ImageContent "QUJD" "image/png" |};
     {| pm_role := assistant; pm_content := TextContent "b" |};
     {| pm_role := user; pm_content := TextContent "c" |}]
  = [{| role := user; content := [TextContent "a"; ImageContent "QUJD" "image/png"] |};
     {| role := assistant; content := [TextContent "b"] |};
     {| role := user; content := [TextContent "c"] |}].
Proof. reflexivity. Qed.

(** A group stands for messages of its own role only. *)
Lemma from_multipart_role g :
  Forall (fun msg => pm_role msg = role g) (from_multipart g).
Proof. unfold from_multipart. apply Forall_fmap. by apply Forall_true. Qed.

(** C10. Concatenating [from_multipart] over [to_multipart messages] gives
    [messages] back; each group is a non-empty run of consecutive messages
    that all carry the group's role, and neighbouring groups have different
    roles, so the groups are exactly the maximal runs of equal role; the
    empty list maps to the empty list. *)
Theorem to_multipart_round_trip (messages : list PromptMessage) :
  flatten (to_multipart messages) = messages /\
  Forall (fun g => content g <> [] /\
                   Forall (fun msg => pm_role msg = role g) (from_multipart g))
    (to_multipart messages) /\
  alternating (to_multipart messages) /\
  to_multipart [] = [] /\ flatten [] = [].
Proof.
  destruct (to_multipart_grouped messages) as (Hflat & Hne & Halt).
  split_and!; [done| |done..].
  eapply Forall_impl; [exact Hne|]. intros g Hg. split; [done|apply from_multipart_role].
Qed.

End MultipartFacts.

Section PromptLoadFacts.
Import Multipart PromptLoad.

(** C9. Whatever the file and whatever [load_prompt] would do with it,
    [load_prompt_multipart] raises [AttributeError] for the attribute
    [flatten], which the class body does not define, provided the base
    class supplies no attribute of that name. *)
Theorem load_prompt_multipart_raises inherited_attributes call_attribute load_prompt file :
  "flatten" ∉ inherited_attributes ->
  "flatten" ∉ defined_methods /\
  load_prompt_multipart inherited_attributes call_attribute load_prompt file
    = Raise (AttributeError "flatten").
Proof.
  intros Hbase.
  assert ("flatten" ∉ defined_methods) as Hdef.
  { unfold defined_methods. set_solver. }
  split; [done|]. unfold load_prompt_multipart, class_getattr.
  rewrite decide_False; [done|]. intros [?|?]%elem_of_app; done.
Qed.

Lemma load_prompt_multipart_raises_witness :
  "flatten" ∉ defined_methods /\
  load_prompt_multipart some_base_attributes
      (fun _ messages => Ok (to_multipart messages))
      (fun _ => Ok [{| pm_role := user; pm_content := TextContent "hello" |}])
      ["prompt.txt"; "home"]
    = Raise (AttributeError "flatten").
Proof.
  apply load_prompt_multipart_raises. unfold some_base_attributes.
  set_solver.
Defined.

End PromptLoadFacts.

(** ** Loading settings *)

Section Loading.
Import Config.

Example find_config_project :
  find_config project_files = Some ["fastagent.config.yaml"; "app"; "work"].
Proof. reflexivity. Qed.

Example get_settings_project :
  get_settings accept_all project_files None None
  = (Ok {| execution_engine := "asyncio"; default_model := Some "sonnet";
           other_settings :=
             [("openai", YMap [("base_url", YStr "https://example.test");
                               ("api_key", YStr "k")])] |},
     Some {| execution_engine := "asyncio"; default_model := Some "sonnet";
             other_settings :=
               [("openai", YMap [("base_url", YStr "https://example.test");
                                 ("api_key", YStr "k")])] |}).
Proof. reflexivity. Qed.

Lemma deep_merge_empty base : deep_merge base [] = base.
Proof. reflexivity. Qed.

End Loading.

(** ** Model precedence *)

Section Precedence.
Import Config DecoratorApp.

Variable Factory : Type.
Variable parse_model_string : option string -> result string.
Variable create_factory : option string -> RequestParams -> result Factory.
Variable RequestParams_defaults : RequestParams.
Variable repr_request_params : option RequestParams -> string.

Local Abbreviation get_model_factory :=
  (DecoratorApp.get_model_factory Factory create_factory RequestParams_defaults
     repr_request_params).
Local Abbreviation printed_lines := (DecoratorApp.printed_lines repr_request_params).

(** The factory is created for the resolved model, with request parameters
    whose model is the resolved one. *)
Lemma get_model_factory_result self model request_params :
  (get_model_factory self model request_params).1
  = create_factory (resolved_model_spec self model)
      (with_model (default RequestParams_defaults request_params)
         (resolved_model_spec self model)).
Proof.
  unfold DecoratorApp.get_model_factory, resolved_model_spec, io_bind, print, io_ret, io_lift.
  destruct (truthy (args_model self)), (truthy model), request_params; reflexivity.
Qed.

Lemma get_model_factory_printed self model request_params :
  (get_model_factory self model request_params).2 = printed_lines self model request_params.
Proof.
  unfold DecoratorApp.get_model_factory, printed_lines, resolved_model_spec,
    io_bind, print, io_ret, io_lift.
  destruct (truthy (args_model self)), (truthy model), request_params; reflexivity.
Qed.

Lemma Settings_init_default_model validate_nested env kwargs settings :
  Settings_init validate_nested env kwargs = Ok settings ->
  default_model settings
  = match Dict.get kwargs "default_model" with
    | Some (YStr s) => Some s
    | Some _ => None
    | None =>
        match env_value env "default_model" with
        | Some s => Some s
        | None => Some "haiku"
        end
    end.
Proof.
  unfold Settings_init. intros H.
  repeat case_match; simplify_eq/=; done.
Qed.

End Precedence.

(** C1 (amended). The resolved model is the call-site model when that is
    neither null nor the empty string; else the command-line model when
    that is neither null nor empty; else the value the file configuration
    gives [default_model] when it has that key (a null there is kept);
    else the variable [DEFAULT_MODEL] of the process environment; else
    that of the [.env] file; else the baseline ["haiku"].  The factory is
    created for exactly that model.  With baseline ["haiku"], file model
    ["sonnet"] and no command-line override, call-site ["gpt-4o"] resolves
    to ["gpt-4o"] and an omitted call-site model to ["sonnet"], whatever
    the environment holds. *)
Theorem model_precedence :
  (forall Factory create_factory defaults repr validate_nested env file_config cli call_site
          registry settings request_params,
     Config.Settings_init validate_nested env file_config = Ok settings ->
     let self := {| DecoratorApp.args_model := cli;
                    DecoratorApp.context_config := settings;
                    DecoratorApp.agents := registry |} in
     let resolved := DecoratorApp.resolved_model_spec self call_site in
     resolved
       = (if truthy call_site then call_site
          else if truthy cli then cli
          else match Dict.get file_config "default_model" with
               | Some (Config.YStr s) => Some s
               | Some _ => None
               | None =>
                   match Dict.get (Config.os_environ env) "default_model" with
                   | Some s => Some s
                   | None =>
                       match Dict.get (Config.dotenv env) "default_model" with
                       | Some s => Some s
                       | None => Some "haiku"
                       end
                   end
               end) /\
     (DecoratorApp.get_model_factory Factory create_factory defaults repr
        self call_site request_params).1
       = create_factory resolved
           (DecoratorApp.with_model (default defaults request_params) resolved)) /\
  Config.baseline_default_model = Some "haiku" /\
  (forall validate_nested env settings registry,
     Config.Settings_init validate_nested env [("default_model", Config.YStr "sonnet")]
       = Ok settings ->
     let self := {| DecoratorApp.args_model := None;
                    DecoratorApp.context_config := settings;
                    DecoratorApp.agents := registry |} in
     DecoratorApp.resolved_model_spec self (Some "gpt-4o") = Some "gpt-4o" /\
     DecoratorApp.resolved_model_spec self None = Some "sonnet").
Proof.
  split_and!.
  - intros Factory create_factory defaults repr validate_nested env file_config cli call_site
      registry settings request_params Hinit self resolved. split.
    + subst resolved self. unfold DecoratorApp.resolved_model_spec. simpl.
      rewrite (Settings_init_default_model _ _ _ _ Hinit). unfold Config.env_value.
      destruct (truthy call_site), (truthy cli); try done.
      by repeat case_match.
    + apply get_model_factory_result.
  - done.
  - intros validate_nested env settings registry Hinit self. subst self.
    unfold DecoratorApp.resolved_model_spec. simpl.
    by rewrite (Settings_init_default_model _ _ _ _ Hinit).
Qed.

Lemma model_precedence_witness :
  let self := {| DecoratorApp.args_model := Some "o3-mini";
                 DecoratorApp.context_config :=
                   {| Config.execution_engine := "asyncio";
                      Config.default_model := Some "opus";
                      Config.other_settings := [("logger", Config.YNull)] |};
                 DecoratorApp.agents := [] |} in
  let resolved := DecoratorApp.resolved_model_spec self (Some "") in
  resolved
    = (if truthy (Some "") then Some ""
       else if truthy (Some "o3-mini") then Some "o3-mini"
       else match Dict.get [("logger", Config.YNull)] "default_model" with
            | Some (Config.YStr s) => Some s
            | Some _ => None
            | None =>
                match Dict.get (Config.os_environ Config.dotenv_model) "default_model" with
                | Some s => Some s
                | None =>
                    match Dict.get (Config.dotenv Config.dotenv_model) "default_model" with
                    | Some s => Some s
                    | None => Some "haiku"
                    end
                end
            end) /\
  (DecoratorApp.get_model_factory string (fun spec _ => Ok (fmt spec))
     DecoratorApp.some_defaults (fun _ => "RequestParams") self (Some "") None).1
    = (fun spec _ => Ok (fmt spec)) resolved
        (DecoratorApp.with_model (default DecoratorApp.some_defaults None) resolved).
Proof.
  apply (proj1 model_precedence string (fun spec _ => Ok (fmt spec))
           DecoratorApp.some_defaults (fun _ => "RequestParams") Config.accept_all
           Config.dotenv_model [("logger", Config.YNull)] (Some "o3-mini") (Some "") []).
  reflexivity.
Defined.

(** The call-site model [""] is not null, yet it is skipped in favour of
    the command-line model; a file configuration that sets
    [default_model] to null leaves no model at all, although the baseline
    has one; and with no model in the file configuration a [.env] file
    that names one decides, not the baseline. *)
Lemma empty_or_null_model_not_first_non_null :
  (exists settings,
     Config.Settings_init Config.accept_all Config.clean_env [] = Ok settings /\
     DecoratorApp.resolved_model_spec
       {| DecoratorApp.args_model := Some "sonnet";
          DecoratorApp.context_config := settings;
          DecoratorApp.agents := [] |} (Some "") = Some "sonnet" /\
     DecoratorApp.spec_resolved_model (Some "") (Some "sonnet")
       (DecoratorApp.file_model []) Config.baseline_default_model = Some "") /\
  (exists settings,
     Config.Settings_init Config.accept_all Config.clean_env
       [("default_model", Config.YNull)] = Ok settings /\
     DecoratorApp.resolved_model_spec
       {| DecoratorApp.args_model := None;
          DecoratorApp.context_config := settings;
          DecoratorApp.agents := [] |} None = None /\
     DecoratorApp.spec_resolved_model None None
       (DecoratorApp.file_model [("default_model", Config.YNull)])
       Config.baseline_default_model = Some "haiku") /\
  (exists settings,
     Config.Settings_init Config.accept_all Config.dotenv_model [] = Ok settings /\
     DecoratorApp.resolved_model_spec
       {| DecoratorApp.args_model := None;
          DecoratorApp.context_config := settings;
          DecoratorApp.agents := [] |} None = Some "opus" /\
     DecoratorApp.spec_resolved_model None None
       (DecoratorApp.file_model []) Config.baseline_default_model = Some "haiku").
Proof.
  split_and!; eexists; (split; [reflexivity|]); by split.
Qed.

(** ** What model resolution depends on *)

Section Purity.
Import Config DecoratorApp.

(** Loading [b.yaml] gives its settings only while the module-level cache
    is empty: after [a.yaml] has been loaded once, the same call on the
    same files returns the settings of [a.yaml], and the model resolved
    from them differs.  And with the cache empty, the same call on the
    same files gives another model when the [.env] file names one. *)
Lemma get_settings_depends_on_cache :
  get_settings accept_all two_files (Some path_a) None
    = (Ok (settings_with "sonnet"), Some (settings_with "sonnet")) /\
  get_settings accept_all two_files (Some path_b) None
    = (Ok (settings_with "opus"), Some (settings_with "opus")) /\
  get_settings accept_all two_files (Some path_b)
      (get_settings accept_all two_files (Some path_a) None).2
    = (Ok (settings_with "sonnet"), Some (settings_with "sonnet")) /\
  resolved_model_spec
    {| args_model := None; context_config := settings_with "opus"; agents := [] |} None
    = Some "opus" /\
  resolved_model_spec
    {| args_model := None; context_config := settings_with "sonnet"; agents := [] |} None
    = Some "sonnet" /\
  files two_files_dotenv = files two_files /\
  cwd two_files_dotenv = cwd two_files /\
  (get_settings accept_all two_files None None).1 = Ok (settings_with "haiku") /\
  (get_settings accept_all two_files_dotenv None None).1 = Ok (settings_with "opus").
Proof. by split_and!. Qed.

End Purity.

(** ** The builders *)

Lemma io_bind_ok {A B} (m : io A) (k : A -> io B) b :
  (io_bind m k).1 = Ok b -> exists a, m.1 = Ok a /\ (k a).1 = Ok b.
Proof. unfold io_bind. destruct m as [[a|e] l]; simpl; [eauto|done]. Qed.

Lemma io_bind_fst {A B} (m : io A) (k : A -> io B) :
  (io_bind m k).1 = match m.1 with Ok a => (k a).1 | Raise e => Raise e end.
Proof. unfold io_bind. by destruct m as [[a|e] l]. Qed.

Lemma contains_keys {V} (d : Dict.t V) k : Dict.contains d k = true <-> k ∈ Dict.keys d.
Proof.
  unfold Dict.contains. rewrite bool_decide_eq_true.
  induction d as [|[k' v] d IH]; simpl.
  - split; [by intros [? ?]|by intros ?%elem_of_nil].
  - case_decide; subst.
    + split; [left|eauto].
    + rewrite IH. split; [by right|]. by intros [?|?]%elem_of_cons.
Qed.

Lemma keys_set_new {V} (d : Dict.t V) k v :
  k ∉ Dict.keys d -> Dict.keys (Dict.set d k v) = Dict.keys d ++ [k].
Proof.
  induction d as [|[k' v'] d IH]; simpl; [done|]. intros Hk.
  apply not_elem_of_cons in Hk as [Hne Hk]. rewrite decide_False by done.
  simpl. f_equal. by apply IH.
Qed.

Section ParallelBuilder.
Import DecoratorApp.
Variable Factory : Type.
Variable create_factory : option string -> RequestParams -> result Factory.
Variable RequestParams_defaults : RequestParams.
Variable repr_request_params : option RequestParams -> string.
Variable hash_order : gset string -> list string.

Local Abbreviation create_ordered :=
  (DecoratorApp.create_ordered Factory create_factory RequestParams_defaults
     repr_request_params).
Local Abbreviation create_parallel_loop :=
  (DecoratorApp.create_parallel_loop Factory create_factory RequestParams_defaults
     repr_request_params hash_order).
Local Abbreviation create_parallel_agents :=
  (DecoratorApp.create_parallel_agents Factory create_factory RequestParams_defaults
     repr_request_params hash_order).

Lemma create_ordered_keys self active ordered pa pa' :
  (create_ordered self active ordered pa).1 = Ok pa' ->
  Dict.keys pa' = append_new ordered (Dict.keys pa).
Proof.
  revert pa. induction ordered as [|n rest IH]; intros pa; simpl.
  - by intros [= <-].
  - destruct (Dict.contains pa n) eqn:Hc.
    + apply contains_keys in Hc. rewrite decide_True by done. apply IH.
    + assert (n ∉ Dict.keys pa) as Hn.
      { intros Hin%contains_keys. congruence. }
      rewrite decide_False by done.
      intros (node & _ & Hrest)%io_bind_ok. apply IH in Hrest.
      by rewrite keys_set_new in Hrest.
Qed.

(** The keys of the dictionary [_create_parallel_agents] returns, in
    insertion order, are the order of construction. *)
Lemma create_parallel_loop_keys self active names v pa pa' :
  (create_parallel_loop self active names v pa).1 = Ok pa' ->
  build_order_loop hash_order (agents self) names v (Dict.keys pa) = Ok (Dict.keys pa').
Proof.
  revert v pa. induction names as [|name rest IH]; intros v pa;
    cbn [DecoratorApp.create_parallel_loop build_order_loop].
  - by intros [= <-].
  - case_decide; [apply IH|].
    destruct (get_parallel_dependencies _ _ _ _ _) as [[[ordered w]|e]|]; [| |done].
    + intros (pa1 & Hbuilt & Hrest)%io_bind_ok.
      apply create_ordered_keys in Hbuilt. rewrite <- Hbuilt. by apply IH.
    + by destruct e.
Qed.

Lemma create_parallel_agents_keys self active pa :
  (create_parallel_agents self active).1 = Ok pa ->
  build_order hash_order (agents self) = Ok (Dict.keys pa).
Proof. apply create_parallel_loop_keys. Qed.

(** With a cycle among the parallel agents, [_create_parallel_agents]
    does not return. *)
Lemma create_parallel_agents_cycle_fails self active c :
  tc (fan_out_edge (agents self)) c c ->
  returned_value (create_parallel_agents self active).1 = None.
Proof.
  intros Hcyc. destruct (create_parallel_agents self active).1 as [pa|e] eqn:Hrun; [|done].
  apply create_parallel_agents_keys in Hrun.
  destruct (build_order_no_cycle _ _ _ c Hrun Hcyc).
Qed.

(** When it returns, the dictionary it returns lists every registered
    parallel agent once, each after the parallel agents it fans out to. *)
Lemma create_parallel_agents_topological self active pa :
  (create_parallel_agents self active).1 = Ok pa ->
  NoDup (Dict.keys pa) /\
  (forall n, is_parallel (agents self) n -> n ∈ Dict.keys pa) /\
  forall a b, a ∈ Dict.keys pa -> fan_out_edge (agents self) a b ->
    is_parallel (agents self) b -> before (Dict.keys pa) b a.
Proof.
  intros Hrun%create_parallel_agents_keys. by apply build_order_topological in Hrun.
Qed.

End ParallelBuilder.

(** ** Unresolved references *)

Section UnresolvedReferences.
Import DecoratorApp.

Lemma lookup_all_missing {F} (active : Dict.t (RuntimeNode F)) names :
  match lookup_all F active names with
  | Ok nodes => Forall (fun n => is_Some (Dict.get active n)) names
  | Raise e => exists n, e = KeyError n /\ n ∈ names /\ Dict.get active n = None
  end.
Proof.
  induction names as [|n rest IH]; simpl; [done|].
  unfold Dict.subscript. destruct (Dict.get active n) as [a|] eqn:Hn; simpl.
  - destruct (lookup_all F active rest) as [nodes|e]; simpl.
    + constructor; [by eexists|done].
    + destruct IH as (m & -> & ? & ?). exists m. split_and!; [done|by right|done].
  - exists n. split_and!; [done|by left|done].
Qed.

(** A missing optimizer or evaluator is reported by a [ValueError] that
    names both references. *)
Lemma create_evaluator_optimizer_missing F create_factory defaults repr self active
    name optimizer evaluator min_rating max_refinements :
  Dict.get active optimizer = None \/ Dict.get active evaluator = None ->
  exists msg,
    create_evaluator_optimizer F create_factory defaults repr self active
      name optimizer evaluator min_rating max_refinements
    = (Raise (ValueError msg), []) /\
    mentions msg name /\ mentions msg optimizer /\ mentions msg evaluator.
Proof.
  intros Hmissing. eexists. split.
  - unfold create_evaluator_optimizer.
    destruct (Dict.get active optimizer), (Dict.get active evaluator);
      try reflexivity. by destruct Hmissing.
  - split_and!.
    + apply mentions_prefix, mentions_suffix, mentions_refl.
    + do 4 apply mentions_prefix. apply mentions_suffix, mentions_refl.
    + do 7 apply mentions_prefix. apply mentions_refl.
Qed.

(** C5. Building the orchestrator [orch], whose child [missing] is not
    among the built agents, ends in the [KeyError] of the dictionary
    subscript (unless the model factory fails first), not in a
    configuration error; the evaluator-optimizer builder reports the same
    missing name by a [ValueError] naming it. *)
Theorem missing_orchestrator_child_is_a_KeyError :
  (forall Factory parse_model_string create_factory defaults repr cli settings,
     let self := {| args_model := cli; context_config := settings;
                    agents := missing_child_registry |} in
     let r := (create_orchestrators Factory parse_model_string create_factory defaults repr
                 self built_basic).1 in
     r = Raise (KeyError "missing") \/
     exists e, r = Raise e /\
       (parse_model_string (Some "sonnet") = Raise e \/
        exists spec params, create_factory spec params = Raise e)) /\
  (forall cli settings,
     let self := {| args_model := cli; context_config := settings;
                    agents := missing_child_registry |} in
     (create_orchestrators unit (fun m => Ok (default "" m)) (fun _ _ => Ok tt)
        {| rp_model := None; rp_use_history := true; rp_maxTokens := 2048 |}
        (fun _ => "RequestParams") self built_basic).1
     = Raise (KeyError "missing")) /\
  (forall Factory create_factory defaults repr cli settings,
     let self := {| args_model := cli; context_config := settings;
                    agents := missing_child_registry |} in
     (create_evaluator_optimizers Factory create_factory defaults repr self built_basic).1
     = Raise (ValueError
                "Missing agents for workflow refine: optimizer=worker, evaluator=missing")).
Proof.
  split_and!.
  - intros Factory parse create defaults repr cli settings self r. subst r.
    unfold create_orchestrators. simpl.
    rewrite io_bind_fst. unfold create_orchestrator.
    rewrite io_bind_fst. simpl.
    destruct (parse (Some "sonnet")) as [m|e] eqn:Hparse; [|right; eauto].
    rewrite io_bind_fst, get_model_factory_result.
    destruct (create _ _) as [f|e] eqn:Hcreate; [|right; eauto 10].
    left. reflexivity.
  - intros cli settings self. unfold create_orchestrators. simpl.
    rewrite io_bind_fst. unfold create_orchestrator.
    rewrite io_bind_fst. simpl.
    rewrite io_bind_fst, get_model_factory_result. reflexivity.
  - intros. reflexivity.
Qed.

End UnresolvedReferences.

(** ** The application lifecycle *)

Section Lifecycle.
Import App.

Lemma teardowns_app evs1 evs2 : teardowns (evs1 ++ evs2) = teardowns evs1 + teardowns evs2.
Proof. unfold teardowns. by rewrite filter_app, length_app. Qed.

(** Three ways in which a run scope differs from "teardown exactly once,
    teardown errors swallowed, nothing carried over".  A teardown that
    fails with an error other than cancellation: the scope ends with the
    teardown's error in place of the body's, nothing is logged about it,
    the application stays initialized with the old context, and the next
    scope does not initialize again.  A scope nested in a scope: the two
    exits call [cleanup_context] once between them, the outer exit not at
    all.  A workflow registered in one scope is still registered after the
    scope has ended and in the next scope. *)
Lemma teardown_error_propagates :
  let ended := run (Ok (context_of "haiku")) (Raise (RuntimeError "teardown failed"))
                 failing_body new_app in
  let nested := run (Ok (context_of "haiku")) (Ok tt)
                  (run (Ok (context_of "sonnet")) (Ok tt) idle_body) new_app in
  let first := run (Ok (context_of "haiku")) (Ok tt) registering_body new_app in
  ended.1 = Raise (RuntimeError "teardown failed") /\
  trace ended.2 = [InitializeContext; LogInfo "MCPAgent initialized";
                   LogInfo "MCPAgent cleanup"; CleanupContext] /\
  initialized ended.2 = true /\
  context ended.2 = Some (context_of "haiku") /\
  (initialize (Ok (context_of "sonnet")) ended.2).2 = ended.2 /\
  (decorator_run (Ok (context_of "haiku")) (Ok tt) (fun a => (Ok ["worker"], a))
     (fun _ => Raise (RuntimeError "agent exit failed")) failing_body new_app).1
  = Raise (RuntimeError "agent exit failed") /\
  trace nested.2 = [InitializeContext; LogInfo "MCPAgent initialized";
                    LogInfo "MCPAgent cleanup"; CleanupContext] /\
  teardowns (trace nested.2) = 1 /\
  workflows new_app = [] /\
  workflows first.2 = [("MyWorkflow", "MyWorkflow")] /\
  workflows (run (Ok (context_of "sonnet")) (Ok tt) idle_body first.2).2
  = [("MyWorkflow", "MyWorkflow")].
Proof. by split_and!. Qed.

Lemma teardowns_snoc_cleanup evs rest :
  teardowns rest = 0 ->
  teardowns (evs ++ LogInfo "MCPAgent cleanup" :: CleanupContext :: rest) = S (teardowns evs).
Proof.
  intros Hrest. rewrite teardowns_app.
  change (LogInfo "MCPAgent cleanup" :: CleanupContext :: rest)
    with ([LogInfo "MCPAgent cleanup"; CleanupContext] ++ rest).
  rewrite teardowns_app, Hrest. unfold teardowns at 2. simpl. lia.
Qed.

(** What [initialize] leaves: an initialized application when it returns,
    and no teardown either way. *)
Lemma initialize_spec created app :
  teardowns (trace (initialize created app).2) = teardowns (trace app) /\
  match (initialize created app).1 with
  | Ok _ => initialized (initialize created app).2 = true
  | Raise e => created = Raise e /\ initialized app = false /\
               initialized (initialize created app).2 = false
  end.
Proof.
  unfold initialize. destruct (initialized app) eqn:Hi; [done|].
  destruct created as [c|e]; cbn [fst snd set_lifecycle trace initialized];
    rewrite teardowns_app; unfold teardowns at 2; simpl; (split; [lia|done]).
Qed.

(** The exit of a scope, [cleanup] on an initialized application. *)
Lemma cleanup_spec torn_down app :
  initialized app = true ->
  workflows (cleanup torn_down app).2 = workflows app /\
  functions (cleanup torn_down app).2 = functions app /\
  teardowns (trace (cleanup torn_down app).2) = S (teardowns (trace app)) /\
  (torn_down = Ok tt \/ torn_down = Raise CancelledError ->
     (cleanup torn_down app).1 = Ok tt /\
     initialized (cleanup torn_down app).2 = false /\
     context (cleanup torn_down app).2 = None /\
     (torn_down = Raise CancelledError ->
        last (trace (cleanup torn_down app).2)
        = Some (LogDebug "Cleanup cancelled error during shutdown"))) /\
  (forall e, torn_down = Raise e -> e <> CancelledError ->
     (cleanup torn_down app).1 = Raise e /\
     initialized (cleanup torn_down app).2 = true /\
     context (cleanup torn_down app).2 = context app /\
     trace (cleanup torn_down app).2
     = trace app ++ [LogInfo "MCPAgent cleanup"; CleanupContext]).
Proof.
  intros Hi. unfold cleanup. rewrite Hi. cbn [negb].
  destruct torn_down as [[]|e].
  - cbn [fst snd set_lifecycle trace initialized context workflows functions].
    split_and!; [done|done|by apply teardowns_snoc_cleanup| |by intros e [=]].
    intros _. split_and!; [done..|]. by intros [=].
  - destruct e; cbn [fst snd set_lifecycle trace initialized context workflows functions];
      (split_and!; [done|done|by apply teardowns_snoc_cleanup| |]);
      try (by intros [[=]|[=]]); try (intros e' [= <-] He'; by split_and!).
    + intros _. split_and!; [done..|]. intros _.
      match goal with
      | |- last (?t ++ [?x; ?y; ?z]) = _ =>
          replace (t ++ [x; y; z]) with ((t ++ [x; y]) ++ [z]) by (by rewrite <- app_assoc)
      end.
      by rewrite last_snoc.
Qed.

(** C6 (amended). A run scope whose context cannot be created ends with
    that error; its body does not run and [cleanup_context] is not called.
    Otherwise the application is initialized when the body starts, and
    when the body ends, normally or by an exception, the exit calls
    [cleanup_context] exactly once if the application is still
    initialized, and not at all if the body has already cleaned it up (as
    the exit of a nested scope does).  If that teardown returns or is
    cancelled, the scope ends the way the body ended, the cancellation is
    logged, and the application is left uninitialized without a context,
    so that the next scope calls [initialize_context] again and runs on
    the context that call creates.  If the teardown fails in another way,
    its error replaces the way the body ended, nothing is logged about it,
    and the application stays initialized on its old context, so that the
    next scope initializes nothing.  The workflow table and the function
    objects are what the body left, whatever the teardown did. *)
Theorem run_scope_tears_down_once created torn_down body app :
  match initialize created app with
  | (Raise e, entered) =>
      created = Raise e /\ initialized app = false /\
      run created torn_down body app = (Raise e, entered) /\
      teardowns (trace entered) = teardowns (trace app)
  | (Ok _, entered) =>
      initialized entered = true /\
      teardowns (trace entered) = teardowns (trace app) /\
      match body entered, run created torn_down body app with
      | (outcome, inside), (ended, exited) =>
          workflows exited = workflows inside /\
          functions exited = functions inside /\
          if initialized inside then
            teardowns (trace exited) = S (teardowns (trace inside)) /\
            (torn_down = Ok tt \/ torn_down = Raise CancelledError ->
             ended = outcome /\ initialized exited = false /\ context exited = None /\
             (torn_down = Raise CancelledError ->
              last (trace exited) = Some (LogDebug "Cleanup cancelled error during shutdown")) /\
             forall ctx2,
               (initialize (Ok ctx2) exited).1 = Ok tt /\
               context (initialize (Ok ctx2) exited).2 = Some ctx2 /\
               initialized (initialize (Ok ctx2) exited).2 = true /\
               trace (initialize (Ok ctx2) exited).2
               = trace exited ++ [InitializeContext; LogInfo "MCPAgent initialized"]) /\
            (forall e, torn_down = Raise e -> e <> CancelledError ->
             ended = Raise e /\ initialized exited = true /\ context exited = context inside /\
             trace exited = trace inside ++ [LogInfo "MCPAgent cleanup"; CleanupContext] /\
             forall created2, initialize created2 exited = (Ok tt, exited))
          else ended = outcome /\ exited = inside
      end
  end.
Proof.
  pose proof (initialize_spec created app) as [Ht Hinit]. unfold run.
  destruct (initialize created app) as [[[]|e] entered]; cbn [fst snd] in *.
  2:{ by destruct Hinit as (-> & -> & _). }
  split; [done|]. split; [done|].
  destruct (body entered) as [outcome inside].
  destruct (initialized inside) eqn:Hi.
  2:{ unfold cleanup. rewrite Hi. done. }
  pose proof (cleanup_spec torn_down inside Hi) as (Hw & Hf & Hn & Hclean & Hfail).
  destruct (cleanup torn_down inside) as [[[]|e] exited] eqn:Hc; cbn [fst snd] in *.
  - split_and!; [done..| |].
    + intros Htd. destruct (Hclean Htd) as (_ & Hi' & Hctx & Hlog).
      split_and!; [done..|]. intros ctx2. unfold initialize. rewrite Hi'. done.
    + intros e He Hne. by destruct (Hfail e He Hne) as ([=] & _).
  - split_and!; [done..| |].
    + intros Htd. by destruct (Hclean Htd) as ([=] & _).
    + intros e' He Hne. destruct (Hfail e' He Hne) as ([= ->] & Hi' & Hctx & Htr).
      split_and!; [done..|]. intros created2. unfold initialize. by rewrite Hi'.
Qed.

End Lifecycle.

(** ** Workflow tasks *)

Section WorkflowTask.
Import App.

Lemma get_set {V} (d : Dict.t V) k k' v :
  Dict.get (Dict.set d k v) k' = if decide (k = k') then Some v else Dict.get d k'.
Proof.
  induction d as [|[k0 v0] d IH]; simpl.
  - by destruct (decide (k = k')).
  - destruct (decide (k0 = k)) as [->|Hne]; simpl.
    + by destruct (decide (k = k')).
    + rewrite IH. destruct (decide (k0 = k')) as [->|]; [|done].
      by rewrite decide_False.
Qed.





End WorkflowTask.

(** * Further properties *)

(** ** Dictionaries *)

Section DictFacts.
Context {V : Type}.
Implicit Types (d : Dict.t V) (k : string) (v : V).

Lemma keys_set d k v :
  Dict.keys (Dict.set d k v) = if decide (k ∈ Dict.keys d) then Dict.keys d else Dict.keys d ++ [k].
Proof.
  induction d as [|[k' v'] d IH]; simpl; [done|].
  destruct (decide (k' = k)) as [->|Hne]; simpl.
  - rewrite decide_True; [done|left].
  - rewrite IH. destruct (decide (k ∈ Dict.keys d)) as [Hin|Hin].
    + rewrite decide_True; [done|by right].
    + rewrite decide_False; [done|]. by intros [?|?]%elem_of_cons.
Qed.

Lemma get_None_keys d k : Dict.get d k = None <-> k ∉ Dict.keys d.
Proof.
  induction d as [|[k' v'] d IH]; simpl.
  - split; [intros _ ?%elem_of_nil; done|done].
  - destruct (decide (k' = k)) as [->|Hne].
    + split; [done|]. intros H. destruct H. left.
    + rewrite IH. rewrite not_elem_of_cons. naive_solver.
Qed.

Lemma set_NoDup d k v : NoDup (Dict.keys d) -> NoDup (Dict.keys (Dict.set d k v)).
Proof.
  intros Hnd. rewrite keys_set. case_decide; [done|].
  apply NoDup_app. split_and!; [done| |apply NoDup_singleton].
  intros x Hx ->%list_elem_of_singleton. done.
Qed.

End DictFacts.

Lemma filter_ext_elem {A} (P Q : A -> Prop) `{!forall x, Decision (P x)}
    `{!forall x, Decision (Q x)} (l : list A) :
  (forall x, x ∈ l -> P x <-> Q x) -> filter P l = filter Q l.
Proof.
  induction l as [|a l IH]; intros Hext; [done|].
  rewrite !filter_cons.
  destruct (decide (P a)) as [HP|HP], (decide (Q a)) as [HQ|HQ].
  - f_equal. apply IH. intros x Hx. apply Hext. by right.
  - destruct HQ. apply Hext; [left|done].
  - destruct HP. apply Hext; [left|done].
  - apply IH. intros x Hx. apply Hext. by right.
Qed.

(** ** Merging and locating configuration files *)

Section ConfigFacts.
Import Config.

Lemma deep_merge_cons base k v rest :
  deep_merge base ((k, v) :: rest)
  = deep_merge (Dict.set base k (merged_value (Dict.get base k) v)) rest.
Proof.
  unfold deep_merge, merged_value. simpl.
  destruct (Dict.get base k) as [[]|], v; reflexivity.
Qed.

(** X1. Looking a key up in [deep_merge(base, update)]: a key of [update]
    holds the recursive merge when both sides hold a mapping under it and
    the value of [update] otherwise; any other key holds what [base]
    holds. *)
Theorem deep_merge_lookup base update k :
  NoDup (Dict.keys update) ->
  Dict.get (deep_merge base update) k
  = match Dict.get update k with
    | Some v => Some (merged_value (Dict.get base k) v)
    | None => Dict.get base k
    end.
Proof.
  revert base. induction update as [|[k0 v0] rest IH]; intros base Hnd; [done|].
  apply NoDup_cons in Hnd as [Hk0 Hnd]. simpl in Hk0.
  rewrite deep_merge_cons, IH by done. simpl.
  destruct (decide (k0 = k)) as [->|Hne].
  - apply (get_None_keys rest k) in Hk0. rewrite Hk0. rewrite get_set. by rewrite decide_True.
  - rewrite get_set. by rewrite decide_False.
Qed.

Lemma deep_merge_lookup_witness :
  Dict.get (deep_merge [("default_model", YStr "sonnet");
                        ("anthropic", YMap [("base_url", YStr "u")])]
                       [("anthropic", YMap [("api_key", YStr "k")]);
                        ("default_model", YStr "opus")]) "anthropic"
  = match Dict.get [("anthropic", YMap [("api_key", YStr "k")]);
                    ("default_model", YStr "opus")] "anthropic" with
    | Some v => Some (merged_value
                        (Dict.get [("default_model", YStr "sonnet");
                                   ("anthropic", YMap [("base_url", YStr "u")])] "anthropic") v)
    | None => Dict.get [("default_model", YStr "sonnet");
                        ("anthropic", YMap [("base_url", YStr "u")])] "anthropic"
    end.
Proof.
  apply deep_merge_lookup. simpl. apply NoDup_cons. split; [set_solver|].
  apply NoDup_singleton.
Defined.

(** X2. [deep_merge] keeps the keys of [base] in their order and appends
    the keys that only [update] has, in the order of [update]; distinct
    keys stay distinct. *)
Theorem deep_merge_keys base update :
  NoDup (Dict.keys update) ->
  Dict.keys (deep_merge base update)
    = Dict.keys base ++ filter (fun k => k ∉ Dict.keys base) (Dict.keys update) /\
  (NoDup (Dict.keys base) -> NoDup (Dict.keys (deep_merge base update))).
Proof.
  intros Hnd. split.
  - revert base. induction update as [|[k0 v0] rest IH]; intros base.
    { simpl. by rewrite app_nil_r. }
    apply NoDup_cons in Hnd as [Hk0 Hnd]. rewrite deep_merge_cons, IH by done.
    rewrite keys_set. simpl. rewrite filter_cons. simpl.
    destruct (decide (k0 ∈ Dict.keys base)) as [Hin|Hin].
    + by rewrite decide_False by (by intros ?).
    + rewrite decide_True by done. rewrite <- app_assoc. simpl. f_equal. f_equal.
      apply filter_ext_elem. intros x Hx. rewrite elem_of_app, list_elem_of_singleton.
      split; [tauto|]. intros Hnot [?| ->]; [done|]. done.
  - revert base. induction update as [|[k0 v0] rest IH]; intros base Hb; [done|].
    apply NoDup_cons in Hnd as [Hk0 Hnd]. rewrite deep_merge_cons.
    apply IH; [done|]. by apply set_NoDup.
Qed.

Lemma deep_merge_keys_witness :
  Dict.keys (deep_merge [("a", YInt 1); ("b", YInt 2)] [("c", YInt 3); ("a", YInt 4)])
    = Dict.keys [("a", YInt 1); ("b", YInt 2)]
      ++ filter (fun k => k ∉ Dict.keys [("a", YInt 1); ("b", YInt 2)])
           (Dict.keys [("c", YInt 3); ("a", YInt 4)]) /\
  (NoDup (Dict.keys [("a", YInt 1); ("b", YInt 2)]) ->
   NoDup (Dict.keys (deep_merge [("a", YInt 1); ("b", YInt 2)] [("c", YInt 3); ("a", YInt 4)]))).
Proof.
  apply deep_merge_keys. simpl. apply NoDup_cons. split; [set_solver|].
  apply NoDup_singleton.
Defined.

Lemma first_existing_spec fs dir names :
  match first_existing fs dir names with
  | Some f =>
      exists before name after,
        names = before ++ name :: after /\ f = name :: dir /\ is_Some (files fs f) /\
        forall n, n ∈ before -> files fs (n :: dir) = None
  | None => forall n, n ∈ names -> files fs (n :: dir) = None
  end.
Proof.
  induction names as [|n rest IH]; simpl.
  - intros n Hn. by apply elem_of_nil in Hn.
  - unfold exists_file. case_bool_decide as Hex.
    + exists [], n, rest. split_and!; [done..|]. intros m Hm. by apply elem_of_nil in Hm.
    + assert (files fs (n :: dir) = None) as Hn.
      { destruct (files fs (n :: dir)) eqn:E; [|done]. destruct Hex. by eexists. }
      destruct (first_existing fs dir rest) as [f|].
      * destruct IH as (before & name & after & -> & -> & Hf & Hbefore).
        exists (n :: before), name, after. split_and!; [done..|].
        intros m [->|Hm]%elem_of_cons; auto.
      * intros m [->|Hm]%elem_of_cons; auto.
Qed.

Lemma search_up_spec fs names dir :
  match search_up fs names dir with
  | Some f =>
      exists k before name after,
        k < length dir /\ names = before ++ name :: after /\
        f = name :: drop k dir /\ is_Some (files fs f) /\
        (forall n, n ∈ before -> files fs (n :: drop k dir) = None) /\
        (forall j n, j < k -> n ∈ names -> files fs (n :: drop j dir) = None)
  | None =>
      forall j n, j < length dir -> n ∈ names -> files fs (n :: drop j dir) = None
  end.
Proof.
  induction dir as [|c up IH]; simpl.
  - intros j n Hj. lia.
  - pose proof (first_existing_spec fs (c :: up) names) as Hhere.
    destruct (first_existing fs (c :: up) names) as [f|].
    + destruct Hhere as (before & name & after & -> & -> & Hf & Hbefore).
      exists 0, before, name, after. split_and!; [lia|done..|]. intros j n Hj. lia.
    + destruct (search_up fs names up) as [f|].
      * destruct IH as (k & before & name & after & Hk & -> & -> & Hf & Hbefore & Hnear).
        exists (S k), before, name, after. split_and!; [lia|done..|].
        intros [|j] n Hj Hn; [by apply Hhere|]. apply Hnear; [lia|done].
      * intros [|j] n Hj Hn; [by apply Hhere|]. apply IH; [lia|done].
Qed.

(** X3. [Settings.find_config]: the file found lies in the working
    directory or one of its ancestors other than the root, in the nearest
    such directory that holds any of the three configuration names, and is
    the first of the three names that exists there; nothing is found
    exactly when no such directory holds any of them. *)
Theorem find_config_nearest fs :
  match find_config fs with
  | Some f =>
      exists k before name after,
        k < length (cwd fs) /\ config_names = before ++ name :: after /\
        f = name :: drop k (cwd fs) /\ is_Some (files fs f) /\
        (forall n, n ∈ before -> files fs (n :: drop k (cwd fs)) = None) /\
        (forall j n, j < k -> n ∈ config_names -> files fs (n :: drop j (cwd fs)) = None)
  | None =>
      forall j n, j < length (cwd fs) -> n ∈ config_names ->
        files fs (n :: drop j (cwd fs)) = None
  end.
Proof. apply search_up_spec. Qed.

Lemma search_up_from_spec fs names base dir :
  match search_up_from fs names base dir with
  | Some f =>
      exists k name,
        k < length dir /\ name ∈ names /\ f = name :: drop k dir ++ base /\
        is_Some (files fs f)
  | None => True
  end.
Proof.
  induction dir as [|c up IH]; simpl; [done|].
  pose proof (first_existing_spec fs (c :: up ++ base) names) as Hhere.
  destruct (first_existing fs (c :: up ++ base) names) as [f|].
  - destruct Hhere as (before & name & after & -> & -> & Hf & _).
    exists 0, name. split_and!; [lia|set_solver|done..].
  - destruct (search_up_from fs names base up) as [f|]; [|done].
    destruct IH as (k & name & Hk & Hname & -> & Hf).
    exists (S k), name. split_and!; [lia|done..].
Qed.

(** X4. A value of the secrets file replaces the value of the
    configuration file: when the secrets file found for the configuration
    file gives [default_model] a string, the settings loaded carry that
    model, whatever the configuration file says.  The secrets file lies
    in one of the directories of the configuration path as it was
    written, looked up from the working directory when the path is
    relative; so for a path that has no directory part no secrets file is
    read, and the settings are those of the configuration file alone. *)
Theorem secrets_override_config validate_nested fs :
  (forall config_file yaml_settings secrets_file yaml_secrets model settings,
     files fs (locate fs config_file) = Some yaml_settings ->
     find_secrets fs config_file = Some secrets_file ->
     files fs secrets_file = Some yaml_secrets ->
     NoDup (Dict.keys yaml_secrets) ->
     Dict.get yaml_secrets "default_model" = Some (YStr model) ->
     (get_settings validate_nested fs (Some config_file) None).1 = Ok settings ->
     default_model settings = Some model /\
     exists k name,
       k < length (parent (parts config_file)) /\ name ∈ secrets_names /\
       secrets_file
       = name :: drop k (parent (parts config_file))
                 ++ (if is_absolute config_file then [] else cwd fs)) /\
  (forall absolute name yaml_settings,
     files fs (locate fs {| is_absolute := absolute; parts := [name] |}) = Some yaml_settings ->
     (get_settings validate_nested fs
        (Some {| is_absolute := absolute; parts := [name] |}) None).1
     = Settings_init validate_nested (env fs) yaml_settings).
Proof.
  split.
  - intros config_file yaml_settings secrets_file yaml_secrets model settings
      Hc Hs Hsec Hnd Hmodel. unfold get_settings, load_files. rewrite Hc, Hs, Hsec. simpl.
    destruct (Settings_init _ _ _) as [s|e] eqn:Hinit; simpl; [|done]. intros [= <-]. split.
    + rewrite (Settings_init_default_model _ _ _ _ Hinit), deep_merge_lookup, Hmodel by done.
      unfold merged_value. by destruct (Dict.get yaml_settings "default_model") as [[]|].
    + unfold find_secrets in Hs.
      pose proof (search_up_from_spec fs secrets_names
                    (if is_absolute config_file then [] else cwd fs)
                    (parent (parts config_file))) as Hspec.
      rewrite Hs in Hspec. destruct Hspec as (k & name & ? & ? & ? & _). by exists k, name.
  - intros absolute name yaml_settings Hc. unfold get_settings, load_files, find_secrets.
    rewrite Hc. simpl. by destruct (Settings_init _ _ _).
Qed.

Lemma secrets_override_config_witness :
  (exists settings,
     (get_settings accept_all secret_model_files_from_work (Some config_in_app) None).1
       = Ok settings /\
     (default_model settings = Some "opus" /\
      exists k name,
        k < length (parent (parts config_in_app)) /\ name ∈ secrets_names /\
        ["mcp_agent.secrets.yaml"; "app"; "work"]
        = name :: drop k (parent (parts config_in_app))
                  ++ (if is_absolute config_in_app then []
                      else cwd secret_model_files_from_work))) /\
  (get_settings accept_all secret_model_files (Some config_bare) None).1
    = Settings_init accept_all (env secret_model_files)
        [("default_model", YStr "sonnet");
         ("anthropic", YMap [("base_url", YStr "https://example.test")])].
Proof.
  split.
  - eexists. split; [reflexivity|].
    apply (proj1 (secrets_override_config accept_all secret_model_files_from_work)
             config_in_app
             [("default_model", YStr "sonnet");
              ("anthropic", YMap [("base_url", YStr "https://example.test")])]
             ["mcp_agent.secrets.yaml"; "app"; "work"]
             [("anthropic", YMap [("api_key", YStr "k")]); ("default_model", YStr "opus")]).
    + reflexivity.
    + reflexivity.
    + reflexivity.
    + simpl. apply NoDup_cons. split; [set_solver|]. apply NoDup_singleton.
    + reflexivity.
    + reflexivity.
  - apply (proj2 (secrets_override_config accept_all secret_model_files) false
             "mcp_agent.config.yaml"). reflexivity.
Defined.

(** X5. A configuration path that names no existing file is not an error
    and starts no search: the call gives what [Settings()] builds from the
    environment and the [.env] file alone, which is the class defaults
    ["haiku"] and ["asyncio"] where the environment names no other value,
    and fails only when that validation fails.  What it returns is
    cached, so that a later call with the path of a real file still
    returns it. *)
Theorem missing_config_path_yields_defaults validate_nested fs missing :
  files fs (locate fs missing) = None ->
  get_settings validate_nested fs (Some missing) None
    = match Settings_init validate_nested (env fs) [] with
      | Ok s => (Ok s, Some s)
      | Raise e => (Raise e, None)
      end /\
  forall s,
    Settings_init validate_nested (env fs) [] = Ok s ->
    (Dict.get (os_environ (env fs)) "default_model" = None ->
     Dict.get (dotenv (env fs)) "default_model" = None -> default_model s = Some "haiku") /\
    (Dict.get (os_environ (env fs)) "execution_engine" = None ->
     Dict.get (dotenv (env fs)) "execution_engine" = None -> execution_engine s = "asyncio") /\
    forall fs' later,
      (get_settings validate_nested fs' later
         (get_settings validate_nested fs (Some missing) None).2).1 = Ok s.
Proof.
  intros Hmissing.
  assert (get_settings validate_nested fs (Some missing) None
          = match Settings_init validate_nested (env fs) [] with
            | Ok s => (Ok s, Some s)
            | Raise e => (Raise e, None)
            end) as Hfirst.
  { unfold get_settings, load_files. by rewrite Hmissing. }
  split; [done|]. intros s Hs. rewrite Hfirst, Hs. split_and!; [| |done].
  - intros H1 H2. rewrite (Settings_init_default_model _ _ _ _ Hs). simpl.
    unfold env_value. by rewrite H1, H2.
  - intros H1 H2. revert Hs. unfold Settings_init, env_value. simpl. rewrite H1, H2.
    intros Hs. by repeat case_match; simplify_eq/=.
Qed.

Lemma missing_config_path_yields_defaults_witness :
  get_settings accept_all two_files_dotenv
      (Some {| is_absolute := false; parts := ["nowhere.yaml"] |}) None
    = match Settings_init accept_all (env two_files_dotenv) [] with
      | Ok s => (Ok s, Some s)
      | Raise e => (Raise e, None)
      end /\
  forall s,
    Settings_init accept_all (env two_files_dotenv) [] = Ok s ->
    (Dict.get (os_environ (env two_files_dotenv)) "default_model" = None ->
     Dict.get (dotenv (env two_files_dotenv)) "default_model" = None ->
     default_model s = Some "haiku") /\
    (Dict.get (os_environ (env two_files_dotenv)) "execution_engine" = None ->
     Dict.get (dotenv (env two_files_dotenv)) "execution_engine" = None ->
     execution_engine s = "asyncio") /\
    forall fs' later,
      (get_settings accept_all fs' later
         (get_settings accept_all two_files_dotenv
            (Some {| is_absolute := false; parts := ["nowhere.yaml"] |}) None).2).1 = Ok s.
Proof. apply missing_config_path_yields_defaults. reflexivity. Defined.

Example missing_config_path_dotenv :
  get_settings accept_all two_files_dotenv
    (Some {| is_absolute := false; parts := ["nowhere.yaml"] |}) None
  = (Ok (settings_with "opus"), Some (settings_with "opus")).
Proof. reflexivity. Qed.

End ConfigFacts.

(** ** Grouping messages, the other way round *)

Section MultipartInverse.
Import Multipart.
Implicit Types (g : PromptMessageMultipart) (st : grouping).

Lemma fold_same_role r cs res acc :
  fold_left group_step (map (fun c => {| pm_role := r; pm_content := c |}) cs)
    {| result_list := res; current_group := Some {| role := r; content := acc |};
       current_role := Some r |}
  = {| result_list := res; current_group := Some {| role := r; content := acc ++ cs |};
       current_role := Some r |}.
Proof.
  revert acc. induction cs as [|c cs IH]; intros acc; simpl.
  - by rewrite app_nil_r.
  - unfold group_step at 2. simpl. rewrite decide_False by (by intros []).
    rewrite IH. by rewrite <- app_assoc.
Qed.

Lemma fold_group st g :
  content g <> [] -> current_role st <> Some (role g) ->
  fold_left group_step (from_multipart g) st
  = {| result_list := append_group (result_list st) (current_group st);
       current_group := Some g; current_role := Some (role g) |}.
Proof.
  destruct g as [r [|c cs]]; [done|]. intros _ Hrole. unfold from_multipart. simpl in *.
  unfold group_step at 2. simpl. rewrite decide_True by congruence.
  by rewrite fold_same_role.
Qed.

Lemma fold_groups gs st :
  Forall (fun g => content g <> []) gs -> alternating gs ->
  (forall g, head gs = Some g -> current_role st <> Some (role g)) ->
  groups_of (fold_left group_step (flatten gs) st) = groups_of st ++ gs.
Proof.
  revert st. induction gs as [|g gs IH]; intros st Hne Halt Hhead.
  - simpl. by rewrite app_nil_r.
  - apply Forall_cons in Hne as [Hg Hne].
    change (flatten (g :: gs)) with (from_multipart g ++ flatten gs).
    rewrite fold_left_app, fold_group; [|done|by apply Hhead].
    rewrite IH; [|done| |].
    + unfold groups_of. simpl. by rewrite <- app_assoc.
    + destruct gs; [done|]. by destruct Halt.
    + simpl. intros g' Hg'. destruct gs as [|g2 gs]; simplify_eq/=.
      destruct Halt as [Hneq _]. congruence.
Qed.

Lemma regroup_flatten gs :
  Forall (fun g => content g <> []) gs -> alternating gs ->
  to_multipart (flatten gs) = gs.
Proof.
  intros Hne Halt.
  pose proof (fold_groups gs
    {| result_list := []; current_group := None; current_role := None |} Hne Halt) as H.
  unfold groups_of in H. simpl in H.
  unfold to_multipart. destruct (flatten gs) as [|m ms] eqn:Hflat.
  - destruct gs as [|[r [|c cs]] gs]; [done| |done].
    apply Forall_cons in Hne as [? _]. done.
  - apply H. done.
Qed.

(** X6. [to_multipart] undoes flattening on every list of groups it can
    produce: when no group is empty and neighbouring groups differ in
    role, grouping the concatenation of [from_multipart] over the groups
    gives the groups back. *)
Theorem to_multipart_of_flatten gs :
  Forall (fun g => content g <> []) gs -> alternating gs ->
  to_multipart (flatten gs) = gs.
Proof. apply regroup_flatten. Qed.

Lemma to_multipart_of_flatten_witness :
  to_multipart (flatten [{| role := user; content := [TextContent "q"; TextContent "r"] |};
                         {| role := assistant; content := [TextContent "a"] |}])
  = [{| role := user; content := [TextContent "q"; TextContent "r"] |};
     {| role := assistant; content := [TextContent "a"] |}].
Proof.
  apply to_multipart_of_flatten.
  - repeat constructor; done.
  - simpl. done.
Defined.

End MultipartInverse.

(** ** Building the messages of a prompt template *)

Section PromptMessages.
Import Multipart PromptLoad.
Variable logger_attributes : list string.
Variable logger_call : string -> string -> result unit.
Variable load_resource_content : string -> list Config.fspath -> result (string * string * bool).
Variable is_image_mime_type : string -> bool.
Variable create_image_content : string -> string -> result Content.
Variable create_embedded_resource : string -> string -> string -> bool -> result Content.
Variable str_exn : exn -> string.

Local Abbreviation logger_method := (PromptLoad.logger_method logger_attributes logger_call).
Local Abbreviation cast_message_role :=
  (PromptLoad.cast_message_role logger_attributes logger_call).
Local Abbreviation load_resource_message :=
  (PromptLoad.load_resource_message load_resource_content is_image_mime_type
     create_image_content create_embedded_resource).
Local Abbreviation add_resources :=
  (PromptLoad.add_resources logger_attributes logger_call load_resource_content
     is_image_mime_type create_image_content create_embedded_resource str_exn).
Local Abbreviation add_sections :=
  (PromptLoad.add_sections logger_attributes logger_call load_resource_content
     is_image_mime_type create_image_content create_embedded_resource str_exn).
Local Abbreviation create_messages_with_resources :=
  (PromptLoad.create_messages_with_resources logger_attributes logger_call
     load_resource_content is_image_mime_type create_image_content create_embedded_resource
     str_exn).
Local Abbreviation loaded_contents :=
  (PromptLoad.loaded_contents load_resource_content is_image_mime_type
     create_image_content create_embedded_resource).
Local Abbreviation section_group :=
  (PromptLoad.section_group load_resource_content is_image_mime_type
     create_image_content create_embedded_resource).
Local Abbreviation resource_errors :=
  (PromptLoad.resource_errors load_resource_content is_image_mime_type
     create_image_content create_embedded_resource str_exn).
Local Abbreviation section_log :=
  (PromptLoad.section_log load_resource_content is_image_mime_type
     create_image_content create_embedded_resource str_exn).
Local Abbreviation section_clean :=
  (PromptLoad.section_clean load_resource_content is_image_mime_type
     create_image_content create_embedded_resource).

Lemma load_resource_message_role files role path m :
  load_resource_message files role path = Ok m -> pm_role m = role.
Proof.
  unfold PromptLoad.load_resource_message, create_resource_message, bind.
  destruct (load_resource_content path files) as [[[c mime] b]|]; simpl; [|done].
  destruct (is_image_mime_type mime).
  - destruct (create_image_content c mime); [|done]. by intros [= <-].
  - destruct (create_embedded_resource path c mime b); [|done]. by intros [= <-].
Qed.

(** What a call of a logger method leaves: one record when it returns,
    none when it raises; and it raises [AttributeError] when the logger
    has no such attribute. *)
Lemma logger_method_spec method msg record :
  match logger_method method msg record with
  | (Ok _, written) => written = [record] /\ method ∈ logger_attributes
  | (Raise e, written) =>
      written = [] /\ (method ∉ logger_attributes -> e = AttributeError method)
  end.
Proof.
  unfold PromptLoad.logger_method. case_decide; [|done].
  by destruct (logger_call method msg).
Qed.

Lemma cast_message_role_spec role :
  match cast_message_role role with
  | (Ok r, written) =>
      r = role_of role /\
      written = (if decide (role = "user" \/ role = "assistant") then []
                 else [Warning ("Invalid message role: " +:+ role
                                +:+ ", defaulting to 'user'")]) /\
      (role = "user" \/ role = "assistant" \/ "warning" ∈ logger_attributes)
  | (Raise e, written) =>
      written = [] /\ ~ (role = "user" \/ role = "assistant") /\
      ("warning" ∉ logger_attributes -> e = AttributeError "warning")
  end.
Proof.
  unfold PromptLoad.cast_message_role. case_decide as Hrole.
  { split_and!; [done..|]. destruct Hrole; auto. }
  unfold logger_warning.
  pose proof (logger_method_spec "warning"
                ("Invalid message role: " +:+ role +:+ ", defaulting to 'user'")
                (Warning ("Invalid message role: " +:+ role +:+ ", defaulting to 'user'")))
    as Hlog.
  destruct (logger_method _ _ _) as [[[]|e] written].
  - destruct Hlog as [-> Hin]. split_and!; [|done|auto].
    unfold role_of. rewrite decide_False; [done|]. intros ->. apply Hrole. by right.
  - destruct Hlog as [-> He]. by split_and!.
Qed.

Lemma add_resources_spec files role resources messages log :
  match add_resources files role resources messages log with
  | (Ok messages', log') =>
      messages' = messages ++ map (fun c => {| pm_role := role; pm_content := c |})
                                (loaded_contents files role resources) /\
      log' = log ++ resource_errors files role resources /\
      (Forall (fun path => is_Some (returned_value (load_resource_message files role path)))
         resources \/ "error" ∈ logger_attributes)
  | (Raise e, log') =>
      ~ Forall (fun path => is_Some (returned_value (load_resource_message files role path)))
          resources /\
      ("error" ∉ logger_attributes ->
       log' = log /\ (e = AttributeError "error" \/ e = CancelledError))
  end.
Proof.
  revert messages log. induction resources as [|p rest IH]; intros messages log.
  - simpl. rewrite !app_nil_r. split_and!; [done..|]. by left.
  - cbn [PromptLoad.add_resources]. unfold PromptLoad.loaded_contents, PromptLoad.resource_errors.
    cbn [omap list_omap]. fold (loaded_contents files role rest).
    fold (resource_errors files role rest).
    destruct (load_resource_message files role p) as [m|e] eqn:Hm.
    + specialize (IH (messages ++ [m]) log).
      destruct (add_resources files role rest (messages ++ [m]) log) as [[messages'|e'] log'].
      * destruct IH as (-> & -> & Hall). simpl. rewrite <- app_assoc. simpl.
        pose proof (load_resource_message_role _ _ _ _ Hm). destruct m; simpl in *; subst.
        split_and!; [done..|]. destruct Hall as [Hall|?]; [left|by right].
        constructor; [|done]. rewrite Hm. by eexists.
      * destruct IH as [Hnot Hlog]. split; [|done].
        intros [_ Hall]%Forall_cons. by apply Hnot.
    + assert (~ Forall (fun path =>
                  is_Some (returned_value (load_resource_message files role path)))
                (p :: rest)) as Hnot.
      { intros [[? Hp] _]%Forall_cons. by rewrite Hm in Hp. }
      destruct (is_Exception e) eqn:Hexn.
      2:{ split; [done|]. intros _. split; [done|]. right. by destruct e. }
      unfold logger_error.
      pose proof (logger_method_spec "error"
                    ("Error loading resource " +:+ p +:+ ": " +:+ str_exn e)
                    (Error ("Error loading resource " +:+ p +:+ ": " +:+ str_exn e)))
        as Hlog.
      destruct (logger_method _ _ _) as [[[]|e'] written].
      * destruct Hlog as [-> Hin].
        specialize (IH messages
                      (log ++ [Error ("Error loading resource " +:+ p +:+ ": "
                                      +:+ str_exn e)])).
        destruct (add_resources files role rest messages _) as [[messages'|e''] log'].
        -- destruct IH as (-> & -> & _). simpl. rewrite <- app_assoc. simpl.
           split_and!; [done..|]. by right.
        -- split; [done|]. intros Hno. done.
      * destruct Hlog as [-> He']. split; [done|]. intros Hno. rewrite app_nil_r.
        split; [done|]. left. by apply He'.
Qed.

Lemma add_sections_spec files sections messages log :
  match add_sections files sections messages log with
  | (Ok messages', log') =>
      messages' = messages ++ flatten (map (section_group files) sections) /\
      log' = log ++ concat (map (section_log files) sections) /\
      (Forall (section_clean files) sections \/
       "warning" ∈ logger_attributes \/ "error" ∈ logger_attributes)
  | (Raise e, log') =>
      ~ Forall (section_clean files) sections /\
      ("warning" ∉ logger_attributes -> "error" ∉ logger_attributes ->
       log' = log /\
       (e = AttributeError "warning" \/ e = AttributeError "error" \/ e = CancelledError))
  end.
Proof.
  revert messages log. induction sections as [|s rest IH]; intros messages log.
  - simpl. rewrite !app_nil_r. split_and!; [done..|]. by left.
  - cbn [PromptLoad.add_sections].
    pose proof (cast_message_role_spec (section_role s)) as Hcast.
    destruct (cast_message_role (section_role s)) as [[r|e] written].
    2:{ destruct Hcast as (-> & Hrole & He). split.
        - intros [[? _] _]%Forall_cons. done.
        - intros Hw _. rewrite app_nil_r. split; [done|]. left. by apply He. }
    destruct Hcast as (-> & -> & Hrole).
    pose proof (add_resources_spec files (role_of (section_role s)) (section_resources s)
                  (messages ++ [create_content_message (section_text s)
                                  (role_of (section_role s))])
                  (log ++ (if decide (section_role s = "user" \/ section_role s = "assistant")
                           then []
                           else [Warning ("Invalid message role: " +:+ section_role s
                                          +:+ ", defaulting to 'user'")]))) as Hres.
    destruct (add_resources files _ _ _ _) as [[messages1|e] log1].
    2:{ destruct Hres as [Hnot Hlog]. split.
        - intros [[_ ?] _]%Forall_cons. done.
        - intros Hw He. destruct (Hlog He) as [-> Hwhy]. split.
          + case_decide as Hvalid; [by rewrite app_nil_r|].
            destruct Hrole as [?|[?|?]]; [destruct Hvalid; auto..|done].
          + destruct Hwhy; auto. }
    destruct Hres as (-> & -> & Hall).
    specialize (IH (((messages ++ [create_content_message (section_text s)
                                     (role_of (section_role s))]) ++
                     map (fun c => {| pm_role := role_of (section_role s); pm_content := c |})
                       (loaded_contents files (role_of (section_role s))
                          (section_resources s))))
                  (((log ++ (if decide (section_role s = "user"
                                        \/ section_role s = "assistant")
                             then []
                             else [Warning ("Invalid message role: " +:+ section_role s
                                            +:+ ", defaulting to 'user'")])) ++
                    resource_errors files (role_of (section_role s))
                      (section_resources s)))).
    destruct (add_sections files rest _ _) as [[messages2|e] log2].
    + destruct IH as (-> & -> & Hclean).
      change (flatten (?g :: ?gs)) with (from_multipart g ++ flatten gs).
      unfold PromptLoad.section_log, PromptLoad.section_group, from_multipart. simpl.
      rewrite <- !app_assoc. simpl. split_and!; [done..|].
      destruct Hclean as [Hclean|?]; [|by right].
      destruct Hall as [Hall|?]; [|by right; right].
      destruct Hrole as [?|[?|?]]; [left|left|right; by left];
        (constructor; [split; [auto|done]|done]).
    + destruct IH as [Hnot Hlog]. split.
      * intros [_ ?]%Forall_cons. done.
      * intros Hw He. destruct (Hlog Hw He) as [-> Hwhy]. split; [|done].
        assert (Forall (fun path =>
                  is_Some (returned_value
                             (load_resource_message files (role_of (section_role s)) path)))
                  (section_resources s)) as Hloads.
        { by destruct Hall. }
        assert (resource_errors files (role_of (section_role s)) (section_resources s) = [])
          as ->.
        { clear -Hloads. unfold PromptLoad.resource_errors.
          induction Hloads as [|p ps [m Hp] _ IHp]; [done|]. simpl.
          destruct (load_resource_message files _ p); [done|by simpl in Hp]. }
        rewrite app_nil_r. case_decide as Hvalid; [by rewrite app_nil_r|].
        destruct Hrole as [?|[?|?]]; [destruct Hvalid; auto..|done].
Qed.

Lemma section_counts files s :
  length (from_multipart (section_group files s))
  + length (filter (fun r => is_error r = true) (section_log files s))
  = S (length (section_resources s)).
Proof.
  unfold PromptLoad.section_log, PromptLoad.section_group, PromptLoad.loaded_contents,
    from_multipart. simpl.
  rewrite filter_app, length_app, length_map.
  assert (length (filter (fun r => is_error r = true)
                    (if decide (section_role s = "user" \/ section_role s = "assistant")
                     then []
                     else [Warning ("Invalid message role: " +:+ section_role s
                                    +:+ ", defaulting to 'user'")])) = 0) as ->.
  { by case_decide. }
  simpl. f_equal. generalize (section_resources s) as rs.
  induction rs as [|p rs IHrs]; [done|]. unfold PromptLoad.resource_errors in *. simpl.
  destruct (load_resource_message files (role_of (section_role s)) p); simpl.
  - f_equal. exact IHrs.
  - rewrite Nat.add_succ_r. f_equal. exact IHrs.
Qed.

Lemma sections_count files sections :
  length (flatten (map (section_group files) sections))
  + length (filter (fun r => is_error r = true) (concat (map (section_log files) sections)))
  = length sections + sum_list (map (fun s => length (section_resources s)) sections).
Proof.
  unfold flatten. induction sections as [|s rest IH]; [done|].
  cbn [map concat sum_list sum_list_with length].
  rewrite filter_app, !length_app.
  pose proof (section_counts files s).
  change (id (length (section_resources s))) with (length (section_resources s)). lia.
Qed.

(** X7. When [create_messages_with_resources] returns, every section of
    the template has given its text message first and then one message
    for each of its resources that loads, all in the role the section is
    cast to; a resource that fails to load has left one error record and
    nothing else, and an unknown role one warning: the messages are the
    sections' groups flattened, and messages and error records together
    number the sections plus their resources.  With a [logger] that has
    neither a [warning] nor an [error] attribute, as the module
    [mcp_agent.logging.logger] the name is bound to, nothing is logged
    and the function returns exactly when every section has one of the
    two roles and every resource loads; otherwise it raises the
    [AttributeError] of the missing logger method, or the cancellation
    that loading a resource raised. *)
Theorem create_messages_with_resources_sections content_sections prompt_files :
  (forall messages,
     (create_messages_with_resources content_sections prompt_files).1 = Ok messages ->
     messages = flatten (map (section_group prompt_files) content_sections) /\
     (create_messages_with_resources content_sections prompt_files).2
       = concat (map (section_log prompt_files) content_sections) /\
     length messages
       + length (filter (fun r => is_error r = true)
                   (create_messages_with_resources content_sections prompt_files).2)
       = length content_sections
         + sum_list (map (fun s => length (section_resources s)) content_sections)) /\
  ("warning" ∉ logger_attributes -> "error" ∉ logger_attributes ->
   (create_messages_with_resources content_sections prompt_files).2 = [] /\
   match (create_messages_with_resources content_sections prompt_files).1 with
   | Ok messages =>
       Forall (section_clean prompt_files) content_sections /\
       length messages
       = length content_sections
         + sum_list (map (fun s => length (section_resources s)) content_sections)
   | Raise e =>
       ~ Forall (section_clean prompt_files) content_sections /\
       (e = AttributeError "warning" \/ e = AttributeError "error" \/ e = CancelledError)
   end).
Proof.
  unfold PromptLoad.create_messages_with_resources.
  pose proof (add_sections_spec prompt_files content_sections [] []) as Hspec.
  destruct (add_sections prompt_files content_sections [] []) as [[messages|e] log];
    cbn [fst snd].
  - destruct Hspec as (-> & -> & Hclean). simpl. split.
    + intros ? [= <-]. split_and!; [done..|]. apply sections_count.
    + intros Hw He. destruct Hclean as [Hclean|[?|?]]; [|done..].
      pose proof (sections_count prompt_files content_sections) as Hcount.
      assert (concat (map (section_log prompt_files) content_sections) = []) as Hlog.
      { clear -Hclean. induction Hclean as [|s rest [Hrole Hloads] _ IH]; [done|].
        simpl. rewrite IH, app_nil_r. unfold PromptLoad.section_log.
        rewrite decide_True by done. simpl. unfold PromptLoad.resource_errors.
        induction Hloads as [|p ps [m Hp] _ IHp]; [done|]. simpl.
        destruct (load_resource_message prompt_files _ p); [done|by simpl in Hp]. }
      rewrite Hlog in *. simpl in Hcount. split_and!; [done..|lia].
  - destruct Hspec as [Hnot Hlog]. split; [done|].
    intros Hw He. destruct (Hlog Hw He) as [-> Hwhy]. done.
Qed.

(** X8. When [create_messages_with_resources] returns, grouping its
    messages gives one group for each section, in order, holding the
    section's text and then the contents of its resources that loaded,
    as long as neighbouring sections are cast to different roles. *)
Theorem sections_group_back content_sections prompt_files messages :
  (create_messages_with_resources content_sections prompt_files).1 = Ok messages ->
  alternating (map (section_group prompt_files) content_sections) ->
  to_multipart messages = map (section_group prompt_files) content_sections.
Proof.
  unfold PromptLoad.create_messages_with_resources.
  pose proof (add_sections_spec prompt_files content_sections [] []) as Hspec.
  destruct (add_sections prompt_files content_sections [] []) as [[messages'|e] log];
    cbn [fst snd]; [|done].
  destruct Hspec as (-> & _ & _). intros [= <-] Halt. simpl.
  apply regroup_flatten; [|done].
  apply Forall_forall. intros g [s [-> _]]%list_elem_of_fmap. done.
Qed.

End PromptMessages.

Lemma create_messages_with_resources_sections_witness :
  ((forall messages,
      (PromptLoad.create_messages_with_resources PromptLoad.module_attributes
         PromptLoad.method_returns PromptLoad.load_shot PromptLoad.is_png PromptLoad.image_of
         PromptLoad.embedded_of (fun _ => "error") PromptLoad.shot_sections []).1 = Ok messages ->
      messages
      = Multipart.flatten
          (map (PromptLoad.section_group PromptLoad.load_shot PromptLoad.is_png
                  PromptLoad.image_of PromptLoad.embedded_of [])
             PromptLoad.shot_sections) /\
      (PromptLoad.create_messages_with_resources PromptLoad.module_attributes
         PromptLoad.method_returns PromptLoad.load_shot PromptLoad.is_png PromptLoad.image_of
         PromptLoad.embedded_of (fun _ => "error") PromptLoad.shot_sections []).2
      = concat (map (PromptLoad.section_log PromptLoad.load_shot PromptLoad.is_png
                       PromptLoad.image_of PromptLoad.embedded_of (fun _ => "error") [])
                  PromptLoad.shot_sections) /\
      length messages
      + length (filter (fun r => PromptLoad.is_error r = true)
                  (PromptLoad.create_messages_with_resources PromptLoad.module_attributes
                     PromptLoad.method_returns PromptLoad.load_shot PromptLoad.is_png
                     PromptLoad.image_of PromptLoad.embedded_of (fun _ => "error")
                     PromptLoad.shot_sections []).2)
      = length PromptLoad.shot_sections
        + sum_list (map (fun s => length (PromptLoad.section_resources s))
                      PromptLoad.shot_sections)) /\
   ("warning" ∉ PromptLoad.module_attributes -> "error" ∉ PromptLoad.module_attributes ->
    (PromptLoad.create_messages_with_resources PromptLoad.module_attributes
       PromptLoad.method_returns PromptLoad.load_shot PromptLoad.is_png PromptLoad.image_of
       PromptLoad.embedded_of (fun _ => "error") PromptLoad.shot_sections []).2 = [] /\
    match (PromptLoad.create_messages_with_resources PromptLoad.module_attributes
             PromptLoad.method_returns PromptLoad.load_shot PromptLoad.is_png
             PromptLoad.image_of PromptLoad.embedded_of (fun _ => "error")
             PromptLoad.shot_sections []).1 with
    | Ok messages =>
        Forall (PromptLoad.section_clean PromptLoad.load_shot PromptLoad.is_png
                  PromptLoad.image_of PromptLoad.embedded_of [])
          PromptLoad.shot_sections /\
        length messages
        = length PromptLoad.shot_sections
          + sum_list (map (fun s => length (PromptLoad.section_resources s))
                        PromptLoad.shot_sections)
    | Raise e =>
        ~ Forall (PromptLoad.section_clean PromptLoad.load_shot PromptLoad.is_png
                    PromptLoad.image_of PromptLoad.embedded_of [])
            PromptLoad.shot_sections /\
        (e = AttributeError "warning" \/ e = AttributeError "error" \/ e = CancelledError)
    end)) /\
  PromptLoad.create_messages_with_resources PromptLoad.module_attributes
    PromptLoad.method_returns PromptLoad.load_shot PromptLoad.is_png PromptLoad.image_of
    PromptLoad.embedded_of (fun _ => "error") PromptLoad.shot_sections []
  = (Ok [{| Multipart.pm_role := Multipart.user;
            Multipart.pm_content := Multipart.TextContent "Look at this" |};
         {| Multipart.pm_role := Multipart.user;
            Multipart.pm_content := Multipart.ImageContent "QUJD" "image/png" |};
         {| Multipart.pm_role := Multipart.assistant;
            Multipart.pm_content := Multipart.TextContent "I see" |}], []) /\
  PromptLoad.create_messages_with_resources PromptLoad.module_attributes
    PromptLoad.method_returns PromptLoad.load_shot PromptLoad.is_png PromptLoad.image_of
    PromptLoad.embedded_of (fun _ => "error") PromptLoad.two_sections []
  = (Raise (AttributeError "error"), []) /\
  PromptLoad.create_messages_with_resources PromptLoad.module_attributes
    PromptLoad.method_returns PromptLoad.load_shot PromptLoad.is_png PromptLoad.image_of
    PromptLoad.embedded_of (fun _ => "error") PromptLoad.system_section []
  = (Raise (AttributeError "warning"), []) /\
  PromptLoad.create_messages_with_resources PromptLoad.logger_object_attributes
    PromptLoad.method_returns PromptLoad.load_shot PromptLoad.is_png PromptLoad.image_of
    PromptLoad.embedded_of (fun _ => "error") PromptLoad.two_sections []
  = (Ok [{| Multipart.pm_role := Multipart.user;
            Multipart.pm_content := Multipart.TextContent "Look at these" |};
         {| Multipart.pm_role := Multipart.user;
            Multipart.pm_content := Multipart.ImageContent "QUJD" "image/png" |};
         {| Multipart.pm_role := Multipart.assistant;
            Multipart.pm_content := Multipart.TextContent "I see" |}],
     [PromptLoad.Error "Error loading resource gone.txt: error"]).
Proof.
  split; [|by split_and!].
  apply (create_messages_with_resources_sections PromptLoad.module_attributes
           PromptLoad.method_returns PromptLoad.load_shot PromptLoad.is_png
           PromptLoad.image_of PromptLoad.embedded_of (fun _ => "error")
           PromptLoad.shot_sections []).
Defined.

Lemma sections_group_back_witness :
  Multipart.to_multipart
    [{| Multipart.pm_role := Multipart.user;
        Multipart.pm_content := Multipart.TextContent "Look at this" |};
     {| Multipart.pm_role := Multipart.user;
        Multipart.pm_content := Multipart.ImageContent "QUJD" "image/png" |};
     {| Multipart.pm_role := Multipart.assistant;
        Multipart.pm_content := Multipart.TextContent "I see" |}]
  = map (PromptLoad.section_group PromptLoad.load_shot PromptLoad.is_png PromptLoad.image_of
           PromptLoad.embedded_of [])
      PromptLoad.shot_sections.
Proof.
  apply (sections_group_back PromptLoad.module_attributes PromptLoad.method_returns
           PromptLoad.load_shot PromptLoad.is_png PromptLoad.image_of PromptLoad.embedded_of
           (fun _ => "error") PromptLoad.shot_sections []).
  - reflexivity.
  - simpl. done.
Defined.

(** ** The application lifecycle, beyond one scope *)

Section LifecycleFacts.
Import App.

Lemma initializations_app evs1 evs2 :
  initializations (evs1 ++ evs2) = initializations evs1 + initializations evs2.
Proof. unfold initializations. by rewrite filter_app, length_app. Qed.

Lemma lifecycle_step_balance app call :
  (initialized app = true <-> is_Some (context app)) ->
  (initialized (lifecycle_step app call) = true <-> is_Some (context (lifecycle_step app call))) /\
  (tears_down_cleanly call ->
   initializations (trace (lifecycle_step app call)) + teardowns (trace app) + live app
   = initializations (trace app) + teardowns (trace (lifecycle_step app call))
     + live (lifecycle_step app call)).
Proof.
  intros Hco. destruct call as [created|torn_down]; simpl.
  - unfold initialize, live. destruct (initialized app) eqn:Hi; simpl.
    { rewrite Hi. split; [done|]. lia. }
    destruct created as [c|e]; simpl.
    + split; [split; eauto|]. intros _. rewrite ?Hi.
      rewrite initializations_app, teardowns_app. unfold initializations, teardowns. simpl. lia.
    + rewrite ?Hi. split; [done|]. intros _.
      rewrite initializations_app, teardowns_app. unfold initializations, teardowns. simpl. lia.
  - unfold cleanup, live. destruct (initialized app) eqn:Hi; simpl.
    2:{ rewrite Hi. split; [done|]. lia. }
    assert (forall evs, ((false = true <-> is_Some (@None Context))) /\
              (teardowns evs = 1 -> initializations evs = 0 ->
               initializations (trace app ++ evs) + teardowns (trace app) + 1
               = initializations (trace app) + teardowns (trace app ++ evs) + 0)) as Hdone.
    { intros evs. split; [split; [done|by intros [? ?]]|].
      intros Ht Hn. rewrite initializations_app, teardowns_app. lia. }
    destruct torn_down as [[]|e]; simpl.
    + destruct (Hdone [LogInfo "MCPAgent cleanup"; CleanupContext]) as [H1 H2].
      split; [done|]. intros _. by apply H2.
    + destruct e; simpl; rewrite ?Hi;
        try (split; [done|]; intros [?|?]; done).
      destruct (Hdone [LogInfo "MCPAgent cleanup"; CleanupContext;
                       LogDebug "Cleanup cancelled error during shutdown"]) as [H1 H2].
      split; [done|]. intros _. by apply H2.
Qed.

(** X9. However [initialize] and [cleanup] are called on one application
    object, and whatever the context module does each time, the object is
    initialized exactly when it holds a context; and as long as no
    teardown fails, the contexts created outnumber the teardowns by one
    while the object is initialized and by none while it is not. *)
Theorem lifecycle_balance calls app :
  (initialized app = true <-> is_Some (context app)) ->
  (initialized (lifecycle calls app) = true <-> is_Some (context (lifecycle calls app))) /\
  (Forall tears_down_cleanly calls ->
   initializations (trace (lifecycle calls app)) + teardowns (trace app) + live app
   = initializations (trace app) + teardowns (trace (lifecycle calls app))
     + live (lifecycle calls app)).
Proof.
  revert app. induction calls as [|call calls IH]; intros app Hco.
  - simpl. split; [done|]. intros _. lia.
  - unfold lifecycle in *. cbn [fold_left].
    destruct (lifecycle_step_balance app call Hco) as [Hco1 Hbal1].
    destruct (IH _ Hco1) as [Hco2 Hbal2]. split; [done|].
    intros [Hcall Hcalls]%Forall_cons. specialize (Hbal1 Hcall). specialize (Hbal2 Hcalls). lia.
Qed.

Lemma lifecycle_balance_witness :
  (initialized (lifecycle restarts new_app) = true
   <-> is_Some (context (lifecycle restarts new_app))) /\
  (Forall tears_down_cleanly restarts ->
   initializations (trace (lifecycle restarts new_app)) + teardowns (trace new_app)
     + live new_app
   = initializations (trace new_app) + teardowns (trace (lifecycle restarts new_app))
     + live (lifecycle restarts new_app)).
Proof.
  apply lifecycle_balance. simpl. split; [done|by intros [? ?]].
Defined.

Lemma run_uninitialized created torn_down body app ctx :
  initialized app = false -> created = Ok ctx ->
  initialized (body (initialize created app).2).2 = false ->
  run created torn_down body app = body (initialize created app).2.
Proof.
  intros Hi -> Hleft. unfold run. unfold initialize in *. rewrite Hi in *. cbn [fst snd] in *.
  destruct (body _) as [ended app2]. cbn [snd] in Hleft.
  unfold cleanup. rewrite Hleft. done.
Qed.

Lemma run_initialized created torn_down body app :
  initialized app = true ->
  torn_down = Ok tt \/ torn_down = Raise CancelledError ->
  initialized (body app).2 = true ->
  let left := run created torn_down body app in
  left.1 = (body app).1 /\ context left.2 = None /\ initialized left.2 = false /\
  teardowns (trace left.2) = S (teardowns (trace (body app).2)).
Proof.
  intros Hi Htd Hbody. unfold run, initialize. rewrite Hi.
  destruct (body app) as [ended app2]. cbn [fst snd] in *.
  unfold cleanup. rewrite Hbody. cbn [negb].
  destruct Htd as [-> | ->]; cbn [fst snd set_lifecycle trace initialized context];
    rewrite teardowns_app; unfold teardowns at 2; simpl; split_and!; try done; lia.
Qed.

(** X10. A scope entered inside a running scope of the same application
    creates no context of its own, and its exit tears the one context
    down: the rest of the outer body runs on an application without a
    context, and the exit of the outer scope does nothing more, whatever
    its teardown would have done. *)
Theorem nested_scope_ends_outer created torn_down created2 torn_down2 inner rest app ctx :
  initialized app = false -> created = Ok ctx ->
  torn_down2 = Ok tt \/ torn_down2 = Raise CancelledError ->
  keeps_lifecycle inner -> keeps_lifecycle rest ->
  let entered := (initialize created app).2 in
  let left := run created2 torn_down2 inner entered in
  left.1 = (inner entered).1 /\
  context (inner entered).2 = Some ctx /\
  context left.2 = None /\ initialized left.2 = false /\
  get_context left.2
    = Raise (RuntimeError
        "MCPApp not initialized, please call initialize() first, or use async with app.run().") /\
  teardowns (trace left.2) = S (teardowns (trace app)) /\
  run created torn_down (then_block (run created2 torn_down2 inner) rest) app
    = then_block (fun _ => left) rest entered /\
  teardowns (trace (run created torn_down (then_block (run created2 torn_down2 inner) rest)
                      app).2)
    = S (teardowns (trace app)).
Proof.
  intros Hi Hc Htd Hinner Hrest entered left.
  assert (initialized entered = true /\ context entered = Some ctx /\
          teardowns (trace entered) = teardowns (trace app)) as (Hie & Hce & Hte).
  { subst entered created. unfold initialize. rewrite Hi. simpl.
    rewrite teardowns_app. unfold teardowns at 2. simpl. split_and!; try done; lia. }
  destruct (Hinner entered) as (Hii & Hic & Hit).
  destruct (run_initialized created2 torn_down2 inner entered Hie Htd) as (H1 & H2 & H3 & H4).
  { by rewrite Hii. }
  fold left in H1, H2, H3, H4.
  assert (run created torn_down (then_block (run created2 torn_down2 inner) rest) app
          = then_block (fun _ => left) rest entered) as Hrun.
  { rewrite (run_uninitialized created torn_down _ app ctx Hi Hc); fold entered; [done|].
    unfold then_block. fold left. destruct left as [[[]|e] a'] eqn:Hl; cbn [fst snd] in *; [|done].
    destruct (Hrest a') as (-> & _ & _). done. }
  split_and!; try done.
  - by rewrite Hic.
  - unfold get_context. by rewrite H2.
  - lia.
  - rewrite Hrun. unfold then_block. destruct left as [[[]|e] a'] eqn:Hl; cbn [fst snd] in *.
    + destruct (Hrest a') as (_ & _ & ->). lia.
    + lia.
Qed.

Lemma nested_scope_ends_outer_witness :
  let entered := (initialize (Ok (context_of "haiku")) new_app).2 in
  let left := run (Ok (context_of "sonnet")) (Ok tt) idle_body entered in
  left.1 = (idle_body entered).1 /\
  context (idle_body entered).2 = Some (context_of "haiku") /\
  context left.2 = None /\ initialized left.2 = false /\
  get_context left.2
    = Raise (RuntimeError
        "MCPApp not initialized, please call initialize() first, or use async with app.run().") /\
  teardowns (trace left.2) = S (teardowns (trace new_app)) /\
  run (Ok (context_of "haiku")) (Raise (RuntimeError "teardown failed"))
      (then_block (run (Ok (context_of "sonnet")) (Ok tt) idle_body) failing_body) new_app
    = then_block (fun _ => left) failing_body entered /\
  teardowns (trace (run (Ok (context_of "haiku")) (Raise (RuntimeError "teardown failed"))
                      (then_block (run (Ok (context_of "sonnet")) (Ok tt) idle_body)
                         failing_body) new_app).2)
    = S (teardowns (trace new_app)).
Proof.
  apply (nested_scope_ends_outer (Ok (context_of "haiku"))
           (Raise (RuntimeError "teardown failed")) (Ok (context_of "sonnet")) (Ok tt)
           idle_body failing_body new_app (context_of "haiku")).
  - reflexivity.
  - reflexivity.
  - by left.
  - by intros a.
  - by intros a.
Defined.

End LifecycleFacts.

(** ** The scope of the decorator application *)

Section DecoratorScope.
Import App.



End DecoratorScope.

(** ** Workflow tasks, beyond one decoration *)

Section TaskFacts.
Import App.
Variable register : activities -> string -> funref -> Dict.t pyval -> result activities.

Lemma dict_update_lookup base kwargs k :
  NoDup (Dict.keys kwargs) ->
  Dict.get (dict_update base kwargs) k
  = match Dict.get kwargs k with
    | Some v => Some v
    | None => Dict.get base k
    end.
Proof.
  unfold dict_update. revert base. induction kwargs as [|[k0 v0] kwargs IH]; intros base Hnd;
    [done|].
  apply NoDup_cons in Hnd as [Hk0 Hnd]. cbn [fold_left]. rewrite IH by done. simpl.
  destruct (decide (k0 = k)) as [->|Hne].
  - apply (get_None_keys kwargs k) in Hk0. rewrite Hk0. rewrite get_set. by rewrite decide_True.
  - destruct (Dict.get kwargs k); [done|]. rewrite get_set. by rewrite decide_False.
Qed.

Lemma dict_update_keys base kwargs :
  NoDup (Dict.keys kwargs) ->
  Dict.keys (dict_update base kwargs)
  = Dict.keys base ++ filter (fun k => k ∉ Dict.keys base) (Dict.keys kwargs).
Proof.
  unfold dict_update. revert base. induction kwargs as [|[k0 v0] kwargs IH]; intros base Hnd.
  { simpl. by rewrite app_nil_r. }
  apply NoDup_cons in Hnd as [Hk0 Hnd]. cbn [fold_left]. rewrite IH by done. simpl.
  rewrite filter_cons. simpl. destruct (decide (k0 ∈ Dict.keys base)) as [Hin|Hnin].
  - rewrite decide_False by (by intros H; apply H). rewrite keys_set.
    by rewrite decide_True by done.
  - rewrite decide_True by done. rewrite keys_set_new by done. rewrite <- app_assoc. simpl.
    f_equal. f_equal. apply filter_ext_elem. intros k Hk. rewrite elem_of_app, list_elem_of_singleton.
    split; [tauto|]. intros H [?|Heq]; [done|]. subst k. simpl in Hk0. done.
Qed.


(** X13. The metadata [workflow_task] stores and registers: the three
    computed entries come first, then the keyword arguments under other
    names, in their order; every keyword argument is found under its name,
    so that one named [activity_name] replaces the computed entry, while
    the registration itself still goes under the computed name. *)
Theorem execution_metadata_merges_kwargs name timeout retry_policy kwargs func app returned :
  NoDup (Dict.keys kwargs) ->
  (workflow_task register name timeout retry_policy kwargs func app).1 = Ok returned ->
  exists ctx registry metadata actual_name,
    context app = Some ctx /\
    task_name name (functions app func) = Ok actual_name /\
    register (task_registry ctx) actual_name func metadata = Ok registry /\
    Dict.get (fn_attrs (functions
                (workflow_task register name timeout retry_policy kwargs func app).2 func))
      "execution_metadata" = Some (PDict metadata) /\
    Dict.keys metadata
      = computed_keys ++ filter (fun k => k ∉ computed_keys) (Dict.keys kwargs) /\
    (forall k v, Dict.get kwargs k = Some v -> Dict.get metadata k = Some v) /\
    (Dict.get kwargs "activity_name" = None ->
     Dict.get metadata "activity_name" = Some (PStr actual_name)).
Proof.
  intros Hnd. unfold workflow_task.
  destruct (fn_is_coroutine (functions app func)); cbn [negb].
  2:{ by destruct (getattr_str _ _). }
  destruct (task_name name (functions app func)) as [actual_name|e]; simpl; [|done].
  unfold get_context. destruct (context app) as [ctx|]; simpl; [|done].
  destruct (register _ _ _ _) as [registry|e] eqn:Hreg; simpl; [|done].
  unfold setattr. destruct (fn_settable (functions app func)) eqn:Hset; simpl; [|done].
  intros _. eexists ctx, registry, _, actual_name. split_and!; [done|done|exact Hreg|..].
  - rewrite fn_lookup_insert. simpl. by rewrite !get_set.
  - by rewrite dict_update_keys.
  - intros k v Hk. rewrite dict_update_lookup by done. by rewrite Hk.
  - intros Hk. rewrite dict_update_lookup by done. by rewrite Hk.
Qed.

End TaskFacts.

Lemma execution_metadata_merges_kwargs_witness :
  exists ctx registry metadata actual_name,
    App.context App.running_app = Some ctx /\
    App.task_name None (App.functions App.running_app 0) = Ok actual_name /\
    App.register_overwrite (App.task_registry ctx) actual_name 0 metadata = Ok registry /\
    Dict.get (App.fn_attrs (App.functions
                (App.workflow_task App.register_overwrite None None None
                   [("activity_name", App.PStr "alias"); ("queue", App.PStr "default")] 0
                   App.running_app).2 0))
      "execution_metadata" = Some (App.PDict metadata) /\
    Dict.keys metadata
      = App.computed_keys ++ filter (fun k => k ∉ App.computed_keys)
                               (Dict.keys [("activity_name", App.PStr "alias");
                                           ("queue", App.PStr "default")]) /\
    (forall k v, Dict.get [("activity_name", App.PStr "alias"); ("queue", App.PStr "default")] k
                 = Some v -> Dict.get metadata k = Some v) /\
    (Dict.get [("activity_name", App.PStr "alias"); ("queue", App.PStr "default")]
       "activity_name" = None ->
     Dict.get metadata "activity_name" = Some (App.PStr actual_name)).
Proof.
  apply (execution_metadata_merges_kwargs App.register_overwrite None None None
           [("activity_name", App.PStr "alias"); ("queue", App.PStr "default")] 0
           App.running_app 0).
  - simpl. apply NoDup_cons. split; [by intros ?%list_elem_of_singleton|apply NoDup_singleton].
  - reflexivity.
Defined.

(** ** What the builders store *)

Section Forall2Facts.
Context {A B : Type}.

Lemma Forall2_impl_elem (R R' : A -> B -> Prop) l k :
  Forall2 R l k -> (forall x y, x ∈ l -> R x y -> R' x y) -> Forall2 R' l k.
Proof.
  induction 1 as [|x y l k Hxy Hlk IH]; intros Himpl; constructor.
  - apply Himpl; [left|done].
  - apply IH. intros x' y' Hx'. apply Himpl. by right.
Qed.

End Forall2Facts.

Section ParallelWiring.
Import DecoratorApp.
Variable Factory : Type.
Variable create_factory : option string -> RequestParams -> result Factory.
Variable RequestParams_defaults : RequestParams.
Variable repr_request_params : option RequestParams -> string.
Variable hash_order : gset string -> list string.

Local Abbreviation get_model_factory :=
  (DecoratorApp.get_model_factory Factory create_factory RequestParams_defaults
     repr_request_params).
Local Abbreviation factory_for :=
  (DecoratorApp.factory_for Factory create_factory RequestParams_defaults).
Local Abbreviation lookup_fan_out := (DecoratorApp.lookup_fan_out Factory).
Local Abbreviation create_parallel_agent :=
  (DecoratorApp.create_parallel_agent Factory create_factory RequestParams_defaults
     repr_request_params).
Local Abbreviation create_ordered :=
  (DecoratorApp.create_ordered Factory create_factory RequestParams_defaults
     repr_request_params).
Local Abbreviation create_parallel_loop :=
  (DecoratorApp.create_parallel_loop Factory create_factory RequestParams_defaults
     repr_request_params hash_order).
Local Abbreviation create_parallel_agents :=
  (DecoratorApp.create_parallel_agents Factory create_factory RequestParams_defaults
     repr_request_params hash_order).
Local Abbreviation parallel_wired :=
  (DecoratorApp.parallel_wired Factory create_factory RequestParams_defaults).
Local Abbreviation parallel_inv :=
  (DecoratorApp.parallel_inv Factory create_factory RequestParams_defaults).
Local Abbreviation parallel_buildable :=
  (DecoratorApp.parallel_buildable Factory create_factory RequestParams_defaults).
Local Abbreviation parallel_unbuildable :=
  (DecoratorApp.parallel_unbuildable Factory create_factory RequestParams_defaults).
Local Abbreviation built := (Dict.t (RuntimeNode Factory)).

Implicit Types (self : MCPAgentDecorator) (active pa : built).

Lemma get_model_factory_factory_for self model request_params :
  (get_model_factory self model request_params).1 = factory_for self model request_params.
Proof. apply get_model_factory_result. Qed.

Lemma lookup_fan_out_spec pa active names nodes :
  lookup_fan_out pa active names = Ok nodes ->
  Forall2 (fun target node =>
             if Dict.contains pa target then Dict.get pa target = Some node
             else Dict.get active target = Some node) names nodes.
Proof.
  revert nodes. induction names as [|n rest IH]; intros nodes; simpl.
  - intros [= <-]. constructor.
  - unfold Dict.subscript.
    destruct (Dict.contains pa n) eqn:Hc.
    + destruct (Dict.get pa n) as [a|] eqn:Hn; simpl; [|done].
      destruct (lookup_fan_out pa active rest) as [more|e]; simpl; [|done].
      intros [= <-]. constructor; [by rewrite Hc|by apply IH].
    + destruct (Dict.get active n) as [a|] eqn:Hn; simpl; [|done].
      destruct (lookup_fan_out pa active rest) as [more|e]; simpl; [|done].
      intros [= <-]. constructor; [by rewrite Hc|by apply IH].
Qed.

Lemma lookup_fan_out_returns pa active names :
  (forall target, target ∈ names ->
     Dict.contains pa target = true \/ is_Some (Dict.get active target)) ->
  exists nodes, lookup_fan_out pa active names = Ok nodes.
Proof.
  induction names as [|n rest IH]; intros Hnames; simpl; [eauto|].
  destruct IH as [more Hmore]. { intros t Ht. apply Hnames. by right. }
  rewrite Hmore. unfold Dict.subscript.
  destruct (Dict.contains pa n) eqn:Hc.
  - unfold Dict.contains in Hc. apply bool_decide_eq_true in Hc as [a Ha].
    rewrite Ha. simpl. eauto.
  - destruct (Hnames n) as [?|[a Ha]]; [left|congruence|]. rewrite Ha. simpl. eauto.
Qed.

Lemma create_parallel_agent_spec self active pa name node :
  (create_parallel_agent self active pa name).1 = Ok node ->
  exists config fan_in fan_out fan_out_agents fan_in_agent llm_factory,
    Dict.get (agents self) name = Some (ParallelData config fan_in fan_out) /\
    node = ParallelNode Factory (cfg_name config) (cfg_instruction config) fan_out_agents
             fan_in_agent llm_factory (cfg_default_request_params config) /\
    lookup_fan_out pa active fan_out = Ok fan_out_agents /\
    Dict.get active fan_in = Some fan_in_agent /\
    factory_for self (cfg_model config) None = Ok llm_factory.
Proof.
  unfold DecoratorApp.create_parallel_agent. rewrite io_bind_fst. unfold Dict.subscript.
  destruct (Dict.get (agents self) name) as [d|] eqn:Hget; simpl; [|done].
  destruct d as [c|c ch|config fan_in fan_out|c o ev mr mx]; simpl; try done.
  rewrite io_bind_fst. simpl.
  destruct (lookup_fan_out pa active fan_out) as [fan_out_agents|e] eqn:Hfo; simpl; [|done].
  rewrite io_bind_fst. simpl.
  destruct (Dict.get active fan_in) as [fan_in_agent|] eqn:Hfi; simpl; [|done].
  rewrite io_bind_fst, get_model_factory_factory_for.
  destruct (factory_for self (cfg_model config) None) as [llm_factory|e] eqn:Hf; simpl; [|done].
  intros [= <-]. by eexists config, fan_in, fan_out, fan_out_agents, fan_in_agent, llm_factory.
Qed.

Lemma create_parallel_agent_returns self active pa name config fan_in fan_out :
  Dict.get (agents self) name = Some (ParallelData config fan_in fan_out) ->
  (forall target, target ∈ fan_out ->
     Dict.contains pa target = true \/ is_Some (Dict.get active target)) ->
  is_Some (Dict.get active fan_in) ->
  is_Some (returned_value (factory_for self (cfg_model config) None)) ->
  exists node, (create_parallel_agent self active pa name).1 = Ok node.
Proof.
  intros Hget Hfo [fi Hfi] [f Hf].
  apply lookup_fan_out_returns in Hfo as [nodes Hnodes].
  unfold DecoratorApp.create_parallel_agent. rewrite io_bind_fst. unfold Dict.subscript.
  rewrite Hget. simpl. rewrite io_bind_fst. simpl. rewrite Hnodes. simpl.
  rewrite io_bind_fst. simpl. rewrite Hfi. simpl.
  rewrite io_bind_fst, get_model_factory_factory_for.
  destruct (factory_for self (cfg_model config) None) as [llm_factory|e]; simpl; [eauto|done].
Qed.

Lemma parallel_inv_empty self active : parallel_inv self active [].
Proof.
  unfold DecoratorApp.parallel_inv. simpl.
  split_and!; [intros n Hn|intros n t Hn|intros n Hn]; by apply elem_of_nil in Hn.
Qed.

Lemma parallel_inv_set self active pa name node :
  parallel_inv self active pa ->
  name ∉ Dict.keys pa ->
  (forall target, fan_out_edge (agents self) name target ->
     is_parallel (agents self) target -> target ∈ Dict.keys pa) ->
  (create_parallel_agent self active pa name).1 = Ok node ->
  parallel_inv self active (Dict.set pa name node).
Proof.
  intros (Hpar & Hclosed & Hwired) Hfresh Hdeps Hnode.
  apply create_parallel_agent_spec in Hnode
    as (config & fan_in & fan_out & fo & fi & f & Hget & -> & Hfo & Hfi & Hf).
  assert (is_parallel (agents self) name) as Hname by (by exists config, fan_in, fan_out).
  unfold DecoratorApp.parallel_inv. rewrite keys_set_new; [|done].
  split_and!.
  - intros n [Hn| ->%list_elem_of_singleton]%elem_of_app; auto.
  - intros n t [Hn| ->%list_elem_of_singleton]%elem_of_app Hedge Ht; apply elem_of_app; left; eauto.
  - intros n [Hn| ->%list_elem_of_singleton]%elem_of_app.
    + destruct (Hwired n Hn) as (c' & fi' & fo' & foa' & fia' & f' & Hg' & Hn' & Hfi' & Hf' & Hall').
      exists c', fi', fo', foa', fia', f'. split_and!; [done| |done|done|].
      * rewrite get_set. rewrite decide_False; [done|]. by intros ->.
      * eapply Forall2_impl_elem; [exact Hall'|]. intros t nd Ht [Hp Hnp]. split; [|done].
        intros Hpt. rewrite get_set. rewrite decide_False; [by apply Hp|].
        intros ->. apply Hfresh. apply (Hclosed n); [done| |done].
        unfold fan_out_edge, fan_out_of. by rewrite Hg'.
    + exists config, fan_in, fan_out, fo, fi, f. split_and!; [done| |done|done|].
      * rewrite get_set. by rewrite decide_True.
      * apply lookup_fan_out_spec in Hfo.
        eapply Forall2_impl_elem; [exact Hfo|]. intros t nd Ht Hlook. simpl in Hlook.
        assert (fan_out_edge (agents self) name t) as Hedge.
        { unfold fan_out_edge, fan_out_of. by rewrite Hget. }
        split.
        -- intros Hpt. pose proof (Hdeps t Hedge Hpt) as Hin.
           pose proof Hin as Hc%contains_keys. rewrite Hc in Hlook.
           rewrite get_set. rewrite decide_False; [done|]. by intros ->.
        -- intros Hnpt. destruct (Dict.contains pa t) eqn:Hc; [|done].
           apply contains_keys in Hc. by apply Hpar in Hc.
Qed.

Lemma list_to_set_append_new ordered order :
  (list_to_set (append_new ordered order) : gset string)
  = list_to_set ordered ∪ list_to_set order.
Proof.
  revert order. induction ordered as [|a rest IH]; intros order; simpl.
  - set_solver.
  - case_decide as Ha; rewrite IH.
    + set_solver.
    + rewrite list_to_set_app_L. set_solver.
Qed.

Lemma create_ordered_inv self active ordered pa pa' :
  parallel_inv self active pa ->
  deps_first (agents self) (list_to_set (Dict.keys pa)) ordered ->
  (create_ordered self active ordered pa).1 = Ok pa' ->
  parallel_inv self active pa'.
Proof.
  revert pa. induction ordered as [|a rest IH]; intros pa Hinv Hdeps; simpl.
  - by intros [= <-].
  - destruct Hdeps as [Ha Hrest]. destruct (Dict.contains pa a) eqn:Hc.
    + apply contains_keys in Hc. apply IH; [done|].
      replace (list_to_set (Dict.keys pa) : gset string)
        with ({[a]} ∪ list_to_set (Dict.keys pa) : gset string); [done|].
      set_solver.
    + assert (a ∉ Dict.keys pa) as Hfresh by (intros Hin%contains_keys; congruence).
      rewrite io_bind_fst.
      destruct (create_parallel_agent self active pa a).1 as [node|e] eqn:Hnode; [|done].
      apply IH.
      * apply parallel_inv_set; [done..| |done].
        intros t Ht Hpt. pose proof (Ha t Ht Hpt). set_solver.
      * rewrite keys_set_new by done. rewrite list_to_set_app_L.
        replace (list_to_set (Dict.keys pa) ∪ list_to_set [a] : gset string)
          with ({[a]} ∪ list_to_set (Dict.keys pa) : gset string); [done|]. set_solver.
Qed.

Lemma create_ordered_returns self active ordered pa :
  parallel_buildable self active ->
  parallel_inv self active pa ->
  deps_first (agents self) (list_to_set (Dict.keys pa)) ordered ->
  (forall d, d ∈ ordered -> is_parallel (agents self) d) ->
  exists pa', (create_ordered self active ordered pa).1 = Ok pa'.
Proof.
  intros Hbuild. revert pa. induction ordered as [|a rest IH]; intros pa Hinv Hdeps Hpar; simpl.
  - eauto.
  - destruct Hdeps as [Ha Hrest]. destruct (Dict.contains pa a) eqn:Hc.
    + apply contains_keys in Hc. apply IH; [done| |].
      * replace (list_to_set (Dict.keys pa) : gset string)
          with ({[a]} ∪ list_to_set (Dict.keys pa) : gset string); [done|].
        set_solver.
      * intros d Hd. apply Hpar. by right.
    + assert (a ∉ Dict.keys pa) as Hfresh by (intros Hin%contains_keys; congruence).
      destruct (Hpar a) as (config & fan_in & fan_out & Hget); [left|].
      destruct (Hbuild a config fan_in fan_out Hget) as (Hfi & Hfo & Hf).
      destruct (create_parallel_agent_returns self active pa a config fan_in fan_out Hget)
        as [node Hnode]; [|done..|].
      { intros t Ht. destruct (Hfo t Ht) as [Hpt|?]; [left|by right].
        apply contains_keys.
        assert (t ∈ (list_to_set (Dict.keys pa) : gset string)); [|set_solver].
        apply Ha; [|done]. unfold fan_out_edge, fan_out_of. by rewrite Hget. }
      rewrite io_bind_fst, Hnode. apply IH.
      * apply parallel_inv_set; [done..| |done].
        intros t Ht Hpt. pose proof (Ha t Ht Hpt). set_solver.
      * rewrite keys_set_new by done. rewrite list_to_set_app_L.
        replace (list_to_set (Dict.keys pa) ∪ list_to_set [a] : gset string)
          with ({[a]} ∪ list_to_set (Dict.keys pa) : gset string); [done|]. set_solver.
      * intros d Hd. apply Hpar. by right.
Qed.

Lemma create_parallel_loop_inv self active names v pa pa' :
  v = list_to_set (Dict.keys pa) ->
  parallel_inv self active pa ->
  (create_parallel_loop self active names v pa).1 = Ok pa' ->
  parallel_inv self active pa'.
Proof.
  revert v pa. induction names as [|name rest IH]; intros v pa Hv Hinv;
    cbn [DecoratorApp.create_parallel_loop].
  - by intros [= <-].
  - case_decide; [by apply IH|].
    destruct (get_parallel_dependencies _ _ _ _ _) as [[[ordered w]|e]|] eqn:Hrun;
      [|by destruct e|done].
    apply gpd_returned in Hrun as [(_ & Hvis & _ & _ & Hord) _]. simpl in *.
    rewrite io_bind_fst.
    destruct (create_ordered self active ordered pa).1 as [pa1|e] eqn:Hpa1; [|done].
    apply IH.
    + rewrite Hvis, (create_ordered_keys _ _ _ _ _ _ _ _ _ Hpa1), list_to_set_append_new.
      by rewrite Hv.
    + eapply create_ordered_inv; [done| |done]. by rewrite <- Hv.
Qed.

Lemma create_parallel_loop_returns self active names v pa :
  acyclic (agents self) ->
  parallel_buildable self active ->
  v = list_to_set (Dict.keys pa) ->
  parallel_inv self active pa ->
  exists pa', (create_parallel_loop self active names v pa).1 = Ok pa'.
Proof.
  intros Hacyc Hbuild. revert v pa. induction names as [|name rest IH]; intros v pa Hv Hinv;
    cbn [DecoratorApp.create_parallel_loop].
  - simpl. eauto.
  - case_decide; [by apply IH|].
    destruct (get_parallel_dependencies _ _ _ _ _) as [[[ordered w]|e]|] eqn:Hrun.
    + apply gpd_returned in Hrun as [(_ & Hvis & _ & Hfresh & Hord) _]. simpl in *.
      destruct (create_ordered_returns self active ordered pa Hbuild Hinv) as [pa1 Hpa1].
      { by rewrite <- Hv. }
      { intros d Hd. by apply Hfresh in Hd as (_ & _ & ?). }
      rewrite io_bind_fst, Hpa1. apply IH.
      * rewrite Hvis, (create_ordered_keys _ _ _ _ _ _ _ _ _ Hpa1), list_to_set_append_new.
        by rewrite Hv.
      * eapply create_ordered_inv; [done| |done]. by rewrite <- Hv.
    + apply (gpd_raised _ _ _ _ _ _ []) in Hrun as (p & n & cyc & _ & Hchain & _); [|done..].
      destruct (Hacyc n). by eapply chain_tc.
    + by apply gpd_enough_fuel in Hrun.
Qed.

(** X14. When [_create_parallel_agents] returns, the registry has no
    cycle of fan-out references and the dictionary returned holds exactly
    the registered parallel agents, each once, every one after the
    parallel agents it fans out to; and every entry is the [ParallelLLM]
    of its registry entry, wired to the active agent named as fan-in and,
    for each fan-out target in the declared order, to the entry of this
    same dictionary when the target is a registered parallel agent and to
    the active agent of that name otherwise. *)
Theorem parallel_agents_wired self active pa :
  (create_parallel_agents self active).1 = Ok pa ->
  acyclic (agents self) /\
  NoDup (Dict.keys pa) /\
  (forall n, n ∈ Dict.keys pa <-> is_parallel (agents self) n) /\
  (forall a b, a ∈ Dict.keys pa -> fan_out_edge (agents self) a b ->
     is_parallel (agents self) b -> before (Dict.keys pa) b a) /\
  (forall n, n ∈ Dict.keys pa -> parallel_wired self active pa n).
Proof.
  intros Hrun.
  pose proof (create_parallel_loop_keys _ _ _ _ _ _ _ _ _ _ _ Hrun) as Horder.
  pose proof (build_order_topological _ _ _ Horder) as (Hnd & Hall & Hbefore).
  apply create_parallel_loop_inv in Hrun as (Hpar & _ & Hwired);
    [|done|apply parallel_inv_empty].
  split_and!; [|done| |done|done].
  - by eapply build_order_acyclic.
  - intros n. split; auto.
Qed.

(** X15. [_create_parallel_agents] returns whenever the registry has no
    cycle of fan-out references, the fan-in agent of every parallel agent
    and its fan-out targets that are not parallel agents themselves are
    among the active agents, and the model factory can be created for
    every parallel agent. *)
Theorem parallel_agents_built self active :
  acyclic (agents self) ->
  parallel_buildable self active ->
  exists pa, (create_parallel_agents self active).1 = Ok pa.
Proof.
  intros Hacyc Hbuild. apply create_parallel_loop_returns; [done..|apply parallel_inv_empty].
Qed.

Lemma lookup_fan_out_failure pa active names e :
  lookup_fan_out pa active names = Raise e ->
  exists target, e = KeyError target /\ target ∈ names /\
    Dict.contains pa target = false /\ Dict.get active target = None.
Proof.
  induction names as [|n rest IH]; simpl; [done|].
  unfold Dict.subscript. destruct (Dict.contains pa n) eqn:Hc.
  - pose proof Hc as [a Ha]%bool_decide_eq_true. rewrite Ha. simpl.
    destruct (lookup_fan_out pa active rest) as [more|e']; simpl; [done|].
    intros [= ->]. destruct IH as (t & ? & ? & ? & ?); [done|].
    exists t. split_and!; [done|by right|done..].
  - destruct (Dict.get active n) as [a|] eqn:Ha; simpl.
    + destruct (lookup_fan_out pa active rest) as [more|e']; simpl; [done|].
      intros [= ->]. destruct IH as (t & ? & ? & ? & ?); [done|].
      exists t. split_and!; [done|by right|done..].
    + intros [= <-]. exists n. split_and!; [done|left|done..].
Qed.

Lemma create_parallel_agent_failure self active pa name config fan_in fan_out e :
  Dict.get (agents self) name = Some (ParallelData config fan_in fan_out) ->
  (create_parallel_agent self active pa name).1 = Raise e ->
  (exists target, e = KeyError target /\ target ∈ fan_out /\
     Dict.contains pa target = false /\ Dict.get active target = None) \/
  (e = KeyError fan_in /\ Dict.get active fan_in = None) \/
  factory_for self (cfg_model config) None = Raise e.
Proof.
  intros Hget. unfold DecoratorApp.create_parallel_agent. rewrite io_bind_fst.
  unfold Dict.subscript. rewrite Hget. simpl. rewrite io_bind_fst. simpl.
  destruct (lookup_fan_out pa active fan_out) as [fan_out_agents|e'] eqn:Hfo; simpl.
  2:{ intros [= ->]. left. by apply lookup_fan_out_failure. }
  rewrite io_bind_fst. simpl.
  destruct (Dict.get active fan_in) as [fan_in_agent|] eqn:Hfi; simpl.
  2:{ intros [= <-]. right. by left. }
  rewrite io_bind_fst, get_model_factory_factory_for.
  destruct (factory_for self (cfg_model config) None) as [llm_factory|e'] eqn:Hf; simpl; [done|].
  intros [= ->]. right. by right.
Qed.

Lemma create_ordered_failure self active ordered pa e :
  parallel_inv self active pa ->
  deps_first (agents self) (list_to_set (Dict.keys pa)) ordered ->
  (forall d, d ∈ ordered -> is_parallel (agents self) d) ->
  (create_ordered self active ordered pa).1 = Raise e ->
  parallel_unbuildable self active e.
Proof.
  revert pa. induction ordered as [|a rest IH]; intros pa Hinv Hdeps Hpar; simpl; [done|].
  destruct Hdeps as [Ha Hrest]. destruct (Dict.contains pa a) eqn:Hc.
  - apply contains_keys in Hc. apply IH; [done| |].
    + replace (list_to_set (Dict.keys pa) : gset string)
        with ({[a]} ∪ list_to_set (Dict.keys pa) : gset string); [done|]. set_solver.
    + intros d Hd. apply Hpar. by right.
  - assert (a ∉ Dict.keys pa) as Hfresh by (intros Hin%contains_keys; congruence).
    destruct (Hpar a) as (config & fan_in & fan_out & Hget); [left|].
    rewrite io_bind_fst.
    destruct (create_parallel_agent self active pa a).1 as [node|e'] eqn:Hnode.
    + apply IH.
      * apply parallel_inv_set; [done..| |done].
        intros t Ht Hpt. pose proof (Ha t Ht Hpt). set_solver.
      * rewrite keys_set_new by done. rewrite list_to_set_app_L.
        replace (list_to_set (Dict.keys pa) ∪ list_to_set [a] : gset string)
          with ({[a]} ∪ list_to_set (Dict.keys pa) : gset string); [done|]. set_solver.
      * intros d Hd. apply Hpar. by right.
    + intros [= ->].
      apply (create_parallel_agent_failure _ _ _ _ _ _ _ _ Hget) in Hnode
        as [(t & -> & Ht & Hct & Hat)|[?|?]];
        exists a, config, fan_in, fan_out; (split; [done|]); [left|by right; left|by right; right].
      exists t. split_and!; [done..| |done]. intros Hpt.
      assert (t ∈ (list_to_set (Dict.keys pa) : gset string)) as Hin.
      { apply Ha; [|done]. unfold fan_out_edge, fan_out_of. by rewrite Hget. }
      apply elem_of_list_to_set, contains_keys in Hin. congruence.
Qed.

Lemma create_parallel_loop_failure self active names v pa e :
  v = list_to_set (Dict.keys pa) ->
  parallel_inv self active pa ->
  (create_parallel_loop self active names v pa).1 = Raise e ->
  (exists root p n cyc,
     e = ValueError (creating_message root (circular_message hash_order p n)) /\
     chain (fan_out_edge (agents self)) n cyc n /\ forall x, x ∈ n :: cyc -> x ∈ p) \/
  parallel_unbuildable self active e.
Proof.
  revert v pa. induction names as [|name rest IH]; intros v pa Hv Hinv;
    cbn [DecoratorApp.create_parallel_loop]; [done|].
  case_decide; [by apply IH|].
  destruct (get_parallel_dependencies _ _ _ _ _) as [[[ordered w]|e']|] eqn:Hrun.
  - apply gpd_returned in Hrun as [(_ & Hvis & _ & Hfresh & Hord) _]. simpl in *.
    assert (forall d, d ∈ ordered -> is_parallel (agents self) d) as Hpar.
    { intros d Hd. by apply Hfresh in Hd as (_ & _ & ?). }
    rewrite io_bind_fst.
    destruct (create_ordered self active ordered pa).1 as [pa1|e'] eqn:Hpa1.
    + apply IH.
      * rewrite Hvis, (create_ordered_keys _ _ _ _ _ _ _ _ _ Hpa1), list_to_set_append_new.
        by rewrite Hv.
      * eapply create_ordered_inv; [done| |done]. by rewrite <- Hv.
    + intros [= ->]. right. eapply create_ordered_failure; [done| |done..]. by rewrite <- Hv.
  - apply (gpd_raised _ _ _ _ _ _ []) in Hrun as (p & n & cyc & -> & ? & ?); [|done..].
    simpl. intros [= <-]. left. by exists name, p, n, cyc.
  - by apply gpd_enough_fuel in Hrun.
Qed.

(** X21. [_create_parallel_agents] raises for two reasons only: a cycle
    of fan-out references, reported by a [ValueError] that names the root
    being ordered and a path set holding the whole cycle; or a registered
    parallel agent that cannot be built, because its fan-in agent or a
    fan-out target that is no parallel agent is not among the active
    agents ([KeyError] of that name) or because its factory cannot be
    created.  The traversal itself never fails otherwise, and a parallel
    fan-out target is never reported missing. *)
Theorem parallel_agents_failure self active e :
  (create_parallel_agents self active).1 = Raise e ->
  (exists root p n cyc,
     e = ValueError (creating_message root (circular_message hash_order p n)) /\
     chain (fan_out_edge (agents self)) n cyc n /\ forall x, x ∈ n :: cyc -> x ∈ p) \/
  parallel_unbuildable self active e.
Proof.
  apply create_parallel_loop_failure; [done|apply parallel_inv_empty].
Qed.

End ParallelWiring.

Lemma team_registry_acyclic : DecoratorApp.acyclic DecoratorApp.team_registry.
Proof. apply (build_order_acyclic elements _ ["Q"; "P"]). vm_compute. reflexivity. Qed.

Lemma parallel_agents_wired_witness :
  exists pa,
    (DecoratorApp.create_parallel_agents unit (fun _ _ => Ok tt) DecoratorApp.some_defaults
       (fun _ => "RequestParams") elements DecoratorApp.team DecoratorApp.team_active).1
      = Ok pa /\
    (DecoratorApp.acyclic (DecoratorApp.agents DecoratorApp.team) /\
     NoDup (Dict.keys pa) /\
     (forall n, n ∈ Dict.keys pa
                <-> DecoratorApp.is_parallel (DecoratorApp.agents DecoratorApp.team) n) /\
     (forall a b, a ∈ Dict.keys pa ->
        DecoratorApp.fan_out_edge (DecoratorApp.agents DecoratorApp.team) a b ->
        DecoratorApp.is_parallel (DecoratorApp.agents DecoratorApp.team) b ->
        DecoratorApp.before (Dict.keys pa) b a) /\
     (forall n, n ∈ Dict.keys pa ->
        DecoratorApp.parallel_wired unit (fun _ _ => Ok tt) DecoratorApp.some_defaults
          DecoratorApp.team DecoratorApp.team_active pa n)).
Proof.
  eexists. split; [vm_compute; reflexivity|].
  apply (parallel_agents_wired unit (fun _ _ => Ok tt) DecoratorApp.some_defaults
           (fun _ => "RequestParams") elements DecoratorApp.team DecoratorApp.team_active).
  vm_compute. reflexivity.
Defined.

Lemma team_buildable :
  DecoratorApp.parallel_buildable unit (fun _ _ => Ok tt) DecoratorApp.some_defaults
    DecoratorApp.team DecoratorApp.team_active.
Proof.
  intros name config fan_in fan_out Hget. simpl in Hget.
  repeat case_decide; simplify_eq; (split_and!; [by eexists| |by eexists]).
  - intros t [->|[->|[]%elem_of_nil]%elem_of_cons]%elem_of_cons.
    + left. by eexists _, _, _.
    + right. by eexists.
  - intros t [->|[]%elem_of_nil]%elem_of_cons. right. by eexists.
Qed.

Lemma parallel_agents_built_witness :
  exists pa,
    (DecoratorApp.create_parallel_agents unit (fun _ _ => Ok tt) DecoratorApp.some_defaults
       (fun _ => "RequestParams") elements DecoratorApp.team DecoratorApp.team_active).1
    = Ok pa.
Proof.
  apply parallel_agents_built.
  - apply team_registry_acyclic.
  - apply team_buildable.
Defined.

Section CompositeWiring.
Import DecoratorApp.
Variable Factory : Type.
Variable parse_model_string : option string -> result string.
Variable create_factory : option string -> RequestParams -> result Factory.
Variable RequestParams_defaults : RequestParams.
Variable repr_request_params : option RequestParams -> string.

Local Abbreviation factory_for :=
  (DecoratorApp.factory_for Factory create_factory RequestParams_defaults).
Local Abbreviation lookup_all := (DecoratorApp.lookup_all Factory).
Local Abbreviation create_orchestrator :=
  (DecoratorApp.create_orchestrator Factory parse_model_string create_factory
     RequestParams_defaults repr_request_params).
Local Abbreviation create_orchestrators_loop :=
  (DecoratorApp.create_orchestrators_loop Factory parse_model_string create_factory
     RequestParams_defaults repr_request_params).
Local Abbreviation create_orchestrators :=
  (DecoratorApp.create_orchestrators Factory parse_model_string create_factory
     RequestParams_defaults repr_request_params).
Local Abbreviation orchestrator_wired :=
  (DecoratorApp.orchestrator_wired Factory parse_model_string create_factory
     RequestParams_defaults).
Local Abbreviation orchestrator_params :=
  (DecoratorApp.orchestrator_params RequestParams_defaults).
Local Abbreviation create_evaluator_optimizer :=
  (DecoratorApp.create_evaluator_optimizer Factory create_factory RequestParams_defaults
     repr_request_params).
Local Abbreviation create_evaluator_optimizers_loop :=
  (DecoratorApp.create_evaluator_optimizers_loop Factory create_factory
     RequestParams_defaults repr_request_params).
Local Abbreviation create_evaluator_optimizers :=
  (DecoratorApp.create_evaluator_optimizers Factory create_factory RequestParams_defaults
     repr_request_params).
Local Abbreviation evaluator_optimizer_wired :=
  (DecoratorApp.evaluator_optimizer_wired Factory create_factory RequestParams_defaults).
Local Abbreviation built := (Dict.t (RuntimeNode Factory)).

Implicit Types (self : MCPAgentDecorator) (active : built).

Lemma get_elem_of_NoDup {V} (d : Dict.t V) k v :
  NoDup (Dict.keys d) -> (k, v) ∈ d -> Dict.get d k = Some v.
Proof.
  induction d as [|[k0 v0] d IH]; simpl; intros Hnd Hin; [by apply elem_of_nil in Hin|].
  apply NoDup_cons in Hnd as [Hk0 Hnd]. apply elem_of_cons in Hin as [[= -> ->]|Hin].
  - by rewrite decide_True.
  - rewrite decide_False; [by apply IH|]. intros ->. apply Hk0.
    apply list_elem_of_fmap. by exists (k, v).
Qed.

Lemma lookup_all_spec active names nodes :
  lookup_all active names = Ok nodes ->
  Forall2 (fun child node => Dict.get active child = Some node) names nodes.
Proof.
  revert nodes. induction names as [|n rest IH]; intros nodes; simpl.
  - intros [= <-]. constructor.
  - unfold Dict.subscript. destruct (Dict.get active n) as [a|] eqn:Hn; simpl; [|done].
    destruct (lookup_all active rest) as [more|e]; simpl; [|done].
    intros [= <-]. constructor; [done|by apply IH].
Qed.

Lemma create_orchestrator_spec self active config child_agents node :
  (create_orchestrator self active config child_agents).1 = Ok node ->
  exists resolved_model children llm_factory,
    parse_model_string (cfg_model config) = Ok resolved_model /\
    factory_for self (cfg_model config) (Some (orchestrator_params config resolved_model))
      = Ok llm_factory /\
    Forall2 (fun child node => Dict.get active child = Some node) child_agents children /\
    node = OrchestratorNode Factory (cfg_name config) (cfg_instruction config) children
             llm_factory (orchestrator_params config resolved_model) "full".
Proof.
  unfold DecoratorApp.create_orchestrator. rewrite io_bind_fst. simpl.
  destruct (parse_model_string (cfg_model config)) as [resolved|e] eqn:Hparse; simpl; [|done].
  assert (match cfg_default_request_params config with
          | Some params =>
              {| rp_model := Some resolved; rp_use_history := cfg_use_history config;
                 rp_maxTokens := rp_maxTokens params |}
          | None =>
              {| rp_model := Some resolved; rp_use_history := cfg_use_history config;
                 rp_maxTokens := rp_maxTokens RequestParams_defaults |}
          end = orchestrator_params config resolved) as ->.
  { unfold DecoratorApp.orchestrator_params. by destruct (cfg_default_request_params config). }
  rewrite io_bind_fst, get_model_factory_result.
  fold (factory_for self (cfg_model config) (Some (orchestrator_params config resolved))).
  destruct (factory_for _ _ _) as [llm_factory|e] eqn:Hf; simpl; [|done].
  rewrite io_bind_fst. simpl.
  destruct (lookup_all active child_agents) as [children|e] eqn:Hch; simpl; [|done].
  intros [= <-]. exists resolved, children, llm_factory. split_and!; try done.
  by apply lookup_all_spec.
Qed.

Lemma create_orchestrators_loop_spec self active items acc orchestrators :
  (forall k v, (k, v) ∈ items -> Dict.get (agents self) k = Some v) ->
  NoDup (Dict.keys acc ++ items.*1) ->
  (forall n, n ∈ Dict.keys acc -> orchestrator_wired self active acc n) ->
  (create_orchestrators_loop self active items acc).1 = Ok orchestrators ->
  Dict.keys orchestrators = Dict.keys acc ++ names_of_type ORCHESTRATOR items /\
  forall n, n ∈ Dict.keys orchestrators -> orchestrator_wired self active orchestrators n.
Proof.
  revert acc. induction items as [|[name data] rest IH]; intros acc Hreg Hnd Hacc.
  - simpl. intros [= <-]. by rewrite app_nil_r.
  - assert (forall k v, (k, v) ∈ rest -> Dict.get (agents self) k = Some v) as Hreg'.
    { intros k v Hin. apply Hreg. by right. }
    assert (NoDup (Dict.keys acc ++ rest.*1)) as Hnd'.
    { apply NoDup_app in Hnd as (? & Hdisj & [_ ?]%NoDup_cons).
      apply NoDup_app. split_and!; [done| |done]. intros x Hx Hx'. apply (Hdisj x Hx). by right. }
    unfold names_of_type, Dict.items. rewrite filter_cons. simpl.
    destruct data as [c|config children|c fi fo|c o ev mr mx]; simpl;
      try (by apply IH).
    rewrite io_bind_fst.
    destruct (create_orchestrator self active config children).1 as [node|e] eqn:Hnode; [|done].
    assert (name ∉ Dict.keys acc) as Hfresh.
    { apply NoDup_app in Hnd as (_ & Hdisj & _). intros Hin. apply (Hdisj name Hin). left. }
    intros Hrest. apply IH in Hrest as [Hkeys Hwired]; [|done| |].
    + split; [|done]. rewrite Hkeys, keys_set_new by done. by rewrite <- app_assoc.
    + rewrite keys_set_new by done. rewrite <- app_assoc. done.
    + rewrite keys_set_new by done.
      intros n [Hn| ->%list_elem_of_singleton]%elem_of_app.
      * destruct (Hacc n Hn) as (c' & ch' & r' & nodes' & f' & ? & ? & ? & ? & Hget).
        exists c', ch', r', nodes', f'. split_and!; try done.
        rewrite get_set. rewrite decide_False; [done|]. by intros ->.
      * apply create_orchestrator_spec in Hnode as (r & nodes & f & ? & ? & ? & ->).
        exists config, children, r, nodes, f. split_and!; try done.
        -- apply Hreg. left.
        -- rewrite get_set. by rewrite decide_True.
Qed.

(** X16. When [_create_orchestrators] returns, the dictionary returned
    holds the registered orchestrators in registration order, and every
    entry is the [Orchestrator] of its registry entry with plan type
    [full]: its agents are the active agents its children name, in the
    declared order; its request parameters carry the history flag of its
    configuration and the model name parsed from the configuration's own
    model, while its factory is the one created for the model resolved by
    precedence. *)
Theorem orchestrators_wired self active orchestrators :
  NoDup (Dict.keys (agents self)) ->
  (create_orchestrators self active).1 = Ok orchestrators ->
  Dict.keys orchestrators = names_of_type ORCHESTRATOR (agents self) /\
  forall n, n ∈ Dict.keys orchestrators -> orchestrator_wired self active orchestrators n.
Proof.
  intros Hnd Hrun. apply create_orchestrators_loop_spec in Hrun; [done| |done|].
  - intros k v Hin. by apply get_elem_of_NoDup.
  - intros n Hn. by apply elem_of_nil in Hn.
Qed.

Lemma create_evaluator_optimizer_spec self active name optimizer evaluator min_rating
    max_refinements node :
  (create_evaluator_optimizer self active name optimizer evaluator min_rating
     max_refinements).1 = Ok node ->
  exists opt ev rating llm_factory,
    Dict.get active optimizer = Some opt /\
    Dict.get active evaluator = Some ev /\
    QualityRating_getitem min_rating = Ok rating /\
    factory_for self (optimizer_model Factory opt) None = Ok llm_factory /\
    node = EvaluatorOptimizerNode Factory opt ev rating max_refinements llm_factory.
Proof.
  unfold DecoratorApp.create_evaluator_optimizer.
  destruct (Dict.get active optimizer) as [opt|]; [|done].
  destruct (Dict.get active evaluator) as [ev|]; [|done].
  rewrite io_bind_fst. simpl.
  destruct (QualityRating_getitem min_rating) as [rating|e]; simpl; [|done].
  rewrite io_bind_fst, get_model_factory_result.
  fold (optimizer_model Factory opt).
  fold (factory_for self (optimizer_model Factory opt) None).
  destruct (factory_for _ _ _) as [llm_factory|e] eqn:Hf; simpl; [|done].
  intros [= <-]. by exists opt, ev, rating, llm_factory.
Qed.

Lemma create_evaluator_optimizers_loop_spec self active items acc workflows :
  (forall k v, (k, v) ∈ items -> Dict.get (agents self) k = Some v) ->
  NoDup (Dict.keys acc ++ items.*1) ->
  (forall n, n ∈ Dict.keys acc -> evaluator_optimizer_wired self active acc n) ->
  (create_evaluator_optimizers_loop self active items acc).1 = Ok workflows ->
  Dict.keys workflows = Dict.keys acc ++ names_of_type EVALUATOR_OPTIMIZER items /\
  forall n, n ∈ Dict.keys workflows -> evaluator_optimizer_wired self active workflows n.
Proof.
  revert acc. induction items as [|[name data] rest IH]; intros acc Hreg Hnd Hacc.
  - simpl. intros [= <-]. by rewrite app_nil_r.
  - assert (forall k v, (k, v) ∈ rest -> Dict.get (agents self) k = Some v) as Hreg'.
    { intros k v Hin. apply Hreg. by right. }
    assert (NoDup (Dict.keys acc ++ rest.*1)) as Hnd'.
    { apply NoDup_app in Hnd as (? & Hdisj & [_ ?]%NoDup_cons).
      apply NoDup_app. split_and!; [done| |done]. intros x Hx Hx'. apply (Hdisj x Hx). by right. }
    unfold names_of_type, Dict.items. rewrite filter_cons. simpl.
    destruct data as [c|c ch|c fi fo|config optimizer evaluator min_rating max_refinements];
      simpl; try (by apply IH).
    rewrite io_bind_fst.
    destruct (create_evaluator_optimizer self active name optimizer evaluator min_rating
                max_refinements).1 as [node|e] eqn:Hnode; [|done].
    assert (name ∉ Dict.keys acc) as Hfresh.
    { apply NoDup_app in Hnd as (_ & Hdisj & _). intros Hin. apply (Hdisj name Hin). left. }
    intros Hrest. apply IH in Hrest as [Hkeys Hwired]; [|done| |].
    + split; [|done]. rewrite Hkeys, keys_set_new by done. by rewrite <- app_assoc.
    + rewrite keys_set_new by done. rewrite <- app_assoc. done.
    + rewrite keys_set_new by done.
      intros n [Hn| ->%list_elem_of_singleton]%elem_of_app.
      * destruct (Hacc n Hn)
          as (c' & o' & e' & mr' & mx' & opt' & ev' & r' & f' & ? & ? & ? & ? & ? & Hget).
        exists c', o', e', mr', mx', opt', ev', r', f'. split_and!; try done.
        rewrite get_set. rewrite decide_False; [done|]. by intros ->.
      * apply create_evaluator_optimizer_spec in Hnode
          as (opt & ev & r & f & ? & ? & ? & ? & ->).
        exists config, optimizer, evaluator, min_rating, max_refinements, opt, ev, r, f.
        split_and!; try done.
        -- apply Hreg. left.
        -- rewrite get_set. by rewrite decide_True.
Qed.

(** X17. When [_create_evaluator_optimizers] returns, the dictionary
    returned holds the registered evaluator-optimizers in registration
    order, and every entry is the workflow of its registry entry: its
    optimizer and evaluator are the active agents of those names, its
    minimum rating is the member of [QualityRating] of the registered
    name, and its factory is the one created for the optimizer's own
    model when the optimizer is an [Agent] and for no model otherwise. *)
Theorem evaluator_optimizers_wired self active workflows :
  NoDup (Dict.keys (agents self)) ->
  (create_evaluator_optimizers self active).1 = Ok workflows ->
  Dict.keys workflows = names_of_type EVALUATOR_OPTIMIZER (agents self) /\
  forall n, n ∈ Dict.keys workflows -> evaluator_optimizer_wired self active workflows n.
Proof.
  intros Hnd Hrun. apply create_evaluator_optimizers_loop_spec in Hrun; [done| |done|].
  - intros k v Hin. by apply get_elem_of_NoDup.
  - intros n Hn. by apply elem_of_nil in Hn.
Qed.

Lemma create_orchestrator_failure self active config child_agents e :
  (create_orchestrator self active config child_agents).1 = Raise e ->
  parse_model_string (cfg_model config) = Raise e \/
  (exists resolved_model,
     parse_model_string (cfg_model config) = Ok resolved_model /\
     factory_for self (cfg_model config) (Some (orchestrator_params config resolved_model))
       = Raise e) \/
  (exists child, e = KeyError child /\ child ∈ child_agents /\ Dict.get active child = None).
Proof.
  unfold DecoratorApp.create_orchestrator. rewrite io_bind_fst. simpl.
  destruct (parse_model_string (cfg_model config)) as [resolved|e'] eqn:Hparse; simpl;
    [|intros [= ->]; by left].
  assert (match cfg_default_request_params config with
          | Some params =>
              {| rp_model := Some resolved; rp_use_history := cfg_use_history config;
                 rp_maxTokens := rp_maxTokens params |}
          | None =>
              {| rp_model := Some resolved; rp_use_history := cfg_use_history config;
                 rp_maxTokens := rp_maxTokens RequestParams_defaults |}
          end = orchestrator_params config resolved) as ->.
  { unfold DecoratorApp.orchestrator_params. by destruct (cfg_default_request_params config). }
  rewrite io_bind_fst, get_model_factory_result.
  fold (factory_for self (cfg_model config) (Some (orchestrator_params config resolved))).
  destruct (factory_for _ _ _) as [llm_factory|e'] eqn:Hf; simpl;
    [|intros [= ->]; right; left; eauto].
  rewrite io_bind_fst. simpl.
  pose proof (lookup_all_missing active child_agents) as Hmissing.
  destruct (DecoratorApp.lookup_all Factory active child_agents) as [children|e']; simpl; [done|].
  intros [= ->]. by right; right.
Qed.

(** X19. When [_create_orchestrators] raises, some registered
    orchestrator is the cause, in one of three ways: its model string
    could not be parsed, its factory could not be created, or one of its
    children is not among the active agents; in the last case the
    exception is the [KeyError] of the child's name alone. *)
Theorem orchestrators_failure self active e :
  (create_orchestrators self active).1 = Raise e ->
  exists name config child_agents,
    (name, OrchestratorData config child_agents) ∈ Dict.items (agents self) /\
    (parse_model_string (cfg_model config) = Raise e \/
     (exists resolved_model,
        parse_model_string (cfg_model config) = Ok resolved_model /\
        factory_for self (cfg_model config) (Some (orchestrator_params config resolved_model))
          = Raise e) \/
     (exists child,
        e = KeyError child /\ child ∈ child_agents /\ Dict.get active child = None)).
Proof.
  unfold DecoratorApp.create_orchestrators. generalize (@nil (string * RuntimeNode Factory)).
  unfold Dict.items. induction (agents self) as [|[name data] rest IH]; intros acc; [done|].
  assert (forall acc',
            (create_orchestrators_loop self active rest acc').1 = Raise e ->
            exists name0 config child_agents,
              (name0, OrchestratorData config child_agents) ∈ (name, data) :: rest /\
              (parse_model_string (cfg_model config) = Raise e \/
               (exists resolved_model,
                  parse_model_string (cfg_model config) = Ok resolved_model /\
                  factory_for self (cfg_model config)
                    (Some (orchestrator_params config resolved_model)) = Raise e) \/
               (exists child,
                  e = KeyError child /\ child ∈ child_agents /\
                  Dict.get active child = None))) as Hrest.
  { intros acc' (n & c & ch & Hin & Hcause)%IH. exists n, c, ch. split; [by right|done]. }
  destruct data as [c|config children|c fi fo|c o ev mr mx]; simpl; try apply Hrest.
  rewrite io_bind_fst.
  destruct (create_orchestrator self active config children).1 as [node|e'] eqn:Hnode;
    [apply Hrest|].
  intros [= ->]. apply create_orchestrator_failure in Hnode.
  exists name, config, children. split; [left|done].
Qed.

(** X20. When [_create_evaluator_optimizers] raises, some registered
    evaluator-optimizer is the cause, in one of three ways: its optimizer
    or its evaluator is not among the active agents, and then the
    exception is a [ValueError] whose message names the workflow and both
    agents; or its minimum rating is no member of [QualityRating]; or its
    factory could not be created. *)
Theorem evaluator_optimizers_failure self active e :
  (create_evaluator_optimizers self active).1 = Raise e ->
  exists name config optimizer evaluator min_rating max_refinements,
    (name, EvaluatorOptimizerData config optimizer evaluator min_rating max_refinements)
      ∈ Dict.items (agents self) /\
    (((Dict.get active optimizer = None \/ Dict.get active evaluator = None) /\
      exists msg, e = ValueError msg /\
        mentions msg name /\ mentions msg optimizer /\ mentions msg evaluator) \/
     (is_Some (Dict.get active optimizer) /\ is_Some (Dict.get active evaluator) /\
      QualityRating_getitem min_rating = Raise e) \/
     (exists opt, Dict.get active optimizer = Some opt /\
        is_Some (Dict.get active evaluator) /\
        factory_for self (optimizer_model Factory opt) None = Raise e)).
Proof.
  unfold DecoratorApp.create_evaluator_optimizers.
  generalize (@nil (string * RuntimeNode Factory)).
  unfold Dict.items. induction (agents self) as [|[name data] rest IH]; intros acc; [done|].
  assert (forall acc',
            (create_evaluator_optimizers_loop self active rest acc').1 = Raise e ->
            exists name0 config optimizer evaluator min_rating max_refinements,
              (name0, EvaluatorOptimizerData config optimizer evaluator min_rating
                        max_refinements) ∈ (name, data) :: rest /\
              (((Dict.get active optimizer = None \/ Dict.get active evaluator = None) /\
                exists msg, e = ValueError msg /\
                  mentions msg name0 /\ mentions msg optimizer /\ mentions msg evaluator) \/
               (is_Some (Dict.get active optimizer) /\ is_Some (Dict.get active evaluator) /\
                QualityRating_getitem min_rating = Raise e) \/
               (exists opt, Dict.get active optimizer = Some opt /\
                  is_Some (Dict.get active evaluator) /\
                  factory_for self (optimizer_model Factory opt) None = Raise e))) as Hrest.
  { intros acc' (n & c & o & ev & mr & mx & Hin & Hcause)%IH.
    exists n, c, o, ev, mr, mx. split; [by right|done]. }
  destruct data as [c|c ch|c fi fo|config optimizer evaluator min_rating max_refinements];
    simpl; try apply Hrest.
  rewrite io_bind_fst.
  destruct (create_evaluator_optimizer self active name optimizer evaluator min_rating
              max_refinements).1 as [node|e'] eqn:Hnode; [apply Hrest|].
  intros [= ->]. exists name, config, optimizer, evaluator, min_rating, max_refinements.
  split; [left|].
  destruct (Dict.get active optimizer) as [opt|] eqn:Hopt,
    (Dict.get active evaluator) as [ev|] eqn:Hev.
  2-4: left; split; [auto|];
    destruct (create_evaluator_optimizer_missing Factory create_factory RequestParams_defaults
                repr_request_params self active name optimizer evaluator min_rating
                max_refinements) as (msg & Hmsg & ?); [rewrite ?Hopt, ?Hev; auto|];
    fold create_evaluator_optimizer in Hmsg; rewrite Hmsg in Hnode; simpl in Hnode;
    exists msg; split; [congruence|done].
  right. revert Hnode. unfold DecoratorApp.create_evaluator_optimizer. rewrite Hopt, Hev.
  rewrite io_bind_fst. simpl.
  destruct (QualityRating_getitem min_rating) as [rating|e'] eqn:Hr; simpl;
    [|intros [= ->]; left; eauto].
  rewrite io_bind_fst, get_model_factory_result.
  fold (optimizer_model Factory opt). fold (factory_for self (optimizer_model Factory opt) None).
  destruct (factory_for _ _ _) as [llm_factory|e'] eqn:Hf; simpl; [done|].
  intros [= ->]. right. exists opt. eauto.
Qed.

Lemma create_orchestrators_keys self active orchestrators :
  NoDup (Dict.keys (agents self)) ->
  (create_orchestrators self active).1 = Ok orchestrators ->
  Dict.keys orchestrators = names_of_type ORCHESTRATOR (agents self).
Proof.
  intros Hnd Hrun. apply create_orchestrators_loop_spec in Hrun as [Hkeys _]; [done| |done|].
  - intros k v Hin. by apply get_elem_of_NoDup.
  - intros n Hn. by apply elem_of_nil in Hn.
Qed.

Lemma create_evaluator_optimizers_keys self active workflows :
  NoDup (Dict.keys (agents self)) ->
  (create_evaluator_optimizers self active).1 = Ok workflows ->
  Dict.keys workflows = names_of_type EVALUATOR_OPTIMIZER (agents self).
Proof.
  intros Hnd Hrun.
  apply create_evaluator_optimizers_loop_spec in Hrun as [Hkeys _]; [done| |done|].
  - intros k v Hin. by apply get_elem_of_NoDup.
  - intros n Hn. by apply elem_of_nil in Hn.
Qed.

End CompositeWiring.

Lemma team_registry_NoDup : NoDup (Dict.keys (DecoratorApp.agents DecoratorApp.team)).
Proof. apply (bool_decide_unpack _). vm_compute. exact I. Qed.

Lemma orchestrators_wired_witness :
  exists orchestrators,
    (DecoratorApp.create_orchestrators unit (fun m => Ok (default "" m)) (fun _ _ => Ok tt)
       DecoratorApp.some_defaults (fun _ => "RequestParams") DecoratorApp.team
       DecoratorApp.team_active).1 = Ok orchestrators /\
    (Dict.keys orchestrators
     = DecoratorApp.names_of_type DecoratorApp.ORCHESTRATOR
         (DecoratorApp.agents DecoratorApp.team) /\
     forall n, n ∈ Dict.keys orchestrators ->
       DecoratorApp.orchestrator_wired unit (fun m => Ok (default "" m)) (fun _ _ => Ok tt)
         DecoratorApp.some_defaults DecoratorApp.team DecoratorApp.team_active
         orchestrators n).
Proof.
  eexists. split; [vm_compute; reflexivity|].
  apply (orchestrators_wired unit (fun m => Ok (default "" m)) (fun _ _ => Ok tt)
           DecoratorApp.some_defaults (fun _ => "RequestParams")).
  - apply team_registry_NoDup.
  - vm_compute. reflexivity.
Defined.

Lemma evaluator_optimizers_wired_witness :
  exists workflows,
    (DecoratorApp.create_evaluator_optimizers unit (fun _ _ => Ok tt)
       DecoratorApp.some_defaults (fun _ => "RequestParams") DecoratorApp.team
       DecoratorApp.team_active).1 = Ok workflows /\
    (Dict.keys workflows
     = DecoratorApp.names_of_type DecoratorApp.EVALUATOR_OPTIMIZER
         (DecoratorApp.agents DecoratorApp.team) /\
     forall n, n ∈ Dict.keys workflows ->
       DecoratorApp.evaluator_optimizer_wired unit (fun _ _ => Ok tt)
         DecoratorApp.some_defaults DecoratorApp.team DecoratorApp.team_active workflows n).
Proof.
  eexists. split; [vm_compute; reflexivity|].
  apply (evaluator_optimizers_wired unit (fun _ _ => Ok tt) DecoratorApp.some_defaults
           (fun _ => "RequestParams")).
  - apply team_registry_NoDup.
  - vm_compute. reflexivity.
Defined.

Lemma orchestrators_failure_witness :
  exists name config child_agents,
    (name, DecoratorApp.OrchestratorData config child_agents)
      ∈ Dict.items DecoratorApp.missing_child_registry /\
    ((fun m => Ok (default "" m)) (DecoratorApp.cfg_model config) = Raise (KeyError "missing") \/
     (exists resolved_model,
        (fun m => Ok (default "" m)) (DecoratorApp.cfg_model config) = Ok resolved_model /\
        DecoratorApp.factory_for unit (fun _ _ => Ok tt) DecoratorApp.some_defaults
          {| DecoratorApp.args_model := None;
             DecoratorApp.context_config := DecoratorApp.context_config DecoratorApp.team;
             DecoratorApp.agents := DecoratorApp.missing_child_registry |}
          (DecoratorApp.cfg_model config)
          (Some (DecoratorApp.orchestrator_params DecoratorApp.some_defaults config
                   resolved_model))
        = Raise (KeyError "missing")) \/
     (exists child,
        KeyError "missing" = KeyError child /\ child ∈ child_agents /\
        Dict.get (@DecoratorApp.built_basic unit) child = None)).
Proof.
  apply (orchestrators_failure unit (fun m => Ok (default "" m)) (fun _ _ => Ok tt)
           DecoratorApp.some_defaults (fun _ => "RequestParams")
           {| DecoratorApp.args_model := None;
              DecoratorApp.context_config := DecoratorApp.context_config DecoratorApp.team;
              DecoratorApp.agents := DecoratorApp.missing_child_registry |}
           DecoratorApp.built_basic (KeyError "missing")).
  vm_compute. reflexivity.
Defined.

Lemma evaluator_optimizers_failure_witness :
  exists name config optimizer evaluator min_rating max_refinements,
    (name, DecoratorApp.EvaluatorOptimizerData config optimizer evaluator min_rating
             max_refinements) ∈ Dict.items DecoratorApp.missing_child_registry /\
    (((Dict.get (@DecoratorApp.built_basic unit) optimizer = None \/
       Dict.get (@DecoratorApp.built_basic unit) evaluator = None) /\
      exists msg,
        ValueError "Missing agents for workflow refine: optimizer=worker, evaluator=missing"
          = ValueError msg /\
        mentions msg name /\ mentions msg optimizer /\ mentions msg evaluator) \/
     (is_Some (Dict.get (@DecoratorApp.built_basic unit) optimizer) /\
      is_Some (Dict.get (@DecoratorApp.built_basic unit) evaluator) /\
      DecoratorApp.QualityRating_getitem min_rating
      = Raise (ValueError
                 "Missing agents for workflow refine: optimizer=worker, evaluator=missing")) \/
     (exists opt, Dict.get (@DecoratorApp.built_basic unit) optimizer = Some opt /\
        is_Some (Dict.get (@DecoratorApp.built_basic unit) evaluator) /\
        DecoratorApp.factory_for unit (fun _ _ => Ok tt) DecoratorApp.some_defaults
          {| DecoratorApp.args_model := None;
             DecoratorApp.context_config := DecoratorApp.context_config DecoratorApp.team;
             DecoratorApp.agents := DecoratorApp.missing_child_registry |}
          (DecoratorApp.optimizer_model unit opt) None
        = Raise (ValueError
                   "Missing agents for workflow refine: optimizer=worker, evaluator=missing"))).
Proof.
  apply (evaluator_optimizers_failure unit (fun _ _ => Ok tt) DecoratorApp.some_defaults
           (fun _ => "RequestParams")
           {| DecoratorApp.args_model := None;
              DecoratorApp.context_config := DecoratorApp.context_config DecoratorApp.team;
              DecoratorApp.agents := DecoratorApp.missing_child_registry |}
           DecoratorApp.built_basic).
  vm_compute. reflexivity.
Defined.

Lemma parallel_agents_failure_witness :
  (exists root p n cyc,
     KeyError "a"
     = ValueError (DecoratorApp.creating_message root
                     (DecoratorApp.circular_message elements p n)) /\
     DecoratorApp.chain
       (DecoratorApp.fan_out_edge
          (DecoratorApp.agents
             {| DecoratorApp.args_model := None;
                DecoratorApp.context_config := DecoratorApp.context_config DecoratorApp.team;
                DecoratorApp.agents := DecoratorApp.lone_parallel_registry |})) n cyc n /\
     forall x, x ∈ n :: cyc -> x ∈ p) \/
  DecoratorApp.parallel_unbuildable unit (fun _ _ => Ok tt) DecoratorApp.some_defaults
    {| DecoratorApp.args_model := None;
       DecoratorApp.context_config := DecoratorApp.context_config DecoratorApp.team;
       DecoratorApp.agents := DecoratorApp.lone_parallel_registry |}
    [] (KeyError "a").
Proof.
  apply (parallel_agents_failure unit (fun _ _ => Ok tt) DecoratorApp.some_defaults
           (fun _ => "RequestParams") elements
           {| DecoratorApp.args_model := None;
              DecoratorApp.context_config := DecoratorApp.context_config DecoratorApp.team;
              DecoratorApp.agents := DecoratorApp.lone_parallel_registry |}
           [] (KeyError "a")).
  vm_compute. reflexivity.
Defined.

(** ** Unwrapping proxies *)

Section AgentInstances.
Import AgentUtils.
Variable Instance : Type.

Local Abbreviation get_agent_instances := (AgentUtils.get_agent_instances Instance).
Local Abbreviation instance_of := (AgentUtils.instance_of Instance).

(** X18. [get_agent_instances] returns one instance for each name, in
    the order of the names, exactly when every name has an active proxy
    that can be unwrapped; otherwise it raises what the first name that
    fails raises: the [KeyError] of a name without a proxy, or the
    [AttributeError] of a proxy without its attribute. *)
Theorem get_agent_instances_first_failure agent_names active_agents :
  match get_agent_instances agent_names active_agents with
  | Ok instances =>
      Forall2 (fun name instance => instance_of active_agents name = Ok instance)
        agent_names instances
  | Raise e =>
      exists before name after,
        agent_names = before ++ name :: after /\
        Forall (fun n => is_Some (returned_value (instance_of active_agents n))) before /\
        instance_of active_agents name = Raise e /\
        (Dict.get active_agents name = None -> e = KeyError name)
  end.
Proof.
  induction agent_names as [|name rest IH]; simpl; [constructor|].
  fold (instance_of active_agents name).
  assert (forall k : Instance -> result (list Instance),
            (try! p := Dict.subscript active_agents name in
             try! instance := unwrap_proxy Instance p in k instance)
            = try! instance := instance_of active_agents name in k instance) as ->.
  { intros k. unfold AgentUtils.instance_of. by destruct (Dict.subscript active_agents name). }
  destruct (instance_of active_agents name) as [instance|e] eqn:Hname; simpl.
  - destruct (get_agent_instances rest active_agents) as [more|e]; simpl.
    + by constructor.
    + destruct IH as (before & n & after & -> & Hbefore & Hn & Hkey).
      exists (name :: before), n, after. split_and!; [done| |done|done].
      constructor; [by rewrite Hname|done].
  - exists [], name, rest. split_and!; [done|constructor|done|].
    intros Hget. unfold AgentUtils.instance_of, Dict.subscript in Hname. rewrite Hget in Hname.
    simpl in Hname. by injection Hname as <-.
Qed.

End AgentInstances.

Example get_agent_instances_some_proxies :
  AgentUtils.get_agent_instances string ["writer"; "chain"] AgentUtils.some_proxies
    = Ok ["writer agent"; "chain workflow"] /\
  AgentUtils.get_agent_instances string ["writer"; "broken"; "nobody"] AgentUtils.some_proxies
    = Raise (AttributeError "_workflow") /\
  AgentUtils.get_agent_instances string ["nobody"; "broken"] AgentUtils.some_proxies
    = Raise (KeyError "nobody").
Proof. by split_and!. Qed.


(** ** The merged agents and the wrapper *)

Section UpdateFacts.
Context {V : Type}.
Implicit Types (d e : Dict.t V).

Lemma update_lookup d e k :
  NoDup (Dict.keys e) ->
  Dict.get (DecoratorApp.update d e) k
  = match Dict.get e k with
    | Some v => Some v
    | None => Dict.get d k
    end.
Proof.
  unfold DecoratorApp.update. revert d. induction e as [|[k0 v0] e IH]; intros d Hnd; [done|].
  apply NoDup_cons in Hnd as [Hk0 Hnd]. cbn [fold_left]. rewrite IH by done. simpl.
  destruct (decide (k0 = k)) as [->|Hne].
  - apply (get_None_keys e k) in Hk0. rewrite Hk0. rewrite get_set. by rewrite decide_True.
  - destruct (Dict.get e k); [done|]. rewrite get_set. by rewrite decide_False.
Qed.

Lemma update_keys_disjoint d e :
  NoDup (Dict.keys e) -> (forall k, k ∈ Dict.keys e -> k ∉ Dict.keys d) ->
  Dict.keys (DecoratorApp.update d e) = Dict.keys d ++ Dict.keys e.
Proof.
  unfold DecoratorApp.update. revert d. induction e as [|[k0 v0] e IH]; intros d Hnd Hdisj.
  { simpl. by rewrite app_nil_r. }
  apply NoDup_cons in Hnd as [Hk0 Hnd]. cbn [fold_left]. simpl.
  assert (k0 ∉ Dict.keys d) as Hfresh by (apply Hdisj; left).
  rewrite IH; [| done |].
  - rewrite keys_set_new by done. by rewrite <- app_assoc.
  - intros k Hk. rewrite keys_set_new by done.
    intros [?| ->%list_elem_of_singleton]%elem_of_app; [|done].
    eapply Hdisj; [|done]. by right.
Qed.

Lemma get_Some_elem d k v : Dict.get d k = Some v -> (k, v) ∈ d.
Proof.
  induction d as [|[k0 v0] d IH]; simpl; [done|].
  case_decide; [intros [= <-]; subst; left|intros ?; right; auto].
Qed.

End UpdateFacts.

Section RegistryFacts.
Import DecoratorApp.
Implicit Types (agents : registry) (ty : AgentType).

Lemma names_of_type_elem agents ty n :
  NoDup (Dict.keys agents) ->
  n ∈ names_of_type ty agents <->
  exists d, Dict.get agents n = Some d /\ data_type d = ty.
Proof.
  intros Hnd. unfold names_of_type, Dict.items. rewrite list_elem_of_fmap. split.
  - intros ([k d] & -> & [Hty Hin]%list_elem_of_filter). exists d. split; [|done].
    by apply get_elem_of_NoDup.
  - intros (d & Hget & Hty). exists (n, d). split; [done|].
    apply list_elem_of_filter. split; [done|]. by apply get_Some_elem.
Qed.

Lemma names_of_type_NoDup agents ty :
  NoDup (Dict.keys agents) -> NoDup (names_of_type ty agents).
Proof.
  unfold names_of_type, Dict.items, Dict.keys.
  induction agents as [|[k d] agents IH]; simpl; [constructor|].
  intros [Hk Hnd]%NoDup_cons. rewrite filter_cons. case_decide; simpl; [|by apply IH].
  apply NoDup_cons. split; [|by apply IH].
  intros ([k' d'] & -> & [_ Hin]%list_elem_of_filter)%list_elem_of_fmap.
  apply Hk. apply list_elem_of_fmap. by exists (k', d').
Qed.

Lemma names_of_type_partition agents :
  Dict.keys agents ≡ₚ
    names_of_type BASIC agents ++ names_of_type ORCHESTRATOR agents
    ++ names_of_type PARALLEL agents ++ names_of_type EVALUATOR_OPTIMIZER agents.
Proof.
  unfold names_of_type, Dict.items, Dict.keys.
  induction agents as [|[k d] agents IH]; [done|].
  rewrite !filter_cons. destruct d; simpl.
  - by f_equiv.
  - rewrite IH. by rewrite <- Permutation_middle.
  - rewrite IH. rewrite (app_assoc _ _ (k :: _)). rewrite <- Permutation_middle.
    by rewrite <- app_assoc.
  - rewrite IH. rewrite !(app_assoc _ _ (k :: _)). rewrite <- Permutation_middle.
    by rewrite <- !app_assoc.
Qed.

Lemma names_of_type_disjoint agents ty1 ty2 n :
  NoDup (Dict.keys agents) -> ty1 <> ty2 ->
  n ∈ names_of_type ty1 agents -> n ∉ names_of_type ty2 agents.
Proof.
  intros Hnd Hne (d1 & Hd1 & <-)%names_of_type_elem (d2 & Hd2 & <-)%names_of_type_elem;
    [|done..].
  congruence.
Qed.

Lemma is_parallel_names agents n :
  NoDup (Dict.keys agents) -> is_parallel agents n <-> n ∈ names_of_type PARALLEL agents.
Proof.
  intros Hnd. rewrite names_of_type_elem by done. split.
  - intros (c & fi & fo & Hget). by eexists.
  - intros ([c|c ch|c fi fo|c o ev mr mx] & Hget & Hty); try done. by exists c, fi, fo.
Qed.

End RegistryFacts.

Section RunFacts.
Import DecoratorApp.
Variable Factory : Type.
Variable parse_model_string : option string -> result string.
Variable create_factory : option string -> RequestParams -> result Factory.
Variable RequestParams_defaults : RequestParams.
Variable repr_request_params : option RequestParams -> string.
Variable hash_order : gset string -> list string.
Variable LLM : Type.
Variable World : Type.
Variable attached_llm : RuntimeNode Factory -> option LLM.
Variable generate_str : LLM -> string -> World -> result string * World.
Variable upper : string -> string.

Local Abbreviation create_workflows :=
  (DecoratorApp.create_workflows Factory parse_model_string create_factory
     RequestParams_defaults repr_request_params hash_order).
Local Abbreviation AgentAppWrapper := (DecoratorApp.AgentAppWrapper Factory).
Local Abbreviation AgentAppWrapper_init := (DecoratorApp.AgentAppWrapper_init Factory).
Local Abbreviation send := (DecoratorApp.send Factory LLM World attached_llm generate_str).
Local Abbreviation call := (DecoratorApp.call Factory LLM World attached_llm generate_str).
Local Abbreviation prompt_loop :=
  (DecoratorApp.prompt_loop Factory LLM World attached_llm generate_str upper).
Local Abbreviation prompt :=
  (DecoratorApp.prompt Factory LLM World attached_llm generate_str upper).
Local Abbreviation built := (Dict.t (RuntimeNode Factory)).

Implicit Types (self : MCPAgentDecorator) (active merged : built).

Lemma io_print_fst {A} line (k : io A) : (io_bind (print line) (fun _ => k)).1 = k.1.
Proof. by rewrite io_bind_fst. Qed.

(** The shape of what the setup merges. *)
Lemma create_workflows_merged self active merged :
  NoDup (Dict.keys (agents self)) ->
  Dict.keys active = names_of_type BASIC (agents self) ->
  (create_workflows self active).1 = Ok merged ->
  exists parallel_order,
    parallel_order ≡ₚ names_of_type PARALLEL (agents self) /\
    Dict.keys merged
      = names_of_type BASIC (agents self) ++ names_of_type ORCHESTRATOR (agents self)
        ++ parallel_order ++ names_of_type EVALUATOR_OPTIMIZER (agents self) /\
    forall n v, Dict.get active n = Some v -> Dict.get merged n = Some v.
Proof.
  intros Hnd Hactive. unfold DecoratorApp.create_workflows.
  rewrite io_print_fst, io_bind_fst.
  destruct (create_orchestrators _ _ _ _ _ self active).1 as [orch|e] eqn:Horch; [|done].
  rewrite io_print_fst, io_bind_fst.
  destruct (create_parallel_agents _ _ _ _ _ self active).1 as [par|e] eqn:Hpar; [|done].
  rewrite io_print_fst, io_bind_fst.
  destruct (create_evaluator_optimizers _ _ _ _ self active).1 as [eo|e] eqn:Heo; [|done].
  cbn [io_ret fst]. intros [= <-].
  apply create_orchestrators_keys in Horch; [|done].
  apply create_evaluator_optimizers_keys in Heo; [|done].
  pose proof (create_parallel_loop_keys _ _ _ _ _ _ _ _ _ _ _ Hpar) as Horder.
  pose proof (build_order_topological _ _ _ Horder) as (Hndpar & Hall & _).
  apply create_parallel_loop_inv in Hpar as (Hparkeys & _ & _);
    [|done|apply parallel_inv_empty].
  assert (Dict.keys par ≡ₚ names_of_type PARALLEL (agents self)) as Hperm.
  { apply NoDup_Permutation; [done|by apply names_of_type_NoDup|].
    intros n. rewrite <- is_parallel_names by done. split; auto. }
  assert (NoDup (Dict.keys orch)) as Hndorch by (rewrite Horch; by apply names_of_type_NoDup).
  assert (NoDup (Dict.keys eo)) as Hndeo by (rewrite Heo; by apply names_of_type_NoDup).
  assert (forall k ty, k ∈ Dict.keys par -> ty <> PARALLEL ->
            k ∉ names_of_type ty (agents self)) as Hparty.
  { intros k ty Hk Hty Hin. rewrite Hperm in Hk.
    by eapply (names_of_type_disjoint (agents self) ty PARALLEL k). }
  assert (Dict.keys (update active orch) = Dict.keys active ++ Dict.keys orch) as Hk1.
  { apply update_keys_disjoint; [done|]. intros k Hk. rewrite Hactive. rewrite Horch in Hk.
    by apply (names_of_type_disjoint (agents self) ORCHESTRATOR BASIC k). }
  assert (Dict.keys (update (update active orch) par)
          = (Dict.keys active ++ Dict.keys orch) ++ Dict.keys par) as Hk2.
  { rewrite <- Hk1. apply update_keys_disjoint; [done|]. intros k Hk.
    rewrite Hk1, Hactive, Horch.
    intros [Hb|Ho]%elem_of_app;
      [by apply (Hparty k BASIC Hk)|by apply (Hparty k ORCHESTRATOR Hk)]. }
  assert (Dict.keys (update (update (update active orch) par) eo)
          = ((Dict.keys active ++ Dict.keys orch) ++ Dict.keys par) ++ Dict.keys eo) as Hk3.
  { rewrite <- Hk2. apply update_keys_disjoint; [done|]. intros k Hk.
    rewrite Hk2, Hactive, Horch. rewrite Heo in Hk.
    intros [[?|?]%elem_of_app|Hkp]%elem_of_app.
    - by eapply (names_of_type_disjoint (agents self) EVALUATOR_OPTIMIZER BASIC k).
    - by eapply (names_of_type_disjoint (agents self) EVALUATOR_OPTIMIZER ORCHESTRATOR k).
    - by apply (Hparty k EVALUATOR_OPTIMIZER Hkp). }
  exists (Dict.keys par). split_and!; [done| |].
  - rewrite Hk3, Hactive, Horch, Heo. by rewrite <- !app_assoc.
  - intros n v Hn. pose proof (get_Some_key _ _ _ Hn) as Hin. rewrite Hactive in Hin.
    rewrite !update_lookup by done.
    assert (Dict.get eo n = None) as ->.
    { apply get_None_keys. rewrite Heo.
      by eapply (names_of_type_disjoint (agents self) BASIC EVALUATOR_OPTIMIZER n). }
    assert (Dict.get par n = None) as ->.
    { apply get_None_keys. intros Hk. by apply (Hparty n BASIC Hk). }
    assert (Dict.get orch n = None) as ->.
    { apply get_None_keys. rewrite Horch.
      by eapply (names_of_type_disjoint (agents self) BASIC ORCHESTRATOR n). }
    done.
Qed.

(** X22. The agents [run] hands to the wrapper, when its builders
    return: every registered name exactly once; the basic agents first and
    then the orchestrators, both in registration order, then the parallel
    agents in the order they were built, then the evaluator-optimizers in
    registration order; and every basic agent is still the object that
    was active before the builders ran. *)
Theorem create_workflows_registers_all self active merged :
  NoDup (Dict.keys (agents self)) ->
  Dict.keys active = names_of_type BASIC (agents self) ->
  (create_workflows self active).1 = Ok merged ->
  Dict.keys merged ≡ₚ Dict.keys (agents self) /\
  NoDup (Dict.keys merged) /\
  (exists parallel_order,
     parallel_order ≡ₚ names_of_type PARALLEL (agents self) /\
     Dict.keys merged
       = names_of_type BASIC (agents self) ++ names_of_type ORCHESTRATOR (agents self)
         ++ parallel_order ++ names_of_type EVALUATOR_OPTIMIZER (agents self)) /\
  (forall n v, Dict.get active n = Some v -> Dict.get merged n = Some v).
Proof.
  intros Hnd Hactive Hrun.
  destruct (create_workflows_merged self active merged Hnd Hactive Hrun)
    as (order & Hperm & Hkeys & Hkept).
  assert (Dict.keys merged ≡ₚ Dict.keys (agents self)) as Hall.
  { rewrite Hkeys, Hperm. symmetry. apply names_of_type_partition. }
  split_and!; [done| |by exists order|done].
  by rewrite Hall.
Qed.

(** X23. Calling the wrapper [run] yields without an agent name talks to
    the first registered basic agent, when there is one and its name is
    not empty: the call is the [send] to that name, which finds the
    object that was active under it and so asks its language model, or
    fails with the [RuntimeError] of an agent without one; it never fails
    with [ValueError]. *)
Theorem call_reaches_first_basic_agent self active merged first others message w :
  NoDup (Dict.keys (agents self)) ->
  Dict.keys active = names_of_type BASIC (agents self) ->
  (create_workflows self active).1 = Ok merged ->
  names_of_type BASIC (agents self) = first :: others ->
  first <> "" ->
  call (AgentAppWrapper_init merged) message None w
    = send (AgentAppWrapper_init merged) first message w /\
  exists agent,
    Dict.get active first = Some agent /\
    send (AgentAppWrapper_init merged) first message w
    = match attached_llm agent with
      | Some llm => generate_str llm message w
      | None => (Raise (RuntimeError ("Agent " +:+ first +:+ " has no LLM attached")), w)
      end.
Proof.
  intros Hnd Hactive Hrun Hfirst Hne.
  destruct (create_workflows_merged self active merged Hnd Hactive Hrun)
    as (order & _ & Hkeys & Hkept).
  rewrite Hfirst in Hkeys.
  assert (first ∈ Dict.keys active) as Hin by (rewrite Hactive, Hfirst; left).
  assert (exists agent, Dict.get active first = Some agent) as [agent Hagent].
  { destruct (Dict.get active first) as [agent|] eqn:Hget; [eauto|].
    by apply get_None_keys in Hget. }
  pose proof (Hkept _ _ Hagent) as Hmerged.
  split.
  - unfold DecoratorApp.call, DecoratorApp.target_agent, DecoratorApp.AgentAppWrapper_init.
    simpl. rewrite Hkeys. simpl. by rewrite bool_decide_true.
  - exists agent. split; [done|]. unfold DecoratorApp.send. simpl.
    unfold Dict.contains, Dict.subscript. rewrite Hmerged.
    rewrite bool_decide_true by eauto. simpl. by destruct (attached_llm agent).
Qed.

Lemma prompt_loop_stops (wrapper : AgentAppWrapper) target default sent stop rest w console :
  Forall (fun m => upper m <> "STOP") sent ->
  upper stop = "STOP" ->
  (forall m w', m ∈ sent -> is_Some (returned_value (send wrapper target m w').1)) ->
  prompt_loop wrapper target default (sent ++ stop :: rest) w console
  = (Some (Ok tt), fold_left (fun w m => (send wrapper target m w).2) sent w,
     console ++ concat (replicate (S (length sent)) (banner default))).
Proof.
  intros Hsent Hstop. revert w console.
  induction Hsent as [|m sent Hm Hsent IH]; intros w console Hok; simpl.
  - rewrite decide_True by done. by rewrite app_nil_r.
  - rewrite decide_False by done.
    destruct (Hok m w) as [answer Hanswer]; [left|].
    destruct (send wrapper target m w) as [[a|e] w'] eqn:Hsend; simpl in *; [|done].
    rewrite IH.
    + by rewrite <- app_assoc.
    + intros m' w'' Hm'. apply Hok. by right.
Qed.

(** X24. [prompt] forwards to its target exactly the answers given before
    the first one that reads [STOP] in upper case, in order, and then
    returns; later answers are never asked for, and the banner was
    printed once for every answer asked for, as long as every [send]
    returns. *)
Theorem prompt_forwards_until_stop (wrapper : AgentAppWrapper) agent_name default sent stop rest w :
  truthy (target_agent Factory wrapper agent_name) = true ->
  Forall (fun m => upper m <> "STOP") sent ->
  upper stop = "STOP" ->
  (forall m w', m ∈ sent ->
     is_Some (returned_value
                (send wrapper (stdpp.option.default "" (target_agent Factory wrapper agent_name))
                   m w').1)) ->
  prompt wrapper agent_name default (sent ++ stop :: rest) w
  = (Some (Ok tt),
     fold_left (fun w m =>
                  (send wrapper (stdpp.option.default "" (target_agent Factory wrapper agent_name))
                     m w).2) sent w,
     concat (replicate (S (length sent)) (banner default))).
Proof.
  intros Htarget Hsent Hstop Hok. unfold DecoratorApp.prompt. rewrite Htarget. simpl.
  by rewrite prompt_loop_stops.
Qed.

End RunFacts.

Lemma create_workflows_registers_all_witness :
  exists merged,
    (DecoratorApp.create_workflows unit (fun m => Ok (default "" m)) (fun _ _ => Ok tt)
       DecoratorApp.some_defaults (fun _ => "RequestParams") elements DecoratorApp.team
       DecoratorApp.team_active).1 = Ok merged /\
    (Dict.keys merged ≡ₚ Dict.keys (DecoratorApp.agents DecoratorApp.team) /\
     NoDup (Dict.keys merged) /\
     (exists parallel_order,
        parallel_order ≡ₚ DecoratorApp.names_of_type DecoratorApp.PARALLEL
                            (DecoratorApp.agents DecoratorApp.team) /\
        Dict.keys merged
        = DecoratorApp.names_of_type DecoratorApp.BASIC (DecoratorApp.agents DecoratorApp.team)
          ++ DecoratorApp.names_of_type DecoratorApp.ORCHESTRATOR
               (DecoratorApp.agents DecoratorApp.team)
          ++ parallel_order
          ++ DecoratorApp.names_of_type DecoratorApp.EVALUATOR_OPTIMIZER
               (DecoratorApp.agents DecoratorApp.team)) /\
     (forall n v, Dict.get (@DecoratorApp.team_active unit) n = Some v ->
        Dict.get merged n = Some v)).
Proof.
  eexists. split; [vm_compute; reflexivity|].
  apply (create_workflows_registers_all unit (fun m => Ok (default "" m)) (fun _ _ => Ok tt)
           DecoratorApp.some_defaults (fun _ => "RequestParams") elements DecoratorApp.team
           DecoratorApp.team_active).
  - apply team_registry_NoDup.
  - reflexivity.
  - vm_compute. reflexivity.
Defined.

Lemma call_reaches_first_basic_agent_witness :
  exists merged,
    (DecoratorApp.create_workflows unit (fun m => Ok (default "" m)) (fun _ _ => Ok tt)
       DecoratorApp.some_defaults (fun _ => "RequestParams") elements DecoratorApp.team
       DecoratorApp.team_active).1 = Ok merged /\
    (DecoratorApp.call unit unit (list string) (fun _ => Some tt)
       (fun _ message w => (Ok "done", w ++ [message]))
       (DecoratorApp.AgentAppWrapper_init unit merged) "hello" None []
     = DecoratorApp.send unit unit (list string) (fun _ => Some tt)
         (fun _ message w => (Ok "done", w ++ [message]))
         (DecoratorApp.AgentAppWrapper_init unit merged) "a" "hello" [] /\
     exists agent,
       Dict.get (@DecoratorApp.team_active unit) "a" = Some agent /\
       DecoratorApp.send unit unit (list string) (fun _ => Some tt)
         (fun _ message w => (Ok "done", w ++ [message]))
         (DecoratorApp.AgentAppWrapper_init unit merged) "a" "hello" []
       = match (fun _ : DecoratorApp.RuntimeNode unit => Some tt) agent with
         | Some llm => (fun _ message w => (Ok "done", w ++ [message])) llm "hello" []
         | None => (Raise (RuntimeError ("Agent " +:+ "a" +:+ " has no LLM attached")), [])
         end).
Proof.
  eexists. split; [vm_compute; reflexivity|].
  apply (call_reaches_first_basic_agent unit (fun m => Ok (default "" m)) (fun _ _ => Ok tt)
           DecoratorApp.some_defaults (fun _ => "RequestParams") elements unit (list string)
           (fun _ => Some tt) (fun _ message w => (Ok "done", w ++ [message]))
           DecoratorApp.team DecoratorApp.team_active _ "a" ["b"] "hello" []).
  - apply team_registry_NoDup.
  - reflexivity.
  - vm_compute. reflexivity.
  - reflexivity.
  - done.
Defined.

Lemma prompt_forwards_until_stop_witness :
  DecoratorApp.prompt unit unit (list string) (fun _ => Some tt)
    (fun _ message w => (Ok "done", w ++ [message]))
    (fun s => if decide (s = "stop") then "STOP" else s)
    (DecoratorApp.AgentAppWrapper_init unit DecoratorApp.team_active) None ""
    (["hello"; "more"] ++ "stop" :: ["never"]) []
  = (Some (Ok tt),
     fold_left (fun w m =>
                  (DecoratorApp.send unit unit (list string) (fun _ => Some tt)
                     (fun _ message w => (Ok "done", w ++ [message]))
                     (DecoratorApp.AgentAppWrapper_init unit DecoratorApp.team_active)
                     (default ""
                        (DecoratorApp.target_agent unit
                           (DecoratorApp.AgentAppWrapper_init unit DecoratorApp.team_active)
                           None))
                     m w).2) ["hello"; "more"] [],
     concat (replicate (S (length ["hello"; "more"])) (DecoratorApp.banner ""))).
Proof.
  apply (prompt_forwards_until_stop unit unit (list string) (fun _ => Some tt)
           (fun _ message w => (Ok "done", w ++ [message]))
           (fun s => if decide (s = "stop") then "STOP" else s)).
  - reflexivity.
  - by repeat constructor.
  - reflexivity.
  - intros m w' _. by eexists.
Defined.
(** ** Cycles of fan-out references *)

Section CycleDetection.
Import DecoratorApp.
Variable Factory : Type.
Variable create_factory : option string -> RequestParams -> result Factory.
Variable RequestParams_defaults : RequestParams.
Variable repr_request_params : option RequestParams -> string.
Variable hash_order : gset string -> list string.

Local Abbreviation create_parallel_agents :=
  (DecoratorApp.create_parallel_agents Factory create_factory RequestParams_defaults
     repr_request_params hash_order).
Local Abbreviation parallel_buildable :=
  (DecoratorApp.parallel_buildable Factory create_factory RequestParams_defaults).
Local Abbreviation parallel_unbuildable :=
  (DecoratorApp.parallel_unbuildable Factory create_factory RequestParams_defaults).

Lemma buildable_not_unbuildable self active e :
  parallel_buildable self active -> parallel_unbuildable self active e -> False.
Proof.
  intros Hbuild (name & config & fan_in & fan_out & Hget & Hwhy).
  destruct (Hbuild _ _ _ _ Hget) as (Hfan_in & Hfan_out & Hfactory).
  destruct Hwhy as [(target & _ & Hin & Hnot & Hnone)|[[_ Hnone]|Hraise]].
  - destruct (Hfan_out target Hin) as [?|[? ?]]; [done|congruence].
  - destruct Hfan_in as [? ?]. congruence.
  - rewrite Hraise in Hfactory. by destruct Hfactory.
Qed.

(** C2 (amended). Whenever a node that depends on itself through fan-out
    references can be reached from the root, ordering from that root with
    fresh traversal state raises the circular-dependency [ValueError].
    Its message lists the names of the path set, in the order in which
    the set is iterated, and then the name that was reached again; the
    path set holds every node of a cycle through that name, so the
    message mentions each of them.  On a registry in which some node
    depends on itself, [_create_parallel_agents] does not return: it
    raises that error, wrapped in a message that names the root being
    ordered, or the error of a parallel agent that could not be built
    before; and it raises the former when every registered parallel
    agent can be built.  In the scenario with [X] and [Y] the path set
    reported from root [X] is [{X, Y}]. *)
Theorem cycle_raises_circular_dependency :
  enumerates hash_order ->
  (forall agents root c fuel,
     rtc (fan_out_edge agents) root c -> tc (fan_out_edge agents) c c ->
     enough_fuel agents <= fuel ->
     exists p n cyc,
       get_parallel_dependencies hash_order fuel agents root fresh
         = Some (Raise (ValueError
                          ("Circular dependency detected: " +:+ join " -> " (hash_order p)
                           +:+ " -> " +:+ n))) /\
       chain (fan_out_edge agents) n cyc n /\
       forall x, x ∈ n :: cyc ->
         x ∈ p /\ mentions (circular_message hash_order p n) x) /\
  (forall self active c,
     tc (fan_out_edge (agents self)) c c ->
     exists e,
       (create_parallel_agents self active).1 = Raise e /\
       (reports_cycle hash_order (agents self) e \/ parallel_unbuildable self active e) /\
       (parallel_buildable self active -> reports_cycle hash_order (agents self) e)) /\
  (forall cx cy fx fy,
     let agents := xy_registry cx cy fx fy in
     let p : gset string := {["Y"]} ∪ ({["X"]} ∪ ∅) in
     get_parallel_dependencies hash_order (enough_fuel agents) agents "X" fresh
       = Some (Raise (ValueError (circular_message hash_order p "X"))) /\
     mentions (circular_message hash_order p "X") "X" /\
     mentions (circular_message hash_order p "X") "Y").
Proof.
  intros Henum. split_and!.
  - intros agents root c fuel Hreach Hcyc Hfuel.
    destruct (get_parallel_dependencies hash_order fuel agents root fresh)
      as [[[order w]|e]|] eqn:Hrun.
    + destruct (fresh_order_no_cycle _ _ _ _ _ _ c Hrun Hreach Hcyc).
    + apply fresh_raised in Hrun as (p & n & cyc & -> & Hchain & Hin).
      exists p, n, cyc. split_and!; [done..|]. intros x Hx. split; [by apply Hin|].
      apply mentions_circular_message; auto.
    + by apply gpd_enough_fuel in Hrun.
  - intros self active c Hcyc.
    pose proof (create_parallel_agents_cycle_fails Factory create_factory
                  RequestParams_defaults repr_request_params hash_order self active c Hcyc)
      as Hfails.
    destruct (create_parallel_agents self active).1 as [pa|e] eqn:Hrun; [done|].
    exists e.
    assert (reports_cycle hash_order (agents self) e \/ parallel_unbuildable self active e)
      as Hwhy.
    { pose proof (create_parallel_loop_failure Factory create_factory RequestParams_defaults
                    repr_request_params hash_order self active _ _ _ e eq_refl
                    (parallel_inv_empty _ _ _ self active) Hrun)
        as [(root & p & n & cyc & -> & Hchain & Hin)|Hunbuildable]; [|by right].
      left. exists root, p, n, cyc. split_and!; [done..|].
      intros x Hx. split; [by apply Hin|].
      apply mentions_creating_message, mentions_circular_message; auto. }
    split_and!; [done..|].
    intros Hbuild. destruct Hwhy as [?|Hun]; [done|].
    destruct (buildable_not_unbuildable self active e Hbuild Hun).
  - intros cx cy fx fy agents p. split_and!.
    + vm_compute. reflexivity.
    + apply mentions_circular_message; [done|]. subst p. set_solver.
    + apply mentions_circular_message; [done|]. subst p. set_solver.
Qed.

End CycleDetection.

Lemma cyclic_team_buildable :
  DecoratorApp.parallel_buildable unit (fun _ _ => Ok tt) DecoratorApp.some_defaults
    DecoratorApp.cyclic_team DecoratorApp.team_active.
Proof.
  intros name config fan_in fan_out Hget. simpl in Hget.
  repeat case_decide; simplify_eq; (split_and!; [by eexists| |by eexists]).
  - intros t [->|[]%elem_of_nil]%elem_of_cons. left. by eexists _, _, _.
  - intros t [->|[]%elem_of_nil]%elem_of_cons. left. by eexists _, _, _.
Qed.

Lemma cycle_raises_circular_dependency_witness :
  (exists p n cyc,
     DecoratorApp.get_parallel_dependencies elements 3
         (DecoratorApp.agents DecoratorApp.cyclic_team) "X" DecoratorApp.fresh
       = Some (Raise (ValueError
                        ("Circular dependency detected: " +:+ join " -> " (elements p)
                         +:+ " -> " +:+ n))) /\
     DecoratorApp.chain (DecoratorApp.fan_out_edge (DecoratorApp.agents DecoratorApp.cyclic_team))
       n cyc n /\
     forall x, x ∈ n :: cyc ->
       x ∈ p /\ mentions (DecoratorApp.circular_message elements p n) x) /\
  DecoratorApp.parallel_buildable unit (fun _ _ => Ok tt) DecoratorApp.some_defaults
    DecoratorApp.cyclic_team DecoratorApp.team_active /\
  (exists e,
     (DecoratorApp.create_parallel_agents unit (fun _ _ => Ok tt) DecoratorApp.some_defaults
        (fun _ => "RequestParams") elements DecoratorApp.cyclic_team
        DecoratorApp.team_active).1 = Raise e /\
     (DecoratorApp.reports_cycle elements (DecoratorApp.agents DecoratorApp.cyclic_team) e \/
      DecoratorApp.parallel_unbuildable unit (fun _ _ => Ok tt) DecoratorApp.some_defaults
        DecoratorApp.cyclic_team DecoratorApp.team_active e) /\
     (DecoratorApp.parallel_buildable unit (fun _ _ => Ok tt) DecoratorApp.some_defaults
        DecoratorApp.cyclic_team DecoratorApp.team_active ->
      DecoratorApp.reports_cycle elements (DecoratorApp.agents DecoratorApp.cyclic_team) e)).
Proof.
  destruct (cycle_raises_circular_dependency unit (fun _ _ => Ok tt)
              DecoratorApp.some_defaults (fun _ => "RequestParams") elements
              enumerates_elements) as (Hroot & Hall & _).
  assert (tc (DecoratorApp.fan_out_edge (DecoratorApp.agents DecoratorApp.cyclic_team))
            "X" "X") as Hcycle.
  { eapply tc_l; [apply xy_edge_X_Y|]. apply tc_once, xy_edge_Y_X. }
  split_and!.
  - apply Hroot with (c := "X"); [apply rtc_refl|exact Hcycle|cbv; lia].
  - apply cyclic_team_buildable.
  - apply Hall with (c := "X"). exact Hcycle.
Defined.

(** With the two names iterated as [Y], [X], the message of the scenario
    reads [Y -> X -> X], which is no path of the registry; ordering from a
    root [R] that leads into the cycle of [A] and [B] lists [R] between
    them; and on a registry that holds the cycle of [X] and [Y] behind a
    parallel agent whose fan-in agent is missing,
    [_create_parallel_agents] raises the [KeyError] of that name, not the
    circular-dependency error. *)
Lemma cycle_message_is_not_a_path :
  elements ({["Y"]} ∪ ({["X"]} ∪ ∅) : gset string) = ["Y"; "X"] /\
  DecoratorApp.get_parallel_dependencies elements
      (DecoratorApp.enough_fuel (DecoratorApp.agents DecoratorApp.cyclic_team))
      (DecoratorApp.agents DecoratorApp.cyclic_team) "X" DecoratorApp.fresh
    = Some (Raise (ValueError "Circular dependency detected: Y -> X -> X")) /\
  DecoratorApp.get_parallel_dependencies elements
      (DecoratorApp.enough_fuel DecoratorApp.tail_cycle_registry)
      DecoratorApp.tail_cycle_registry "R" DecoratorApp.fresh
    = Some (Raise (ValueError "Circular dependency detected: A -> R -> B -> A")) /\
  DecoratorApp.fan_out_of DecoratorApp.tail_cycle_registry "A" = ["B"] /\
  DecoratorApp.fan_out_of DecoratorApp.blocked_cycle_registry "X" = ["Y"] /\
  DecoratorApp.fan_out_of DecoratorApp.blocked_cycle_registry "Y" = ["X"] /\
  tc (DecoratorApp.fan_out_edge DecoratorApp.blocked_cycle_registry) "X" "X" /\
  (DecoratorApp.create_parallel_agents unit (fun _ _ => Ok tt) DecoratorApp.some_defaults
     (fun _ => "RequestParams") elements DecoratorApp.blocked_team DecoratorApp.team_active).1
  = Raise (KeyError "missing").
Proof.
  split_and!; try (vm_compute; reflexivity).
  eapply tc_l; [|apply tc_once]; unfold DecoratorApp.fan_out_edge; simpl; by left.
Qed.
(** ** What a resolution depends on *)

Section LoadFrame.
Import Config.
Variable validate_nested : environment -> Dict.t yaml -> option (Dict.t yaml).

Local Abbreviation get_settings := (Config.get_settings validate_nested).
Local Abbreviation get_settings_all := (Config.get_settings_all validate_nested).

Lemma first_existing_agree fs1 fs2 dir names :
  (forall n, n ∈ names -> files fs1 (n :: dir) = files fs2 (n :: dir)) ->
  first_existing fs1 dir names = first_existing fs2 dir names.
Proof.
  induction names as [|n rest IH]; intros Hagree; simpl; [done|].
  unfold exists_file. rewrite (Hagree n) by left.
  rewrite IH; [done|]. intros m Hm. apply Hagree. by right.
Qed.

Lemma candidates_above_here names base c up n :
  n ∈ names -> n :: (c :: up) ++ base ∈ candidates_above names base (c :: up).
Proof.
  intros Hn. unfold candidates_above. apply list_elem_of_In, in_flat_map.
  exists 0. split; [apply in_seq; simpl; lia|].
  apply in_map_iff. exists n. split; [done|]. by apply list_elem_of_In.
Qed.

Lemma candidates_above_up names base c up f :
  f ∈ candidates_above names base up -> f ∈ candidates_above names base (c :: up).
Proof.
  unfold candidates_above. intros Hf%list_elem_of_In%in_flat_map.
  destruct Hf as (k & Hk%in_seq & Hf). apply list_elem_of_In, in_flat_map.
  exists (S k). split; [apply in_seq; simpl; lia|done].
Qed.

Lemma candidates_above_drop names base dir k f :
  f ∈ candidates_above names base (drop k dir) -> f ∈ candidates_above names base dir.
Proof.
  revert dir. induction k as [|k IH]; intros dir; [by rewrite drop_0|].
  destruct dir as [|c up]; [done|]. simpl. intros Hf. by apply candidates_above_up, IH.
Qed.

Lemma search_up_from_agree fs1 fs2 names base dir :
  (forall f, f ∈ candidates_above names base dir -> files fs1 f = files fs2 f) ->
  search_up_from fs1 names base dir = search_up_from fs2 names base dir.
Proof.
  induction dir as [|c up IH]; intros Hagree; simpl; [done|].
  rewrite (first_existing_agree fs1 fs2).
  2:{ intros n Hn. apply Hagree. by apply (candidates_above_here names base c up n). }
  rewrite IH; [done|]. intros f Hf. by apply Hagree, candidates_above_up.
Qed.

Lemma search_up_as_from fs names dir : search_up fs names dir = search_up_from fs names [] dir.
Proof.
  induction dir as [|c up IH]; simpl; [done|]. rewrite app_nil_r. by rewrite IH.
Qed.

Lemma load_files_agree fs1 fs2 config_path :
  cwd fs1 = cwd fs2 ->
  (forall f, f ∈ read_set fs1 config_path -> files fs1 f = files fs2 f) ->
  load_files fs1 match config_path with
                 | Some p => Some p
                 | None => match find_config fs1 with
                           | Some f => Some {| is_absolute := true; parts := f |}
                           | None => None
                           end
                 end
  = load_files fs2 match config_path with
                   | Some p => Some p
                   | None => match find_config fs2 with
                             | Some f => Some {| is_absolute := true; parts := f |}
                             | None => None
                             end
                   end.
Proof.
  intros Hcwd Hagree. destruct config_path as [p|]; simpl in *.
  - unfold locate, find_secrets in *. rewrite <- Hcwd.
    rewrite (Hagree _ (list_elem_of_here _ _)).
    destruct (files fs2 _) as [yaml_settings|]; [|done].
    rewrite (search_up_from_agree fs1 fs2).
    2:{ intros f Hf. apply Hagree. by right. }
    pose proof (search_up_from_spec fs2 secrets_names
                  (if is_absolute p then [] else cwd fs1) (parent (parts p))) as Hs.
    destruct (search_up_from fs2 _ _ _) as [s|]; [|done].
    destruct Hs as (k & name & Hk & Hname & -> & _).
    rewrite Hagree; [done|]. right.
    unfold candidates_above. apply list_elem_of_In, in_flat_map.
    exists k. split; [apply in_seq; lia|]. apply in_map_iff. exists name.
    split; [done|]. by apply list_elem_of_In.
  - unfold find_config. rewrite <- Hcwd, !search_up_as_from.
    rewrite (search_up_from_agree fs1 fs2).
    2:{ intros f Hf. apply Hagree, elem_of_app. by left. }
    pose proof (search_up_from_spec fs2 config_names [] (cwd fs1)) as Hc.
    destruct (search_up_from fs2 config_names [] (cwd fs1)) as [c|]; [|done].
    destruct Hc as (k & name & Hk & Hname & -> & _). rewrite app_nil_r.
    simpl. rewrite Hagree.
    2:{ apply elem_of_app. left. unfold candidates_above. apply list_elem_of_In, in_flat_map.
        exists k. split; [apply in_seq; lia|]. apply in_map_iff. exists name.
        split; [by rewrite app_nil_r|]. by apply list_elem_of_In. }
    destruct (files fs2 _) as [yaml_settings|]; [|done].
    unfold find_secrets. simpl.
    assert (forall f, f ∈ candidates_above secrets_names [] (drop k (cwd fs1)) ->
              files fs1 f = files fs2 f) as Hsec.
    { intros f Hf. apply Hagree, elem_of_app. right. by eapply candidates_above_drop. }
    rewrite (search_up_from_agree fs1 fs2) by done.
    pose proof (search_up_from_spec fs2 secrets_names [] (drop k (cwd fs1))) as Hs.
    destruct (search_up_from fs2 secrets_names [] (drop k (cwd fs1))) as [s|]; [|done].
    destruct Hs as (k' & name' & Hk' & Hname' & -> & _).
    rewrite Hsec; [done|].
    unfold candidates_above. apply list_elem_of_In, in_flat_map.
    exists k'. split; [apply in_seq; lia|]. apply in_map_iff. exists name'.
    split; [done|]. by apply list_elem_of_In.
Qed.

Lemma get_settings_agree fs1 fs2 config_path :
  cwd fs1 = cwd fs2 -> env fs1 = env fs2 ->
  (forall f, f ∈ read_set fs1 config_path -> files fs1 f = files fs2 f) ->
  get_settings fs1 config_path None = get_settings fs2 config_path None.
Proof.
  intros Hcwd Henv Hagree. unfold Config.get_settings.
  by rewrite (load_files_agree fs1 fs2 config_path Hcwd Hagree), Henv.
Qed.

Lemma get_settings_all_failed calls :
  Forall (fun call => returned_value (get_settings call.1 call.2 None).1 = None) calls ->
  get_settings_all calls None
  = (map (fun call => (get_settings call.1 call.2 None).1) calls, None).
Proof.
  induction 1 as [|[fs p] calls Hcall Hcalls IH]; [done|].
  cbn [Config.get_settings_all map fst snd]. cbn [fst snd] in Hcall.
  assert ((get_settings fs p None).2 = None) as Hg.
  { unfold Config.get_settings in *. by destruct (Settings_init _ _ _). }
  destruct (get_settings fs p None) as [r g1]. cbn [fst snd] in *. subst g1.
  by rewrite IH.
Qed.

Lemma get_settings_all_cached calls s :
  get_settings_all calls (Some s) = (map (fun _ => Ok s) calls, Some s).
Proof.
  induction calls as [|[fs p] calls IH]; [done|].
  cbn [Config.get_settings_all]. simpl. by rewrite IH.
Qed.

Lemma get_settings_all_app calls1 calls2 g :
  get_settings_all (calls1 ++ calls2) g
  = ((get_settings_all calls1 g).1 ++ (get_settings_all calls2 (get_settings_all calls1 g).2).1,
     (get_settings_all calls2 (get_settings_all calls1 g).2).2).
Proof.
  revert g. induction calls1 as [|[fs p] calls1 IH]; intros g.
  - simpl. by destruct (get_settings_all calls2 g).
  - cbn [Config.get_settings_all app]. destruct (get_settings fs p g) as [r g1].
    rewrite IH. by destruct (get_settings_all calls1 g1).
Qed.

Lemma get_settings_all_first_success failed fs config_path later s :
  Forall (fun call => returned_value (get_settings call.1 call.2 None).1 = None) failed ->
  (get_settings fs config_path None).1 = Ok s ->
  get_settings_all (failed ++ (fs, config_path) :: later) None
  = (map (fun call => (get_settings call.1 call.2 None).1) failed
       ++ Ok s :: map (fun _ => Ok s) later,
     Some s).
Proof.
  intros Hfailed Hfirst. rewrite get_settings_all_app, get_settings_all_failed by done.
  cbn [fst snd Config.get_settings_all].
  assert (get_settings fs config_path None = (Ok s, Some s)) as ->.
  { unfold Config.get_settings in *. destruct (Settings_init _ _ _); simpl in *; congruence. }
  by rewrite get_settings_all_cached.
Qed.

End LoadFrame.

Section NodeResolution.
Import DecoratorApp.
Variable Factory : Type.
Variable parse_model_string : option string -> result string.
Variable create_factory : option string -> RequestParams -> result Factory.
Variable RequestParams_defaults : RequestParams.
Variable repr_request_params : option RequestParams -> string.

Local Abbreviation create_orchestrators :=
  (DecoratorApp.create_orchestrators Factory parse_model_string create_factory
     RequestParams_defaults repr_request_params).
Local Abbreviation factory_for :=
  (DecoratorApp.factory_for Factory create_factory RequestParams_defaults).

Lemma factory_for_tiers self1 self2 model request_params :
  args_model self1 = args_model self2 ->
  Config.default_model (context_config self1) = Config.default_model (context_config self2) ->
  factory_for self1 model request_params = factory_for self2 model request_params.
Proof.
  intros Hcli Hfile. unfold DecoratorApp.factory_for, resolved_model_spec.
  by rewrite Hcli, Hfile.
Qed.

Lemma Forall2_get_agree (active1 active2 : Dict.t (RuntimeNode Factory)) names nodes1 nodes2 :
  (forall c, c ∈ names -> Dict.get active1 c = Dict.get active2 c) ->
  Forall2 (fun child node => Dict.get active1 child = Some node) names nodes1 ->
  Forall2 (fun child node => Dict.get active2 child = Some node) names nodes2 ->
  nodes1 = nodes2.
Proof.
  intros Hagree H1. revert nodes2. induction H1 as [|c n1 names nodes1 Hc H1 IH];
    intros nodes2 H2; inversion H2 as [|c' n2 names' nodes2' Hc' H2']; subst; [done|].
  rewrite (Hagree c) in Hc by left. f_equal; [congruence|].
  apply IH; [|done]. intros d Hd. apply Hagree. by right.
Qed.

Lemma orchestrator_built self active orchestrators n config children :
  NoDup (Dict.keys (agents self)) ->
  Dict.get (agents self) n = Some (OrchestratorData config children) ->
  (create_orchestrators self active).1 = Ok orchestrators ->
  orchestrator_wired Factory parse_model_string create_factory RequestParams_defaults
    self active orchestrators n.
Proof.
  intros Hnd Hget Hrun.
  pose proof (create_orchestrators_loop_spec Factory parse_model_string create_factory
                RequestParams_defaults repr_request_params self active (agents self) []
                orchestrators) as Hspec.
  destruct Hspec as [Hkeys Hwired]; [|done| |exact Hrun|].
  - intros k v Hin. by apply get_elem_of_NoDup.
  - intros m Hm. by apply elem_of_nil in Hm.
  - apply Hwired. rewrite Hkeys. simpl. apply names_of_type_elem; [done|]. by eexists.
Qed.

Lemma orchestrator_same_node self1 self2 active1 active2 o1 o2 n config children :
  args_model self1 = args_model self2 ->
  Config.default_model (context_config self1) = Config.default_model (context_config self2) ->
  NoDup (Dict.keys (agents self1)) -> NoDup (Dict.keys (agents self2)) ->
  Dict.get (agents self1) n = Some (OrchestratorData config children) ->
  Dict.get (agents self2) n = Some (OrchestratorData config children) ->
  (forall c, c ∈ children -> Dict.get active1 c = Dict.get active2 c) ->
  (create_orchestrators self1 active1).1 = Ok o1 ->
  (create_orchestrators self2 active2).1 = Ok o2 ->
  is_Some (Dict.get o1 n) /\ Dict.get o1 n = Dict.get o2 n.
Proof.
  intros Hcli Hfile Hnd1 Hnd2 Hget1 Hget2 Hactive Hrun1 Hrun2.
  destruct (orchestrator_built self1 active1 o1 n config children Hnd1 Hget1 Hrun1)
    as (c1 & ch1 & r1 & nodes1 & f1 & Hg1 & Hp1 & Hf1 & Hch1 & Ho1).
  destruct (orchestrator_built self2 active2 o2 n config children Hnd2 Hget2 Hrun2)
    as (c2 & ch2 & r2 & nodes2 & f2 & Hg2 & Hp2 & Hf2 & Hch2 & Ho2).
  rewrite Hget1 in Hg1. rewrite Hget2 in Hg2. simplify_eq.
  assert (r1 = r2) as -> by congruence.
  rewrite (factory_for_tiers self1 self2) in Hf1 by done.
  assert (f1 = f2) as -> by congruence.
  rewrite (Forall2_get_agree active1 active2 _ nodes1 nodes2 Hactive Hch1 Hch2) in Ho1.
  rewrite Ho1, Ho2. split; [by eexists|done].
Qed.

End NodeResolution.

Section Resolution.
Import Config DecoratorApp.
Variable validate_nested : environment -> Dict.t yaml -> option (Dict.t yaml).
Variable Factory : Type.
Variable parse_model_string : option string -> result string.
Variable create_factory : option string -> RequestParams -> result Factory.
Variable RequestParams_defaults : RequestParams.
Variable repr_request_params : option RequestParams -> string.

Local Abbreviation get_settings := (Config.get_settings validate_nested).
Local Abbreviation get_settings_all := (Config.get_settings_all validate_nested).
Local Abbreviation create_orchestrators :=
  (DecoratorApp.create_orchestrators Factory parse_model_string create_factory
     RequestParams_defaults repr_request_params).

(** C4 (amended). The file tier is not loaded by a pure function:
    [get_settings] keeps its first successful result in the module-level
    [_settings].  Of the loads made one after another, those before the
    first success are each computed from their own arguments, and every
    load after it returns the settings of that first success, whatever its
    arguments; if no load succeeds the global stays empty.  A load made
    with the global empty depends only on the working directory, the
    environment with [.env], and the files it may look at: two file
    systems that agree on them give the same result.  The resolution made
    for a node has no such memory: two decorators with the same
    command-line model and the same default model in their settings, each
    holding the same orchestrator entry under a name, build the same
    orchestrator under that name from active agents that agree on its
    children, whatever else the two registries hold and in whatever
    order. *)
Theorem resolution_reads_only_its_tiers :
  (forall failed fs config_path later s,
     Forall (fun call => returned_value (get_settings call.1 call.2 None).1 = None) failed ->
     (get_settings fs config_path None).1 = Ok s ->
     get_settings_all (failed ++ (fs, config_path) :: later) None
     = (map (fun call => (get_settings call.1 call.2 None).1) failed
          ++ Ok s :: map (fun _ => Ok s) later,
        Some s)) /\
  (forall calls,
     Forall (fun call => returned_value (get_settings call.1 call.2 None).1 = None) calls ->
     get_settings_all calls None
     = (map (fun call => (get_settings call.1 call.2 None).1) calls, None)) /\
  (forall fs1 fs2 config_path,
     cwd fs1 = cwd fs2 -> env fs1 = env fs2 ->
     (forall f, f ∈ read_set fs1 config_path -> files fs1 f = files fs2 f) ->
     get_settings fs1 config_path None = get_settings fs2 config_path None) /\
  (forall self1 self2 active1 active2 built1 built2 name config children,
     args_model self1 = args_model self2 ->
     default_model (context_config self1) = default_model (context_config self2) ->
     NoDup (Dict.keys (agents self1)) -> NoDup (Dict.keys (agents self2)) ->
     Dict.get (agents self1) name = Some (OrchestratorData config children) ->
     Dict.get (agents self2) name = Some (OrchestratorData config children) ->
     (forall child, child ∈ children -> Dict.get active1 child = Dict.get active2 child) ->
     (create_orchestrators self1 active1).1 = Ok built1 ->
     (create_orchestrators self2 active2).1 = Ok built2 ->
     is_Some (Dict.get built1 name) /\ Dict.get built1 name = Dict.get built2 name).
Proof.
  split_and!.
  - apply get_settings_all_first_success.
  - apply get_settings_all_failed.
  - apply get_settings_agree.
  - apply orchestrator_same_node.
Qed.

End Resolution.

Lemma regrouped_team_NoDup :
  NoDup (Dict.keys (DecoratorApp.agents DecoratorApp.regrouped_team)).
Proof. apply (bool_decide_unpack _). vm_compute. exact I. Qed.

Lemma resolution_reads_only_its_tiers_witness :
  Config.get_settings_all Config.accept_all
    ([(Config.invalid_engine_files, Some Config.path_c)]
       ++ (Config.two_files, Some Config.path_a)
       :: [(Config.two_files, Some Config.path_b);
           (Config.invalid_engine_files, Some Config.path_c)]) None
  = (map (fun call => (Config.get_settings Config.accept_all call.1 call.2 None).1)
       [(Config.invalid_engine_files, Some Config.path_c)]
       ++ Ok (Config.settings_with "sonnet")
       :: map (fun _ => Ok (Config.settings_with "sonnet"))
            [(Config.two_files, Some Config.path_b);
             (Config.invalid_engine_files, Some Config.path_c)],
     Some (Config.settings_with "sonnet")) /\
  (Config.get_settings Config.accept_all Config.invalid_engine_files (Some Config.path_c)
     None).1 = Raise (ValidationError "Settings") /\
  Config.get_settings_all Config.accept_all
    [(Config.invalid_engine_files, Some Config.path_c);
     (Config.invalid_engine_files, Some Config.path_c)] None
  = (map (fun call => (Config.get_settings Config.accept_all call.1 call.2 None).1)
       [(Config.invalid_engine_files, Some Config.path_c);
        (Config.invalid_engine_files, Some Config.path_c)], None) /\
  Config.files Config.two_files (Config.parts Config.path_b)
    = Some [("default_model", Config.YStr "opus")] /\
  Config.files Config.two_files_changed (Config.parts Config.path_b)
    = Some [("default_model", Config.YStr "gpt-4o")] /\
  Config.get_settings Config.accept_all Config.two_files (Some Config.path_a) None
    = Config.get_settings Config.accept_all Config.two_files_changed (Some Config.path_a)
        None /\
  Dict.keys (DecoratorApp.agents DecoratorApp.team) = ["a"; "b"; "P"; "Q"; "orch"; "refine"] /\
  Dict.keys (DecoratorApp.agents DecoratorApp.regrouped_team) = ["orch"; "b"; "lead"; "a"] /\
  (exists built1 built2,
     (DecoratorApp.create_orchestrators unit (fun m => Ok (default "" m)) (fun _ _ => Ok tt)
        DecoratorApp.some_defaults (fun _ => "RequestParams") DecoratorApp.team
        DecoratorApp.team_active).1 = Ok built1 /\
     (DecoratorApp.create_orchestrators unit (fun m => Ok (default "" m)) (fun _ _ => Ok tt)
        DecoratorApp.some_defaults (fun _ => "RequestParams") DecoratorApp.regrouped_team
        DecoratorApp.team_active).1 = Ok built2 /\
     is_Some (Dict.get built1 "orch") /\ Dict.get built1 "orch" = Dict.get built2 "orch").
Proof.
  destruct (resolution_reads_only_its_tiers Config.accept_all unit
              (fun m => Ok (default "" m)) (fun _ _ => Ok tt) DecoratorApp.some_defaults
              (fun _ => "RequestParams")) as (Hfirst & Hnone & Hframe & Hnode).
  split_and!.
  - apply (Hfirst [(Config.invalid_engine_files, Some Config.path_c)] Config.two_files
             (Some Config.path_a)
             [(Config.two_files, Some Config.path_b);
              (Config.invalid_engine_files, Some Config.path_c)]
             (Config.settings_with "sonnet")); [|reflexivity].
    constructor; [reflexivity|constructor].
  - reflexivity.
  - apply Hnone. constructor; [reflexivity|]. constructor; [reflexivity|constructor].
  - reflexivity.
  - reflexivity.
  - apply Hframe; [reflexivity..|].
    intros f Hf. simpl in Hf. unfold Config.two_files, Config.two_files_changed. simpl.
    repeat (apply elem_of_cons in Hf as [->|Hf]; [done|]). by apply elem_of_nil in Hf.
  - reflexivity.
  - reflexivity.
  - eexists _, _. split; [vm_compute; reflexivity|]. split; [vm_compute; reflexivity|].
    apply (Hnode DecoratorApp.team DecoratorApp.regrouped_team DecoratorApp.team_active
             DecoratorApp.team_active _ _ "orch" DecoratorApp.orchestrator_config ["b"; "a"]);
      try reflexivity.
    + apply team_registry_NoDup.
    + apply regrouped_team_NoDup.
Defined.
